(** * Fault-tolerance layer of the retail batch pipeline

    A shallow embedding of the checkpoint ledger, the retry wrapper, the
    circuit breaker, the tiered logger with its recovery routine and the
    month sweep of the session 3 pipelines, together with the properties
    the design document states about them.

    Conventions.  Python code that mutates an object or a database is
    written as a function from the state before to the state after.  A call
    that may raise returns a [result]; the state is returned next to it,
    because a Python exception does not undo the mutations made before it.
    [datetime.utcnow()] values are integers (microseconds), [time.time()]
    values and sleep durations are rationals. *)

From Stdlib Require Import ZArith QArith Lqa List String Ascii Bool Lia.
From Stdlib Require Import DecimalString.
Import ListNotations.

Local Open Scope string_scope.
Local Open Scope Z_scope.

Set Warnings "-register-all".

(* ================================================================== *)
(** ** Python values, exceptions and results *)
(* ================================================================== *)

Module Py.

(** An exception object: its class name and its [str()]. *)
Record exn : Type := Exn { exn_type : string; exn_msg : string }.

(** Outcome of a call: a returned value or a raised exception. *)
Inductive result (A : Type) : Type :=
| Ok (a : A)
| Raise (e : exn).
Arguments Ok {A} a.
Arguments Raise {A} e.

(** [raise None] is itself an error in Python 3. *)
Definition raise_none_error : exn :=
  Exn "TypeError" "exceptions must derive from BaseException".

(** Values that travel through keyword metadata, JSON documents and table
    cells.  [VObj] is an arbitrary object the JSON encoder rejects; it
    carries its [str()]. *)
Inductive pyval : Type :=
| VNone
| VBool (b : bool)
| VInt (z : Z)
| VStr (s : string)
| VList (l : list pyval)
| VDict (d : list (string * pyval))
| VObj (repr : string).

Definition dict : Type := list (string * pyval).

(** [d.get(k)], [d[k]] and [d.get(k, default)]. *)
Fixpoint dict_get (k : string) (d : dict) : option pyval :=
  match d with
  | [] => None
  | (k', v) :: d' => if String.eqb k k' then Some v else dict_get k d'
  end.

Definition dict_get_default (k : string) (default : pyval) (d : dict) : pyval :=
  match dict_get k d with
  | Some v => v
  | None => default
  end.

(** [str(n)] and [f"{n:02d}"] for an int. *)
Definition str_int (n : Z) : string := NilZero.string_of_int (Z.to_int n).

Definition format_02d (n : Z) : string :=
  let s := str_int n in
  if (String.length s <? 2)%nat then "0" ++ s else s.

(** Whether [json.dumps] accepts the value without a [default] hook. *)
Fixpoint serializable (v : pyval) : bool :=
  match v with
  | VObj _ => false
  | VList l => forallb serializable l
  | VDict d => forallb (fun kv => serializable (snd kv)) d
  | _ => true
  end.

(** What [json.dumps(v, default=str)] encodes: every rejected object is
    replaced by its [str()]. *)
Fixpoint default_str (v : pyval) : pyval :=
  match v with
  | VObj repr => VStr repr
  | VList l => VList (map default_str l)
  | VDict d => VDict (map (fun kv => (fst kv, default_str (snd kv))) d)
  | _ => v
  end.

(** Truth value of an optional dict argument ([if metadata]). *)
Definition dict_truthy (md : option dict) : bool :=
  match md with
  | Some (_ :: _) => true
  | _ => false
  end.

(** *** Calls that change a world [W] and may raise *)

Definition M (W A : Type) : Type := W -> result A * W.

Definition ret {W A : Type} (a : A) : M W A := fun w => (Ok a, w).

Definition raise {W A : Type} (e : exn) : M W A := fun w => (Raise e, w).

Definition bind {W A B : Type} (c : M W A) (k : A -> M W B) : M W B :=
  fun w =>
    match c w with
    | (Ok a, w') => k a w'
    | (Raise e, w') => (Raise e, w')
    end.

(** [try: body / except Exception as e: handler(e)] *)
Definition try_except {W A : Type} (body : M W A) (handler : exn -> M W A)
  : M W A :=
  fun w =>
    match body w with
    | (Ok a, w') => (Ok a, w')
    | (Raise e, w') => handler e w'
    end.

(** [try: body / finally: cleanup], for a cleanup that does not raise. *)
Definition try_finally {W A : Type} (body : M W A) (cleanup : W -> W)
  : M W A :=
  fun w => let (r, w') := body w in (r, cleanup w').

(** A statement that only changes the world. *)
Definition exec {W : Type} (f : W -> W) : M W unit := fun w => (Ok tt, f w).

End Py.
Export Py.

Declare Scope py_scope.
Delimit Scope py_scope with py.
Notation "x <- c ;; k" := (bind c (fun x => k))
  (at level 61, c at next level, right associativity) : py_scope.
Notation "c ;;; k" := (bind c (fun _ => k))
  (at level 61, right associativity) : py_scope.

(* ================================================================== *)
(** ** retry_with_backoff  (code/reliable_pipeline.py) *)
(* ================================================================== *)

Module Retry.

(** What the wrapper does to the outside world, in order. *)
Inductive event : Type :=
| Invoke               (* the decorated function was called *)
| Sleep (delay : Q).   (* time.sleep(delay) was called      *)

(** The world of one wrapped call: the state [func] works on, the number
    of values already taken from the random generator, and the events so
    far. *)
Record world (S : Type) : Type := World {
  store : S;
  draws : nat;
  trace : list event
}.
Arguments World {S} store draws trace.
Arguments store {S} w.
Arguments draws {S} w.
Arguments trace {S} w.

Definition is_invoke (ev : event) : bool :=
  match ev with Invoke => true | Sleep _ => false end.

Definition invocations (t : list event) : nat :=
  List.length (filter is_invoke t).

Fixpoint sleeps (t : list event) : list Q :=
  match t with
  | [] => []
  | Invoke :: t' => sleeps t'
  | Sleep d :: t' => d :: sleeps t'
  end.

Section Wrapper.

Variables S R : Type.

(** [random.random()]: the n-th value the generator hands out. *)
Variable random_random : nat -> Q.

Variable max_attempts : Z.
Variable base_delay : Q.

(** The decorated function, as a transformer of its state. *)
Variable func : S -> result R * S.

(** [base_delay * (2**attempt) + random.random()] *)
Definition delay_of (attempt : Z) (jitter : Q) : Q :=
  (base_delay * inject_Z (2 ^ attempt) + jitter)%Q.

(** The body of [for attempt in range(max_attempts)], with [remaining]
    iterations left, followed by [raise last_exception]. *)
Fixpoint attempts (remaining : nat) (attempt : Z)
         (last_exception : option exn) (w : world S)
  : result R * world S :=
  match remaining with
  | O =>
      match last_exception with
      | Some e => (Raise e, w)
      | None => (Raise raise_none_error, w)
      end
  | Datatypes.S remaining' =>
      let (r, s') := func (store w) in
      let w1 := World s' (draws w) (trace w ++ [Invoke]) in
      match r with
      | Ok v => (Ok v, w1)
      | Raise e =>
          let w2 :=
            if attempt <? max_attempts - 1 then
              let delay := delay_of attempt (random_random (draws w1)) in
              World (store w1) (Datatypes.S (draws w1))
                    (trace w1 ++ [Sleep delay])
            else w1 in
          attempts remaining' (attempt + 1) (Some e) w2
      end
  end.

Definition wrapper (w : world S) : result R * world S :=
  attempts (Z.to_nat max_attempts) 0 None w.

(** [func] raises on each of its next [k] invocations: the state after
    them and the exceptions raised, oldest first. *)
Fixpoint after_failures (k : nat) (s : S) : option (S * list exn) :=
  match k with
  | O => Some (s, [])
  | Datatypes.S k' =>
      match func s with
      | (Raise e, s') =>
          match after_failures k' s' with
          | Some (s'', es) => Some (s'', e :: es)
          | None => None
          end
      | (Ok _, _) => None
      end
  end.

(** Events of [k] failed attempts that are each followed by a sleep,
    the first of them being attempt number [attempt] and using draw
    number [d]. *)
Fixpoint backoff_trace (k : nat) (attempt : Z) (d : nat) : list event :=
  match k with
  | O => []
  | Datatypes.S k' =>
      Invoke :: Sleep (delay_of attempt (random_random d))
             :: backoff_trace k' (attempt + 1) (Datatypes.S d)
  end.

End Wrapper.

(** [last_exception] after the exceptions [es] were caught in turn. *)
Definition latest (es : list exn) (previous : option exn) : option exn :=
  last (map Some es) previous.

Arguments attempts {S R}.
Arguments wrapper {S R}.
Arguments after_failures {S R}.

(** [retry_with_backoff(max_attempts, base_delay)(func)] *)
Definition retry_with_backoff {S R : Type} (random_random : nat -> Q)
           (max_attempts : Z) (base_delay : Q)
           (func : S -> result R * S) : world S -> result R * world S :=
  wrapper random_random max_attempts base_delay func.

End Retry.

(* ================================================================== *)
(** ** CheckpointManager  (code/reliable_pipeline.py) *)
(* ================================================================== *)

Module Checkpoint.

Definition time : Type := Z.

(** A row of [ops.pipeline_checkpoint]; [None] is SQL NULL.  The columns
    and their defaults are those of the CREATE TABLE statement in
    failure-handling/init_environment.py; the ON CONFLICT clauses below
    rely on the unique index over the first four columns. *)
Record row : Type := Row {
  pipeline_name : string;
  run_id : string;
  stage : string;
  checkpoint_key : string;
  checkpoint_value : option string;
  status : option string;
  start_time : option time;
  end_time : option time;
  duration_ms : option pyval;
  metadata : option dict;
  updated_at : option time
}.

Definition table : Type := list row.

Record CheckpointManager : Type := Manager {
  self_pipeline_name : string;
  self_run_id : string;
  db_conn : bool              (* False when no connection was given *)
}.

(** The conflict target (pipeline_name, run_id, stage, checkpoint_key). *)
Definition same_unit (self : CheckpointManager) (stage_ key : string)
           (x : row) : bool :=
  String.eqb (pipeline_name x) (self_pipeline_name self)
  && String.eqb (run_id x) (self_run_id self)
  && String.eqb (stage x) stage_
  && String.eqb (checkpoint_key x) key.

Definition find_unit (self : CheckpointManager) (stage_ key : string)
           (t : table) : option row :=
  find (same_unit self stage_ key) t.

Definition count_unit (self : CheckpointManager) (stage_ key : string)
           (t : table) : nat :=
  List.length (filter (same_unit self stage_ key) t).

(** The unique index of the table. *)
Definition unit_of (x : row) : string * string * string * string :=
  (pipeline_name x, run_id x, stage x, checkpoint_key x).

Definition unique_units (t : table) : Prop := NoDup (map unit_of t).

Definition json_type_error : exn :=
  Exn "TypeError" "Object is not JSON serializable".

(** [json.dumps(metadata) if metadata else None] *)
Definition metadata_json (md : option dict) : result (option dict) :=
  match md with
  | Some d =>
      if dict_truthy md then
        if serializable (VDict d) then Ok (Some d) else Raise json_type_error
      else Ok None
  | None => Ok None
  end.

(** [metadata.get("duration_ms", 0) if metadata else 0] *)
Definition duration_of (md : option dict) : pyval :=
  match md with
  | Some d => if dict_truthy md then dict_get_default "duration_ms" (VInt 0) d
              else VInt 0
  | None => VInt 0
  end.

(** DO UPDATE SET of [set_checkpoint]: start_time is not assigned. *)
Definition do_update (x : row) (value : string) (status_ : string)
           (current_time : time) (duration : pyval) (md : option dict) : row :=
  {| pipeline_name := pipeline_name x;
     run_id := run_id x;
     stage := stage x;
     checkpoint_key := checkpoint_key x;
     checkpoint_value := Some value;
     status := Some status_;
     start_time := start_time x;
     end_time := Some current_time;
     duration_ms := Some duration;
     metadata := md;
     updated_at := Some current_time |}.

(** [get_checkpoint]: [result[0] if result else None]. *)
Definition get_checkpoint (self : CheckpointManager) (stage_ key : string)
           (t : table) : option string :=
  if db_conn self then
    match find_unit self stage_ key t with
    | Some x => checkpoint_value x
    | None => None
    end
  else None.

(** The default of the [status] parameter of [set_checkpoint]. *)
Definition default_status : string := "completed".

(** [set_checkpoint]: INSERT ... ON CONFLICT ... DO UPDATE.
    [current_time] is the value read from [datetime.utcnow()]. *)
Definition set_checkpoint (self : CheckpointManager) (stage_ key : string)
           (value : string) (status_ : string) (md : option dict)
           (current_time : time) : M table unit :=
  fun t =>
    if db_conn self then
      match metadata_json md with
      | Raise e => (Raise e, t)
      | Ok mdj =>
          let duration := duration_of md in
          if existsb (same_unit self stage_ key) t then
            (Ok tt,
             map (fun x => if same_unit self stage_ key x
                           then do_update x value status_ current_time
                                          duration mdj
                           else x) t)
          else
            (Ok tt,
             (t ++ [ {| pipeline_name := self_pipeline_name self;
                       run_id := self_run_id self;
                       stage := stage_;
                       checkpoint_key := key;
                       checkpoint_value := Some value;
                       status := Some status_;
                       start_time := Some current_time;
                       end_time := Some current_time;
                       duration_ms := Some duration;
                       metadata := mdj;
                       updated_at := Some current_time |} ])%list)
      end
    else (Ok tt, t).

(** [start_stage]: INSERT ... ON CONFLICT ... DO NOTHING.  The columns
    the statement leaves out take their defaults; [db_now] is the
    database's CURRENT_TIMESTAMP. *)
Definition start_stage (self : CheckpointManager) (stage_ key : string)
           (current_time db_now : time) : M table unit :=
  fun t =>
    if db_conn self then
      if existsb (same_unit self stage_ key) t then (Ok tt, t)
      else
        (Ok tt,
         (t ++ [ {| pipeline_name := self_pipeline_name self;
                   run_id := self_run_id self;
                   stage := stage_;
                   checkpoint_key := key;
                   checkpoint_value := None;
                   status := Some "in_progress";
                   start_time := Some current_time;
                   end_time := None;
                   duration_ms := None;
                   metadata := Some [];
                   updated_at := Some db_now |} ])%list)
    else (Ok tt, t).

End Checkpoint.

(* ================================================================== *)
(** ** ReliablePipeline  (code/reliable_pipeline.py) *)
(* ================================================================== *)

Module Reliable.

Import Checkpoint.
Local Open Scope py_scope.

(** A record of [ops.pipeline_logs] as [PipelineLogger] writes it. *)
Record log_record : Type := LogRecord {
  log_level : string;
  log_message : string;
  log_pipeline_name : string;
  log_run_id : string
}.

Section Pipeline.

(** The silver and gold tables, which only the stage SQL reads and
    writes. *)
Variable B : Type.

(** What the pipeline object and its database look like at some
    moment.  [connected] tells whether [connect()] has set [self.conn],
    [self.logger] and [self.checkpoint]. *)
Record world : Type := PipelineWorld {
  biz : B;
  db_up : bool;
  connected : bool;
  checkpoints : table;
  pipeline_logs : list log_record;
  clock : time
}.

(** [self.pipeline_name] and [self.run_id] of the pipeline object. *)
Variable self_run_id : string.
Definition self_pipeline_name : string := "reliable_gold_pipeline".

Definition self_checkpoint : CheckpointManager :=
  Manager self_pipeline_name self_run_id true.

Definition none_attribute_error : exn :=
  Exn "AttributeError" "'NoneType' object has no attribute".

Definition connect_error : exn :=
  Exn "OperationalError" "could not connect to server".

(** Using [self.checkpoint], [self.conn] or [self.logger] before
    [connect()] has run. *)
Definition need_connection : M world unit :=
  fun w => if connected w then (Ok tt, w)
           else (Raise none_attribute_error, w).

Definition with_table {A : Type} (c : time -> M table A) : M world A :=
  fun w =>
    let (r, t') := c (clock w) (checkpoints w) in
    (r, PipelineWorld (biz w) (db_up w) (connected w) t'
                      (pipeline_logs w) (clock w + 1)).

Definition checkpoint_start_stage (stage_ key : string) : M world unit :=
  need_connection ;;;
  with_table (fun now => start_stage self_checkpoint stage_ key now now).

Definition checkpoint_set_checkpoint (stage_ key value status_ : string)
           (md : option dict) : M world unit :=
  need_connection ;;;
  with_table (set_checkpoint self_checkpoint stage_ key value status_ md).

(** [self.logger.info] / [self.logger.error]: the record goes to the
    stream handler and to [ops.pipeline_logs]; a failure to write it is
    swallowed by [_log_to_db]. *)
Definition logger_log (level message : string) : M world unit :=
  need_connection ;;;
  exec (fun w =>
          PipelineWorld (biz w) (db_up w) (connected w) (checkpoints w)
            (pipeline_logs w ++
               [LogRecord level message self_pipeline_name self_run_id])
            (clock w)).

Definition logger_info : string -> M world unit := logger_log "INFO".
Definition logger_error : string -> M world unit := logger_log "ERROR".

(** Running a stage's SQL statement, commit included: a row count or an
    exception, and the business tables afterwards. *)
Definition run_sql (sql : B -> result Z * B) : M world Z :=
  need_connection ;;;
  (fun w =>
     let (r, b') := sql (biz w) in
     (r, PipelineWorld b' (db_up w) (connected w) (checkpoints w)
                       (pipeline_logs w) (clock w))).

(** [self.conn.rollback()] *)
Variable rollback : B -> B.

Definition conn_rollback : M world unit :=
  exec (fun w =>
          PipelineWorld (rollback (biz w)) (db_up w) (connected w)
                        (checkpoints w) (pipeline_logs w) (clock w)).

(** The undecorated body shared by [update_product_performance] and
    [update_country_sales]; they differ in the stage name, the SQL
    statement and the two messages. *)
Definition stage_body (stage_ : string) (sql : B -> result Z * B)
           (done_message : Z -> string) (failed_message : exn -> string)
  : M world Z :=
  checkpoint_start_stage stage_ "start" ;;;
  need_connection ;;;
  try_except
    (row_count <- run_sql sql ;;
     (* set_checkpoint(stage, "end", "completed", metadata={...}) *)
     checkpoint_set_checkpoint stage_ "end" "completed" default_status
       (Some [("rows_updated", VInt row_count)]) ;;;
     logger_info (done_message row_count) ;;;
     ret row_count)
    (fun e =>
       conn_rollback ;;;
       (* set_checkpoint(stage, "end", "failed"): the third positional
          parameter is checkpoint_value; status keeps its default *)
       checkpoint_set_checkpoint stage_ "end" "failed" default_status
         None ;;;
       logger_error (failed_message e) ;;;
       raise e).

Variable random_random : nat -> Q.

(** The SQL statements of the two stages. *)
Variables product_sql country_sql : B -> result Z * B.

Definition lift_store {S A : Type} (c : M S A) : M (Retry.world S) A :=
  fun w =>
    let (r, s') := c (Retry.store w) in
    (r, Retry.World s' (Retry.draws w) (Retry.trace w)).

(** [@retry_with_backoff(max_attempts=3, base_delay=1.0)] *)
Definition update_product_performance : M (Retry.world world) Z :=
  Retry.retry_with_backoff random_random 3 1
    (stage_body "product_performance" product_sql
       (fun n => "Updated " ++ str_int n ++ " products in performance table")
       (fun e => "Failed to update product performance: " ++ exn_msg e)).

Definition update_country_sales : M (Retry.world world) Z :=
  Retry.retry_with_backoff random_random 3 1
    (stage_body "country_sales" country_sql
       (fun n => "Updated " ++ str_int n ++ " countries in sales table")
       (fun e => "Failed to update country sales: " ++ exn_msg e)).

(** [connect()]: on success the logger and the checkpoint manager
    exist and the first record is logged. *)
Definition connect : M world unit :=
  (fun w =>
     if db_up w then
       (Ok tt, PipelineWorld (biz w) (db_up w) true (checkpoints w)
                             (pipeline_logs w) (clock w))
     else (Raise connect_error, w)) ;;;
  logger_info "Database connection established".

(** [disconnect()]: [if self.conn: self.conn.close()]. *)
Definition disconnect (w : world) : world :=
  PipelineWorld (biz w) (db_up w) false (checkpoints w)
                (pipeline_logs w) (clock w).

Definition run_pipeline : M (Retry.world world) unit :=
  try_finally
    (try_except
       (lift_store connect ;;;
        lift_store (logger_info "Pipeline started") ;;;
        product_rows <- update_product_performance ;;
        country_rows <- update_country_sales ;;
        lift_store (logger_info "Pipeline completed successfully") ;;;
        ret tt)
       (fun e =>
          lift_store (logger_error ("Pipeline failed: " ++ exn_msg e)) ;;;
          raise e))
    (fun w => Retry.World (disconnect (Retry.store w))
                          (Retry.draws w) (Retry.trace w)).

(** The status and the value column of a stage's "end" checkpoint in
    this run. *)
Definition end_status (stage_ : string) (w : world) : option string :=
  match find_unit self_checkpoint stage_ "end" (checkpoints w) with
  | Some x => status x
  | None => None
  end.

Definition end_value (stage_ : string) (w : world) : option string :=
  match find_unit self_checkpoint stage_ "end" (checkpoints w) with
  | Some x => checkpoint_value x
  | None => None
  end.

(** What a stage's "end" checkpoint says. *)
Definition recorded (stage_ value status_ : string) (w : world) : Prop :=
  end_value stage_ w = Some value /\ end_status stage_ w = Some status_.

End Pipeline.

Arguments biz {B} w.
Arguments db_up {B} w.
Arguments connected {B} w.
Arguments checkpoints {B} w.
Arguments pipeline_logs {B} w.
Arguments clock {B} w.
Arguments PipelineWorld {B}.

End Reliable.

(* ================================================================== *)
(** ** CircuitBreaker  (failure-handling/fail_retry_exhaustion.py) *)
(* ================================================================== *)

Module Breaker.

Inductive cb_state : Type := CLOSED | OPEN | HALF_OPEN.

Record CircuitBreaker : Type := Breaker {
  failure_threshold : Z;
  timeout : Q;
  failure_count : Z;
  last_failure_time : option Q;
  state : cb_state
}.

(** [CircuitBreaker(failure_threshold, timeout)] *)
Definition init (failure_threshold_ : Z) (timeout_ : Q) : CircuitBreaker :=
  Breaker failure_threshold_ timeout_ 0 None CLOSED.

Definition blocked_error : exn :=
  Exn "Exception" "Circuit breaker is OPEN - calls blocked".

(** [time.time() - None] *)
Definition none_operand_error : exn :=
  Exn "TypeError" "unsupported operand type(s) for -: 'float' and 'NoneType'".

Definition Qgtb (a b : Q) : bool := negb (Qle_bool a b).

Definition is_half_open (s : cb_state) : bool :=
  match s with HALF_OPEN => true | _ => false end.

(** The [if self.state == "OPEN"] block at the head of [call]; [now] is
    the reading of [time.time()]. *)
Definition gate (self : CircuitBreaker) (now : Q) : result CircuitBreaker :=
  match state self with
  | OPEN =>
      match last_failure_time self with
      | None => Raise none_operand_error
      | Some t =>
          if Qgtb (now - t) (timeout self) then
            Ok (Breaker (failure_threshold self) (timeout self)
                        (failure_count self) (last_failure_time self)
                        HALF_OPEN)
          else Raise blocked_error
      end
  | _ => Ok self
  end.

(** After [func] returned. *)
Definition on_success (self : CircuitBreaker) : CircuitBreaker :=
  if is_half_open (state self) then
    Breaker (failure_threshold self) (timeout self) 0
            (last_failure_time self) CLOSED
  else self.

(** After [func] raised; [now] is the reading of [time.time()]. *)
Definition on_failure (self : CircuitBreaker) (now : Q) : CircuitBreaker :=
  let count := failure_count self + 1 in
  Breaker (failure_threshold self) (timeout self) count (Some now)
          (if failure_threshold self <=? count then OPEN else state self).

Section Call.

(** [S] is the outside world the protected function acts on; it holds
    the clock that [time.time()] reads. *)
Variables S R : Type.
Variable time_time : S -> Q.

(** The breaker object, the outside world, and how often a protected
    function has been entered. *)
Record world : Type := World {
  breaker : CircuitBreaker;
  env : S;
  invoked : nat
}.

Definition call (func : S -> result R * S) : M world R :=
  fun w =>
    match gate (breaker w) (time_time (env w)) with
    | Raise e => (Raise e, w)
    | Ok self =>
        let (r, s') := func (env w) in
        match r with
        | Ok v => (Ok v, World (on_success self) s' (Datatypes.S (invoked w)))
        | Raise e =>
            (Raise e, World (on_failure self (time_time s')) s'
                            (Datatypes.S (invoked w)))
        end
    end.

(** A sequence of calls, each with its own function; exceptions are
    caught by the caller, as in the demonstration loop. *)
Fixpoint calls (fs : list (S -> result R * S)) (w : world) : world :=
  match fs with
  | [] => w
  | f :: fs' => calls fs' (snd (call f w))
  end.

(** How many of those calls end with an exception. *)
Fixpoint failures (fs : list (S -> result R * S)) (w : world) : Z :=
  match fs with
  | [] => 0
  | f :: fs' =>
      (match fst (call f w) with Raise _ => 1 | Ok _ => 0 end)
      + failures fs' (snd (call f w))
  end.

End Call.

Arguments World {S}.
Arguments breaker {S} w.
Arguments env {S} w.
Arguments invoked {S} w.
Arguments call {S R}.
Arguments calls {S R}.
Arguments failures {S R}.

End Breaker.

(* ================================================================== *)
(** ** RobustLogger and LogRecovery
       (failure-handling/fail_logging_failure.py) *)
(* ================================================================== *)

Module Logging.

Local Open Scope py_scope.

(** A row sent to [ops.pipeline_logs]: the six bound parameters of the
    INSERT statement, the last one being JSON text. *)
Record log_row : Type := LogRow {
  timestamp : pyval;
  level : pyval;
  message : pyval;
  pipeline_name : pyval;
  run_id : pyval;
  metadata : string
}.

(** Lines printed to the console are kept without the mark and the
    indentation they start with.

    The primary sink.  [db_fault] is the exception every statement on the
    connection raises while the database is unusable (closed connection,
    missing table, ...).  Inserted rows stay [pending] until a commit. *)
Record connection : Type := Connection {
  db_fault : option exn;
  pending : list log_row;
  committed : list log_row
}.

(** A log file on disk.  [file_fault] is the exception opening or
    writing it raises (disk full, permissions, ...). *)
Record file : Type := File {
  present : bool;
  file_fault : option exn;
  lines : list string
}.

Record world : Type := World {
  conn : connection;
  fallback_log : file;
  critical_log : file;
  stdout : list string;
  stderr : list string
}.

Record RobustLogger : Type := Logger {
  self_run_id : string;
  self_pipeline_name : string
}.

(** [RobustLogger(conn)] *)
Definition init : RobustLogger := Logger "robust-run-456" "robust-pipeline".

Definition newline : string := String (ascii_of_nat 10) EmptyString.

(** Characters [str.strip()] removes, among the ASCII ones. *)
Definition is_space (c : ascii) : bool :=
  let n := nat_of_ascii c in
  ((9 <=? n) && (n <=? 13) || (28 <=? n) && (n <=? 32))%nat.

(** [if line.strip()] *)
Fixpoint strip_truthy (line : string) : bool :=
  match line with
  | EmptyString => false
  | String c rest => negb (is_space c) || strip_truthy rest
  end.

Definition key_error (k : string) : exn := Exn "KeyError" k.

Definition subscript_error : exn :=
  Exn "TypeError" "object is not subscriptable with a string key".

(** [v[k]] for a string key. *)
Definition subscript (v : pyval) (k : string) : result pyval :=
  match v with
  | VDict d =>
      match dict_get k d with
      | Some x => Ok x
      | None => Raise (key_error k)
      end
  | _ => Raise subscript_error
  end.

Definition pure {W A : Type} (r : result A) : M W A := fun w => (r, w).

Definition print (s : string) : M world unit :=
  exec (fun w => World (conn w) (fallback_log w) (critical_log w)
                       (stdout w ++ [s]) (stderr w)).

Definition print_stderr (s : string) : M world unit :=
  exec (fun w => World (conn w) (fallback_log w) (critical_log w)
                       (stdout w) (stderr w ++ [s])).

(** [cur.execute("INSERT INTO ops.pipeline_logs ...", row)] inside
    [with self.conn.cursor() as cur]. *)
Definition execute_insert (r : log_row) : M world unit :=
  fun w =>
    match db_fault (conn w) with
    | Some e => (Raise e, w)
    | None =>
        (Ok tt,
         World (Connection None (pending (conn w) ++ [r])
                           (committed (conn w)))
               (fallback_log w) (critical_log w) (stdout w) (stderr w))
    end.

(** [self.conn.commit()] *)
Definition commit : M world unit :=
  fun w =>
    match db_fault (conn w) with
    | Some e => (Raise e, w)
    | None =>
        (Ok tt,
         World (Connection None []
                           (committed (conn w) ++ pending (conn w)))
               (fallback_log w) (critical_log w) (stdout w) (stderr w))
    end.

(** [with open(path, "a") as f: f.write(line)] *)
Definition append_line (f : file) (line : string) : result file :=
  match file_fault f with
  | Some e => Raise e
  | None => Ok (File true None (lines f ++ [line]))
  end.

Definition append_fallback (line : string) : M world unit :=
  fun w =>
    match append_line (fallback_log w) line with
    | Raise e => (Raise e, w)
    | Ok f => (Ok tt, World (conn w) f (critical_log w) (stdout w) (stderr w))
    end.

Definition append_critical (line : string) : M world unit :=
  fun w =>
    match append_line (critical_log w) line with
    | Raise e => (Raise e, w)
    | Ok f => (Ok tt, World (conn w) (fallback_log w) f (stdout w) (stderr w))
    end.

Section Json.

(** The encoder and the decoder of the [json] module: the text of a
    value the encoder accepts, and the value of a text or the
    [JSONDecodeError] it raises. *)
Variable json_dumps : pyval -> string.
Variable json_loads : string -> result pyval.

(** [json.dumps(v)] *)
Definition dumps (v : pyval) : result string :=
  if serializable v then Ok (json_dumps v)
  else Raise Checkpoint.json_type_error.

(** [json.dumps(v, default=str)] *)
Definition dumps_default_str (v : pyval) : string :=
  json_dumps (default_str v).

(** The parameter tuple both INSERT statements build from a log
    entry. *)
Definition entry_row (log_entry : pyval) : result log_row :=
  match subscript log_entry "timestamp" with
  | Raise e => Raise e
  | Ok ts =>
  match subscript log_entry "level" with
  | Raise e => Raise e
  | Ok lv =>
  match subscript log_entry "message" with
  | Raise e => Raise e
  | Ok msg =>
  match subscript log_entry "pipeline_name" with
  | Raise e => Raise e
  | Ok pn =>
  match subscript log_entry "run_id" with
  | Raise e => Raise e
  | Ok rid =>
  match subscript log_entry "metadata" with
  | Raise e => Raise e
  | Ok md => Ok (LogRow ts lv msg pn rid (dumps_default_str md))
  end end end end end end.

(** [cur.execute(INSERT, tuple)] for a log entry. *)
Definition insert_entry (log_entry : pyval) : M world unit :=
  r <- pure (entry_row log_entry) ;;
  execute_insert r.

(** The [log_entry] dict built at the head of [log]. *)
Definition make_entry (self : RobustLogger) (now_iso level_ message_ : string)
           (metadata_ : dict) : pyval :=
  VDict [ ("timestamp", VStr now_iso);
          ("level", VStr level_);
          ("message", VStr message_);
          ("pipeline_name", VStr (self_pipeline_name self));
          ("run_id", VStr (self_run_id self));
          ("metadata", VDict metadata_) ].

Definition _log_to_database (log_entry : pyval) (message_ : string)
  : M world bool :=
  try_except
    (insert_entry log_entry ;;;
     commit ;;;
     print ("Database log: " ++ message_) ;;;
     ret true)
    (fun e =>
       print ("Database logging failed: " ++ exn_msg e) ;;;
       ret false).

Definition _log_to_file (log_entry : pyval) (message_ : string)
  : M world bool :=
  try_except
    (text <- pure (dumps log_entry) ;;
     append_fallback (text ++ newline) ;;;
     print ("File log fallback: " ++ message_) ;;;
     ret true)
    (fun e =>
       print ("File logging failed: " ++ exn_msg e) ;;;
       ret false).

Definition critical_line (now_iso level_ simple_message : string) : string :=
  now_iso ++ " - " ++ level_ ++ " - " ++ simple_message ++ newline.

Definition _log_to_critical_file (now_iso level_ simple_message : string)
  : M world unit :=
  try_except
    (append_critical (critical_line now_iso level_ simple_message) ;;;
     print ("Critical log fallback: " ++ simple_message))
    (fun e =>
       print ("All logging failed: " ++ exn_msg e) ;;;
       print_stderr ("CRITICAL: " ++ simple_message)).

(** The body of [log], once its parameters are bound; [now_iso] is
    [datetime.utcnow().isoformat() + "Z"]. *)
Definition log_body (self : RobustLogger) (now_iso : string)
           (level_ message_ : string) (metadata_ : dict) : M world unit :=
  let log_entry := make_entry self now_iso level_ message_ metadata_ in
  in_db <- _log_to_database log_entry message_ ;;
  if in_db : bool then ret tt
  else
    in_file <- _log_to_file log_entry message_ ;;
    if in_file : bool then ret tt
    else _log_to_critical_file now_iso level_ message_.

(** The header [def log(self, level, message, **metadata)].  A call
    [self.log(level, message, *extra, **keywords)] gives the level and
    the message in the first two positions, as every call in the file
    does.  The interpreter binds the keywords first: one that is named
    like a parameter meets a parameter that has its value already;
    the others make up [metadata].  Then it refuses positional arguments
    beyond the parameters.  Both failures are TypeErrors raised in the
    caller before the body is entered; the text of the messages names
    the function as the interpreter of the day does. *)
Definition log_parameters : list string := ["self"; "level"; "message"].

Definition names_parameter (kv : string * pyval) : bool :=
  existsb (String.eqb (fst kv)) log_parameters.

Definition multiple_values (k : string) : exn :=
  Exn "TypeError" ("log() got multiple values for argument '" ++ k ++ "'").

Definition too_many_positional (given : nat) : exn :=
  Exn "TypeError"
      ("log() takes 3 positional arguments but " ++ str_int (Z.of_nat given)
         ++ " were given").

Definition bind_metadata (extra : list pyval) (keywords : dict)
  : result dict :=
  match find names_parameter keywords with
  | Some kv => Raise (multiple_values (fst kv))
  | None =>
      match extra with
      | [] => Ok keywords
      | _ :: _ => Raise (too_many_positional (3 + List.length extra))
      end
  end.

(** [RobustLogger.log]: the call [self.log(level, message, *extra,
    **keywords)]. *)
Definition log (self : RobustLogger) (now_iso : string)
           (level_ message_ : string) (extra : list pyval) (keywords : dict)
  : M world unit :=
  metadata_ <- pure (bind_metadata extra keywords) ;;
  log_body self now_iso level_ message_ metadata_.

(** The [for line in f] loop of [recover_file_logs]. *)
Fixpoint recover_lines (ls : list string) (recovered_count : Z)
  : M world Z :=
  match ls with
  | [] => ret recovered_count
  | line :: rest =>
      if strip_truthy line then
        log_entry <- pure (json_loads line) ;;
        insert_entry log_entry ;;;
        recover_lines rest (recovered_count + 1)
      else recover_lines rest recovered_count
  end.

(** The row one line of the file stands for, or the exception that
    decoding it or reading its fields raises. *)
Definition line_row (line : string) : result log_row :=
  match json_loads line with
  | Ok log_entry => entry_row log_entry
  | Raise e => Raise e
  end.

(** The rows of a list of lines all of whose non-blank lines decode. *)
Fixpoint recoverable (ls : list string) : option (list log_row) :=
  match ls with
  | [] => Some []
  | line :: rest =>
      if strip_truthy line then
        match line_row line, recoverable rest with
        | Ok r, Some rs => Some (r :: rs)
        | _, _ => None
        end
      else recoverable rest
  end.

(** [with open(file_path, "r") as f] *)
Definition open_read (f : file) : M world (list string) :=
  match file_fault f with
  | Some e => raise e
  | None => ret (lines f)
  end.

(** [LogRecovery.recover_file_logs(file_path)], [f] being the file
    found at [file_path]. *)
Definition recover_file_logs (f : file) : M world unit :=
  if negb (present f) then print "No fallback log file found"
  else
    try_except
      (ls <- open_read f ;;
       recovered_count <- recover_lines ls 0 ;;
       commit ;;;
       print ("Recovered " ++ str_int recovered_count
                ++ " log entries to database"))
      (fun e => print ("Log recovery failed: " ++ exn_msg e)).

End Json.


(** [conn = psycopg2.connect(...)] after the old connection was lost:
    what was committed is still in the table, what was pending is
    gone. *)
Definition reconnect (w : world) : world :=
  World (Connection None [] (committed (conn w)))
        (fallback_log w) (critical_log w) (stdout w) (stderr w).

End Logging.

(* ================================================================== *)
(** ** Month sweep  (session3/code/idempotent_pipeline.py) *)
(* ================================================================== *)

Module Idempotent.

Local Open Scope py_scope.

Definition time : Type := Z.

(** A row of [ops.processed_months]; [month_key] is UNIQUE. *)
Record month_row : Type := MonthRow {
  month_key : string;
  year : Z;
  month : Z;
  processed_at : time;
  updated_at : time;
  status : string;
  metadata : dict
}.

(** The records the module's logger receives, one constructor per
    message format. *)
Inductive log_line : Type :=
| StartingRun                                 (* Starting pipeline run {id} *)
| RunEvent (year month : option Z) (reset dry_run : bool)
                                              (* Event: {vars(args)} *)
| Connected
| MarkedMonth (key status_ : string)          (* Marked month {k} as {s} *)
| ResetAll                                    (* Reset all processed months *)
| AllReset                       (* All processed months have been reset *)
| RetryWarning (n max_attempts : Z) (delay : Q) (e : exn)
| ProcessedMonth (y m rows : Z)               (* Processed {y}-{m}: ... *)
| ErrorProcessing (y m : Z) (e : exn)         (* Error processing month *)
| FoundDistinct (n : nat)                     (* Found {n} distinct months *)
| NoNewMonths                                 (* No new months to process *)
| ProcessingUnprocessed (n : nat)             (* Processing {n} unprocessed *)
| PipelineCompleted (rows : Z)                (* Pipeline completed *)
| PipelineFailed (e : exn).                   (* Pipeline failed: {e} *)

(** [f"{year}-{month:02d}"] *)
Definition key_of (y m : Z) : string := str_int y ++ "-" ++ format_02d m.

(** ORDER BY month_key *)
Fixpoint insert_sorted (k : string) (l : list string) : list string :=
  match l with
  | [] => [k]
  | k' :: l' => if String.leb k k' then k :: l else k' :: insert_sorted k l'
  end.

Definition order_by (l : list string) : list string :=
  fold_right insert_sorted [] l.

(** Command-line arguments. *)
Record args : Type := Args {
  arg_year : option Z;
  arg_month : option Z;
  arg_reset : bool;
  arg_dry_run : bool
}.

Definition default_args : args := Args None None false false.

(** Truth value of an optional int argument. *)
Definition given (a : option Z) : bool :=
  match a with
  | Some z => negb (z =? 0)
  | None => false
  end.

Definition system_exit : exn := Exn "SystemExit" "1".

Definition connect_error : exn :=
  Exn "OperationalError" "could not connect to server".

Section Sweep.

(** The silver and gold tables. *)
Variable B : Type.

Record db : Type := Db {
  biz : B;
  db_up : bool;
  processed_months : list month_row;
  log : list log_line;
  printed : list string;
  clock : time
}.

Definition world : Type := Retry.world db.

Definition on_db {A : Type} (c : M db A) : M world A :=
  fun w =>
    let (r, d') := c (Retry.store w) in
    (r, Retry.World d' (Retry.draws w) (Retry.trace w)).

Definition logger (l : log_line) : M db unit :=
  exec (fun d => Db (biz d) (db_up d) (processed_months d)
                    (log d ++ [l]) (printed d) (clock d)).

Definition print (s : string) : M db unit :=
  exec (fun d => Db (biz d) (db_up d) (processed_months d)
                    (log d) (printed d ++ [s]) (clock d)).

Definition set_table (t : list month_row) : M db unit :=
  exec (fun d => Db (biz d) (db_up d) t (log d) (printed d) (clock d)).

(** CURRENT_TIMESTAMP: every statement sees a later instant. *)
Definition current_timestamp : M db time :=
  fun d => (Ok (clock d),
            Db (biz d) (db_up d) (processed_months d) (log d)
               (printed d) (clock d + 1)).

(** *** CheckpointManager *)

Definition get_processed_months : M db (list string) :=
  fun d => (Ok (order_by (map month_key (processed_months d))), d).

Definition has_key (k : string) (r : month_row) : bool :=
  String.eqb (month_key r) k.

(** INSERT ... ON CONFLICT (month_key) DO UPDATE SET status,
    processed_at. *)
Definition upsert_month (y m : Z) (status_ : string) (now : time)
           (t : list month_row) : list month_row :=
  let k := key_of y m in
  if existsb (has_key k) t then
    map (fun r => if has_key k r
                  then MonthRow (month_key r) (year r) (month r) now
                                (updated_at r) status_ (metadata r)
                  else r) t
  else t ++ [MonthRow k y m now now status_ []].

Definition set_month_processed (y m : Z) (status_ : string) : M db unit :=
  now <- current_timestamp ;;
  (fun d => set_table (upsert_month y m status_ now (processed_months d)) d) ;;;
  logger (MarkedMonth (key_of y m) status_).

Definition reset_processed_months : M db unit :=
  set_table [] ;;;
  logger ResetAll.

(** *** retry_with_backoff, the copy of this file: it logs a warning
    before it sleeps. *)

Variable random_random : nat -> Q.

Section RetryCopy.

Variable R : Type.
Variable max_attempts : Z.
Variable base_delay : Q.
Variable func : M db R.

Fixpoint attempts (remaining : nat) (attempt : Z)
         (last_exception : option exn) (w : world) : result R * world :=
  match remaining with
  | O =>
      match last_exception with
      | Some e => (Raise e, w)
      | None => (Raise raise_none_error, w)
      end
  | S remaining' =>
      let (r, d') := func (Retry.store w) in
      let w1 := Retry.World d' (Retry.draws w)
                            (Retry.trace w ++ [Retry.Invoke]) in
      match r with
      | Ok v => (Ok v, w1)
      | Raise e =>
          let w2 :=
            if attempt <? max_attempts - 1 then
              let delay :=
                Retry.delay_of base_delay attempt
                               (random_random (Retry.draws w1)) in
              let d2 :=
                snd (logger (RetryWarning (attempt + 1) max_attempts
                                          delay e) d') in
              Retry.World d2 (S (Retry.draws w1))
                          (Retry.trace w1 ++ [Retry.Sleep delay])
            else w1 in
          attempts remaining' (attempt + 1) (Some e) w2
      end
  end.

Definition retry_with_backoff : M world R :=
  attempts (Z.to_nat max_attempts) 0 None.

End RetryCopy.

(** *** process_month_gold *)

(** The aggregate statement for one month, commit included, and
    [conn.rollback()]. *)
Variable gold_sql : Z -> Z -> B -> result Z * B.
Variable rollback : B -> B.

Definition run_gold_sql (y m : Z) : M db Z :=
  fun d =>
    let (r, b') := gold_sql y m (biz d) in
    (r, Db b' (db_up d) (processed_months d) (log d) (printed d) (clock d)).

Definition conn_rollback : M db unit :=
  exec (fun d => Db (rollback (biz d)) (db_up d) (processed_months d)
                    (log d) (printed d) (clock d)).

Definition process_month_gold_body (y m : Z) : M db dict :=
  try_except
    (row_count <- run_gold_sql y m ;;
     logger (ProcessedMonth y m row_count) ;;;
     ret [("success", VBool true); ("rows", VInt row_count)])
    (fun e =>
       conn_rollback ;;;
       logger (ErrorProcessing y m e) ;;;
       raise e).

(** [@retry_with_backoff(max_attempts=3, base_delay=1.0)] *)
Definition process_month_gold (y m : Z) : M world dict :=
  retry_with_backoff dict 3 1 (process_month_gold_body y m).

(** *** get_distinct_months *)

(** SELECT DISTINCT year, month over the silver layer. *)
Variable distinct_months : B -> list (Z * Z).

Definition get_distinct_months : M db (list (Z * Z)) :=
  fun d =>
    let months := distinct_months (biz d) in
    (logger (FoundDistinct (List.length months)) ;;; ret months) d.

(** *** main *)

(** The two argument filters applied to [all_months]. *)
Definition filter_args (a : args) (all_months : list (Z * Z))
  : list (Z * Z) :=
  if given (arg_year a) && given (arg_month a) then
    match arg_year a, arg_month a with
    | Some y, Some m => [(y, m)]
    | _, _ => all_months
    end
  else if given (arg_year a) then
    match arg_year a with
    | Some y => filter (fun ym => fst ym =? y) all_months
    | None => all_months
    end
  else all_months.

Definition key_in (k : string) (keys : list string) : bool :=
  existsb (String.eqb k) keys.

(** [[m for m in all_months if key(m) not in processed_months]] *)
Definition unprocessed (processed : list string)
           (all_months : list (Z * Z)) : list (Z * Z) :=
  filter (fun ym => negb (key_in (key_of (fst ym) (snd ym)) processed))
         all_months.

(** [result.get("rows", 0)] added to an int. *)
Definition rows_of (result_ : dict) : Z :=
  match dict_get_default "rows" (VInt 0) result_ with
  | VInt n => n
  | _ => 0
  end.

(** The [for year, month in unprocessed_months] loop. *)
Fixpoint sweep (ms : list (Z * Z)) (total_processed : Z) : M world Z :=
  match ms with
  | [] => ret total_processed
  | (y, m) :: rest =>
      on_db (set_month_processed y m "in_progress") ;;;
      result_ <- process_month_gold y m ;;
      on_db (set_month_processed y m "completed") ;;;
      sweep rest (total_processed + rows_of result_)
  end.

Definition connect : M db unit :=
  fun d => if db_up d then logger Connected d else (Raise connect_error, d).

Definition print_dry_run (ms : list (Z * Z)) : M db unit :=
  print "DRY RUN - Would process the following months:" ;;;
  fold_right (fun ym k => print ("  " ++ key_of (fst ym) (snd ym)) ;;; k)
             (ret tt) ms.

(** [main], from the line after [args = parser.parse_args()] on: [a]
    is the namespace the parser returned.  What argparse does with a
    command line it refuses or with [--help] (it leaves the program
    before the [try] is entered) is not part of it.  The handler is the
    one of [except Exception]; the exceptions of this file are of that
    kind. *)
Definition main (a : args) : M world unit :=
  on_db (logger StartingRun) ;;;
  on_db (logger (RunEvent (arg_year a) (arg_month a) (arg_reset a)
                          (arg_dry_run a))) ;;;
  try_except
    (on_db connect ;;;
     if arg_reset a then
       on_db reset_processed_months ;;;
       on_db (logger AllReset)
     else
       processed <- on_db get_processed_months ;;
       all_months <- on_db get_distinct_months ;;
       let ms := unprocessed processed (filter_args a all_months) in
       match ms with
       | [] => on_db (logger NoNewMonths)
       | _ :: _ =>
           on_db (logger (ProcessingUnprocessed (List.length ms))) ;;;
           if arg_dry_run a then on_db (print_dry_run ms)
           else
             total_processed <- sweep ms 0 ;;
             on_db (logger (PipelineCompleted total_processed))
       end)
    (fun e =>
       on_db (logger (PipelineFailed e)) ;;;
       raise system_exit).

(** The status column of a month. *)
Definition status_of (k : string) (d : db) : option string :=
  match find (has_key k) (processed_months d) with
  | Some r => Some (status r)
  | None => None
  end.

(** Between two states of the database nothing happened to month
    [k]: its row is the same and no record says it was marked. *)
Definition untouched (k : string) (d d' : db) : Prop :=
  find (has_key k) (processed_months d')
  = find (has_key k) (processed_months d)
  /\ exists new,
       log d' = (log d ++ new)%list
       /\ forall status_, ~ In (MarkedMonth k status_) new.

(** Between two states the table of processed months is the same and
    no record says that any month was marked. *)
Definition calm (d d' : db) : Prop :=
  processed_months d' = processed_months d
  /\ exists new,
       log d' = (log d ++ new)%list
       /\ forall k status_, ~ In (MarkedMonth k status_) new.


End Sweep.

Arguments biz {B} d.
Arguments db_up {B} d.
Arguments processed_months {B} d.
Arguments log {B} d.
Arguments printed {B} d.
Arguments clock {B} d.
Arguments Db {B}.

End Idempotent.

(* ================================================================== *)
(** ** Time spent sleeping by the retry wrapper *)
(* ================================================================== *)

Module Backoff.

(** The sum of the durations passed to [time.sleep]. *)
Definition total_sleep (t : list Retry.event) : Q :=
  fold_right Qplus 0%Q (Retry.sleeps t).


(** The events of [n] invocations with one sleep between each two of
    them and none after the last: the first invocation is attempt number
    [attempt] and the first sleep uses draw number [d]. *)
Definition spaced_trace (random_random : nat -> Q) (base_delay : Q)
           (n : nat) (attempt : Z) (d : nat) : list Retry.event :=
  match n with
  | O => []
  | Datatypes.S k =>
      (Retry.backoff_trace random_random base_delay k attempt d
         ++ [Retry.Invoke])%list
  end.

End Backoff.

(* ================================================================== *)
(** ** Units of the checkpoint ledger *)
(* ================================================================== *)

Module Units.

Import Checkpoint.

(** The values a manager binds to the conflict target for a stage and a
    key. *)
Definition unit_id (self : CheckpointManager) (stage_ key : string)
  : string * string * string * string :=
  (self_pipeline_name self, self_run_id self, stage_, key).

End Units.

(* ================================================================== *)
(** ** ProductionRetryHandler and GracefulDegradation
       (failure-handling/fail_retry_exhaustion.py) *)
(* ================================================================== *)

Module Handler.

Import Breaker.

(** A breaker at rest, between two calls: closed, or open with the time
    of the failure that opened it and a counter that has reached the
    threshold. *)
Definition settled (cb : CircuitBreaker) : Prop :=
  match state cb with
  | CLOSED => True
  | OPEN => last_failure_time cb <> None
            /\ failure_threshold cb <= failure_count cb
  | HALF_OPEN => False
  end.

(** [self.state] as it is printed. *)
Definition state_name (s : cb_state) : string :=
  match s with
  | CLOSED => "CLOSED"
  | OPEN => "OPEN"
  | HALF_OPEN => "HALF_OPEN"
  end.

(** The lines [execute_with_retry] prints, one constructor per format. *)
Inductive line : Type :=
| Alert (operation_name : string)        (* ALERT: {name} - Circuit breaker ... *)
| AlertEmail                             (* Alert email sent to ops team *)
| MetricFailure (operation_name : string)        (* METRIC: {name}_failure = 1 *)
| MetricState (operation_name state_ : string).  (* METRIC: {name}_circuit_state *)

Section Execute.

Variables S R : Type.
Variable time_time : S -> Q.

(** The handler object and the world: [max_retries] and [backoff_base]
    are stored by the constructor; the breaker is the one it creates. *)
Record ProductionRetryHandler : Type := ProductionHandler {
  max_retries : Z;
  backoff_base : Q;
  circuit_breaker : Breaker.world S;
  alert_sent : bool;
  printed : list line
}.

(** [ProductionRetryHandler(max_retries, backoff_base,
    circuit_breaker_threshold)]; the breaker keeps its default timeout of
    60. *)
Definition init (max_retries_ : Z) (backoff_base_ : Q)
           (circuit_breaker_threshold : Z) (s : S) : ProductionRetryHandler :=
  ProductionHandler max_retries_ backoff_base_
    (Breaker.World (Breaker.init circuit_breaker_threshold 60) s 0)
    false [].

Definition execute_with_retry (operation : S -> result R * S)
           (operation_name : string) : M ProductionRetryHandler R :=
  fun self =>
    match call time_time operation (circuit_breaker self) with
    | (Ok v, cw) =>
        (Ok v,
         ProductionHandler (max_retries self) (backoff_base self) cw
                           (alert_sent self) (printed self))
    | (Raise e, cw) =>
        let alert :=
          if alert_sent self then []
          else [Alert operation_name; AlertEmail] in
        (Raise e,
         ProductionHandler (max_retries self) (backoff_base self) cw true
           (printed self ++ alert
              ++ [MetricFailure operation_name;
                  MetricState operation_name (state_name (state (breaker cw)))]))
    end.

(** A sequence of executions whose exceptions the caller catches. *)
Fixpoint executions (ops : list ((S -> result R * S) * string))
         (self : ProductionRetryHandler) : ProductionRetryHandler :=
  match ops with
  | [] => self
  | (operation, name) :: rest =>
      executions rest (snd (execute_with_retry operation name self))
  end.

(** How many of them end with an exception. *)
Fixpoint failed_executions (ops : list ((S -> result R * S) * string))
         (self : ProductionRetryHandler) : nat :=
  match ops with
  | [] => 0
  | (operation, name) :: rest =>
      (match fst (execute_with_retry operation name self) with
       | Raise _ => 1
       | Ok _ => 0
       end
       + failed_executions rest (snd (execute_with_retry operation name self)))%nat
  end.

End Execute.

Arguments ProductionHandler {S}.
Arguments max_retries {S} p.
Arguments backoff_base {S} p.
Arguments circuit_breaker {S} p.
Arguments alert_sent {S} p.
Arguments printed {S} p.
Arguments init {S}.
Arguments execute_with_retry {S R}.
Arguments executions {S R}.
Arguments failed_executions {S R}.

Definition is_alert (l : line) : bool :=
  match l with Alert _ => true | _ => false end.

Definition is_metric_failure (l : line) : bool :=
  match l with MetricFailure _ => true | _ => false end.


(** How often the alert line and the failure metric have been printed. *)
Definition alerts {S : Type} (h : ProductionRetryHandler S) : nat :=
  List.length (filter is_alert (printed h)).

Definition failure_metrics {S : Type} (h : ProductionRetryHandler S) : nat :=
  List.length (filter is_metric_failure (printed h)).

End Handler.

Module Degradation.

(** A row of the query: date, total sales, total quantity. *)
Definition rows : Type := list (string * Q * Z).

Definition cache_result : rows := [("2010-12-01", 100 # 1, 10)].
Definition default_result : rows := [("DEFAULT", 0 # 1, 0)].

Inductive line : Type :=
| TryingPrimary
| PrimarySucceeded
| PrimaryFailed (e : exn)
| TryingCache
| CacheSucceeded
| UsingDefault.

Section GetData.

(** The database behind the connection. *)
Variable S : Type.

(** [cur.execute(query); cur.fetchall()] *)
Variable run_query : string -> S -> result rows * S.

Record GracefulDegradation : Type := Degraded {
  primary_available : bool;
  cache_available : bool;
  database : S;
  printed : list line
}.

Definition print (l : line) : M GracefulDegradation unit :=
  exec (fun self => Degraded (primary_available self) (cache_available self)
                             (database self) (printed self ++ [l])).

Definition query_primary (query : string) : M GracefulDegradation rows :=
  fun self =>
    let (r, s') := run_query query (database self) in
    (r, Degraded (primary_available self) (cache_available self) s'
                 (printed self)).

Definition set_primary_unavailable : M GracefulDegradation unit :=
  exec (fun self => Degraded false (cache_available self) (database self)
                             (printed self)).

Local Open Scope py_scope.

(** The first [try] block: [Some rows] when it returned. *)
Definition try_primary (query : string) : M GracefulDegradation (option rows) :=
  try_except
    (fun self =>
       if primary_available self then
         (print TryingPrimary ;;;
          result_ <- query_primary query ;;
          print PrimarySucceeded ;;;
          ret (Some result_)) self
       else ret None self)
    (fun e =>
       print (PrimaryFailed e) ;;;
       set_primary_unavailable ;;;
       ret None).

Definition get_data (query : string) : M GracefulDegradation rows :=
  from_primary <- try_primary query ;;
  match from_primary with
  | Some result_ => ret result_
  | None =>
      fun self =>
        if cache_available self then
          (print TryingCache ;;;
           print CacheSucceeded ;;;
           ret cache_result) self
        else
          (print UsingDefault ;;;
           ret default_result) self
  end.

(** A sequence of queries, with the results they return. *)
Fixpoint get_all (queries : list string) (self : GracefulDegradation)
  : list (result rows) * GracefulDegradation :=
  match queries with
  | [] => ([], self)
  | q :: rest =>
      let (r, self') := get_data q self in
      let (rs, self'') := get_all rest self' in
      (r :: rs, self'')
  end.

End GetData.

Arguments Degraded {S}.
Arguments primary_available {S} g.
Arguments cache_available {S} g.
Arguments database {S} g.
Arguments printed {S} g.
Arguments get_data {S}.
Arguments get_all {S}.

End Degradation.

(* ================================================================== *)
(** ** Sample operations and inputs *)
(* ================================================================== *)

Module Demo.

(** The functions the demonstration script wraps; their state is the
    [attempt_count] they increment. *)
Definition flaky_function_succeeds (attempt_count : Z) : result string * Z :=
  let attempt_count := attempt_count + 1 in
  if attempt_count <? 3 then
    (Raise (Exn "OperationalError" "Connection temporarily unavailable"),
     attempt_count)
  else (Ok "Success after retries", attempt_count).

Definition always_failing_function (attempt_count : Z) : result string * Z :=
  (Raise (Exn "OperationalError" "Database permanently unavailable"),
   attempt_count + 1).

(** A random generator that always answers one half. *)
Definition half (n : nat) : Q := 1 # 2.

Definition fresh : Retry.world Z := Retry.World 0 0%nat [].

(** A checkpoint manager as the test suite builds it, and a ledger in
    which the unit ("test_stage", "test_key") was started at instant 5. *)
Definition manager : Checkpoint.CheckpointManager :=
  Checkpoint.Manager "test_pipeline" "test_run_005" true.

Definition started_ledger : Checkpoint.table :=
  snd (Checkpoint.start_stage manager "test_stage" "test_key" 5 5 []).

(** A run of the reliable pipeline in which the product statement
    updates 5 rows and the country statement raises on every attempt.
    The business tables play no part and are left abstract as [unit]. *)
Definition product_ok (b : unit) : result Z * unit := (Ok 5, b).

Definition country_down (b : unit) : result Z * unit :=
  (Raise (Exn "OperationalError" "server closed the connection"), b).

Definition pipeline_start : Retry.world (Reliable.world unit) :=
  Retry.World (Reliable.PipelineWorld tt true false [] [] 0) 0%nat [].

Definition failed_run : result unit * Retry.world (Reliable.world unit) :=
  Reliable.run_pipeline unit "run-1" (fun b => b) half
                        product_ok country_down pipeline_start.

(** A plain JSON encoder, enough for values whose strings need no
    escaping, and the worlds of the logging demonstration: the database
    connection has been closed; the fallback file is writable. *)
Definition quote : string := String (ascii_of_nat 34) EmptyString.

Fixpoint plain_dumps (v : pyval) : string :=
  match v with
  | VNone => "null"
  | VBool true => "true"
  | VBool false => "false"
  | VInt z => str_int z
  | VStr s => quote ++ s ++ quote
  | VList l => "[" ++ String.concat ", " (map plain_dumps l) ++ "]"
  | VDict d =>
      "{" ++ String.concat ", "
               (map (fun kv => quote ++ fst kv ++ quote ++ ": "
                                 ++ plain_dumps (snd kv)) d)
          ++ "}"
  | VObj repr => repr
  end.

Definition closed_connection : Logging.connection :=
  Logging.Connection (Some (Exn "InterfaceError" "connection already closed"))
                     [] [].

Definition empty_file : Logging.file := Logging.File true None [].

Definition database_down : Logging.world :=
  Logging.World closed_connection empty_file empty_file [] [].

(** The fallback file of the demonstration after two records were
    written to it and a third write was torn, and the decoder on the
    lines of that file. *)
Definition entry_a : pyval :=
  Logging.make_entry Logging.init "2024-01-01T10:00:00Z" "WARNING"
    "Database down, using file fallback" [("fallback", VStr "file")].

Definition entry_b : pyval :=
  Logging.make_entry Logging.init "2024-01-01T10:00:02Z" "ERROR"
    "All systems failing" [("critical", VBool true)].

Definition line_a : string := plain_dumps entry_a ++ Logging.newline.
Definition line_b : string := plain_dumps entry_b ++ Logging.newline.
Definition torn_line : string := "{ torn record" ++ Logging.newline.

Definition decode_error : exn :=
  Exn "JSONDecodeError"
      "Expecting property name enclosed in double quotes".

Definition sample_loads (s : string) : result pyval :=
  if String.eqb s line_a then Ok entry_a
  else if String.eqb s line_b then Ok entry_b
  else Raise decode_error.

Definition row_a : Logging.log_row :=
  Logging.LogRow (VStr "2024-01-01T10:00:00Z") (VStr "WARNING")
    (VStr "Database down, using file fallback") (VStr "robust-pipeline")
    (VStr "robust-run-456") (plain_dumps (VDict [("fallback", VStr "file")])).

Definition row_b : Logging.log_row :=
  Logging.LogRow (VStr "2024-01-01T10:00:02Z") (VStr "ERROR")
    (VStr "All systems failing") (VStr "robust-pipeline")
    (VStr "robust-run-456") (plain_dumps (VDict [("critical", VBool true)])).

Definition mixed_file : Logging.file :=
  Logging.File true None [line_a; torn_line; line_b].

Definition clean_file : Logging.file :=
  Logging.File true None [line_a; Logging.newline; line_b].

Definition database_up : Logging.world :=
  Logging.World (Logging.Connection None [] []) mixed_file empty_file [] [].

(** A silver layer with two months, of which 2011-01 cannot be
    aggregated, and an empty ledger of processed months. *)
Definition two_months (b : unit) : list (Z * Z) := [(2010, 12); (2011, 1)].

Definition january_fails (y m : Z) (b : unit) : result Z * unit :=
  if (y =? 2011) && (m =? 1)
  then (Raise (Exn "OperationalError" "deadlock detected"), b)
  else (Ok 3, b).

Definition sweep_start : Idempotent.world unit :=
  Retry.World (Idempotent.Db tt true [] [] [] 0) 0%nat [].

Definition sweep_main (a : Idempotent.args)
  : Idempotent.world unit -> result unit * Idempotent.world unit :=
  Idempotent.main unit half january_fails (fun b => b) two_months a.

(** The state the first run leaves behind. *)
Definition after_crash : Idempotent.world unit :=
  snd (sweep_main Idempotent.default_args sweep_start).

(** Services behind the circuit breaker.  The outside world is the
    clock alone; a call to a service takes one second. *)
Definition clock_time (now : Q) : Q := now.

Definition failing_service (now : Q) : result string * Q :=
  (Raise (Exn "OperationalError" "Service unavailable"), (now + 1)%Q).

Definition healthy_service (now : Q) : result string * Q :=
  (Ok "ok", (now + 1)%Q).

(** [CircuitBreaker(failure_threshold=2, timeout=5)] at instant 100. *)
Definition breaker_start : Breaker.world Q :=
  Breaker.World (Breaker.init 2 5%Q) 100%Q 0%nat.

(** The same breaker, opened by a failure at instant 100, seen at
    instant [now]. *)
(** The breaker after a failing call, then a successful call, then a
    second failing call. *)
Definition after_failure : Breaker.world Q :=
  snd (Breaker.call clock_time failing_service breaker_start).

Definition after_success : Breaker.world Q :=
  snd (Breaker.call clock_time healthy_service after_failure).

Definition after_second_failure : Breaker.world Q :=
  snd (Breaker.call clock_time failing_service after_success).

Definition breaker_open_at (now : Q) : Breaker.world Q :=
  Breaker.World (Breaker.Breaker 2 5%Q 2 (Some 100%Q) Breaker.OPEN) now 2%nat.

(** More runs of the reliable pipeline: a country statement that works, a
    product statement that never does, a database that cannot be reached,
    and a pipeline object that is connected already. *)
Definition country_ok (b : unit) : result Z * unit := (Ok 7, b).

Definition product_down (b : unit) : result Z * unit :=
  (Raise (Exn "OperationalError" "relation does not exist"), b).

Definition unreachable_start : Retry.world (Reliable.world unit) :=
  Retry.World (Reliable.PipelineWorld tt false false [] [] 0) 0%nat [].

Definition connected_start : Retry.world (Reliable.world unit) :=
  Retry.World (Reliable.PipelineWorld tt true true [] [] 0) 0%nat [].

(** A production handler with threshold 2 in front of the services. *)
Definition handler_start : Handler.ProductionRetryHandler Q :=
  Handler.init 2 1 2 100%Q.

(** A degradation object whose primary is believed available, on a
    database (its only state is the number of statements run) that can
    or cannot answer. *)
Definition answering (query : string) (n : nat)
  : result Degradation.rows * nat :=
  (Ok [("2011-01-05", 250 # 1, 42)], Datatypes.S n).

Definition refusing (query : string) (n : nat)
  : result Degradation.rows * nat :=
  (Raise (Exn "OperationalError" "connection lost"), Datatypes.S n).

Definition degradation_start : Degradation.GracefulDegradation nat :=
  Degradation.Degraded true true 0%nat [].

(** A silver layer all of whose months can be aggregated. *)
Definition every_month_ok (y m : Z) (b : unit) : result Z * unit := (Ok 3, b).

(** A month whose aggregate statement can never be run. *)
Definition never_ok (y m : Z) (b : unit) : result Z * unit :=
  (Raise (Exn "OperationalError" "deadlock detected"), b).

(** The sinks at the first call of the robust logger: the database
    answers and both files were just created. *)
Definition sinks_up : Logging.world :=
  Logging.World (Logging.Connection None [] []) empty_file empty_file [] [].

End Demo.

(* ================================================================== *)
(** * Properties *)
(* ================================================================== *)

(** ** The retry wrapper *)

Module RetryFacts.

Import Retry.

Lemma invocations_app (t1 t2 : list event) :
  invocations (t1 ++ t2) = (invocations t1 + invocations t2)%nat.
Proof.
  unfold invocations. now rewrite filter_app, length_app.
Qed.

Lemma sleeps_app (t1 t2 : list event) :
  sleeps (t1 ++ t2) = (sleeps t1 ++ sleeps t2)%list.
Proof.
  induction t1 as [|[|d] t1 IH]; simpl; auto. now rewrite IH.
Qed.

Lemma last_cons {A : Type} (l : list A) (x d : A) :
  last (x :: l) d = last l x.
Proof.
  revert x d. induction l as [|y l IH]; intros x d; [reflexivity|].
  change (last (x :: y :: l) d) with (last (y :: l) d).
  now rewrite (IH y d), (IH y x).
Qed.

Section Facts.

Context {S R : Type}.
Variable random_random : nat -> Q.
Variable max_attempts : Z.
Variable base_delay : Q.
Variable func : S -> result R * S.

Local Abbreviation attempts := (attempts random_random max_attempts base_delay func).
Local Abbreviation wrapper := (wrapper random_random max_attempts base_delay func).
Local Abbreviation backoff_trace := (backoff_trace random_random base_delay).
Local Abbreviation delay_of := (delay_of base_delay).

Lemma invocations_backoff (k : nat) (a : Z) (d : nat) :
  invocations (backoff_trace k a d) = k.
Proof.
  revert a d. induction k as [|k IH]; intros a d; [reflexivity|].
  change (invocations (backoff_trace (Datatypes.S k) a d))
    with (Datatypes.S (invocations (backoff_trace k (a + 1) (Datatypes.S d)))).
  now rewrite IH.
Qed.

(** The sleeps of [k] backed-off attempts: attempt [a + i] waits
    [base_delay * 2^(a+i)] plus draw number [d + i]. *)
Lemma sleeps_backoff (k : nat) (a : Z) (d : nat) :
  sleeps (backoff_trace k a d)
  = map (fun i => delay_of (a + Z.of_nat i) (random_random (d + i)))
        (seq 0 k).
Proof.
  revert a d. induction k as [|k IH]; intros a d; [reflexivity|].
  cbn [Retry.backoff_trace sleeps seq map].
  rewrite IH, <- seq_shift, map_map. f_equal.
  - now rewrite Z.add_0_r, Nat.add_0_r.
  - apply map_ext. intros i. f_equal; [lia|]. f_equal. lia.
Qed.

(** The state and the exceptions after one more failure. *)
Lemma after_failures_snoc (k : nat) (s s' : S) (es : list exn) :
  after_failures func (Datatypes.S k) s = Some (s', es) ->
  exists s1 es1 e,
    after_failures func k s = Some (s1, es1)
    /\ func s1 = (Raise e, s') /\ es = (es1 ++ [e])%list.
Proof.
  revert s s' es. induction k as [|k IH]; intros s s' es H.
  - simpl in H. destruct (func s) as [[v|e] s1] eqn:E; [discriminate|].
    inversion H; subst. exists s, [], e. auto.
  - change (after_failures func (Datatypes.S (Datatypes.S k)) s)
      with (match func s with
            | (Raise e, s0) =>
                match after_failures func (Datatypes.S k) s0 with
                | Some (s'', es0) => Some (s'', e :: es0)
                | None => None
                end
            | (Ok _, _) => None
            end) in H.
    destruct (func s) as [[v|e] s0] eqn:E; [discriminate|].
    destruct (after_failures func (Datatypes.S k) s0) as [[s2 es2]|] eqn:E2;
      [|discriminate].
    inversion H; subst. destruct (IH _ _ _ E2) as (s1 & es1 & e1 & A & F & L).
    exists s1, (e :: es1)%list, e1. repeat split; auto.
    + simpl. now rewrite E, A.
    + now rewrite L.
Qed.

(** [k] failing attempts, none of them the final one, run the loop [k]
    steps forward: each is one invocation followed by one sleep. *)
Lemma attempts_backoff (k : nat) :
  forall (remaining : nat) (attempt : Z) (previous : option exn)
         (w : world S) (s' : S) (es : list exn),
    after_failures func k (store w) = Some (s', es) ->
    attempt + Z.of_nat k <= max_attempts - 1 ->
    attempts (k + remaining) attempt previous w
    = attempts remaining (attempt + Z.of_nat k) (latest es previous)
        (World s' (draws w + k)
               (trace w ++ backoff_trace k attempt (draws w))).
Proof.
  induction k as [|k IH]; intros remaining attempt previous w s' es H Hle.
  - simpl in H. inversion H; subst. simpl.
    rewrite Z.add_0_r, Nat.add_0_r, app_nil_r. now destruct w.
  - simpl in H. destruct (func (store w)) as [[v|e] s1] eqn:E; [discriminate|].
    destruct (after_failures func k s1) as [[s2 es2]|] eqn:E2; [|discriminate].
    inversion H; subst.
    change (attempts (Datatypes.S k + remaining) attempt previous w)
      with (attempts (Datatypes.S (k + remaining)) attempt previous w).
    cbn [Retry.attempts]. rewrite E.
    assert (Hlt : (attempt <? max_attempts - 1) = true) by (apply Z.ltb_lt; lia).
    rewrite Hlt. cbn [store draws trace].
    rewrite (IH remaining (attempt + 1) (Some e) _ s' es2); cbn [store draws trace];
      [|assumption|lia].
    f_equal.
    + lia.
    + unfold latest. cbn [map]. now rewrite last_cons.
    + f_equal; [lia|]. rewrite <- !app_assoc. reflexivity.
Qed.

(** Success on invocation [k + 1]. *)
Lemma wrapper_success (k : nat) (w : world S) (s' s'' : S)
      (es : list exn) (v : R) :
  Z.of_nat k + 1 <= max_attempts ->
  after_failures func k (store w) = Some (s', es) ->
  func s' = (Ok v, s'') ->
  wrapper w
  = (Ok v, World s'' (draws w + k)
                 (trace w ++ backoff_trace k 0 (draws w) ++ [Invoke])).
Proof.
  intros Hle Hf Hok. unfold Retry.wrapper.
  replace (Z.to_nat max_attempts)
    with (k + Datatypes.S (Z.to_nat max_attempts - k - 1))%nat by lia.
  rewrite (attempts_backoff k _ 0 None w s' es Hf) by lia.
  cbn [Retry.attempts store draws trace]. rewrite Hok.
  now rewrite <- app_assoc.
Qed.

(** Failure on every one of the [max_attempts] invocations. *)
Lemma wrapper_exhausted (w : world S) (s' : S) (es : list exn) :
  1 <= max_attempts ->
  after_failures func (Z.to_nat max_attempts) (store w) = Some (s', es) ->
  exists (es0 : list exn) (e : exn),
    es = (es0 ++ [e])%list
    /\ wrapper w
       = (Raise e,
          World s' (draws w + (Z.to_nat max_attempts - 1))
                (trace w
                   ++ backoff_trace (Z.to_nat max_attempts - 1) 0 (draws w)
                   ++ [Invoke])).
Proof.
  intros Hmax Hf. unfold Retry.wrapper.
  remember (Z.to_nat max_attempts - 1)%nat as k eqn:Hk.
  assert (Hn : Z.to_nat max_attempts = Datatypes.S k) by lia.
  rewrite Hn in Hf |- *.
  destruct (after_failures_snoc _ _ _ _ Hf) as (s1 & es1 & e & A & F & L).
  exists es1, e. split; [assumption|].
  replace (Datatypes.S k) with (k + 1)%nat by lia.
  rewrite (attempts_backoff k _ 0 None w s1 es1 A) by lia.
  cbn [Retry.attempts store draws trace]. rewrite F.
  assert (Hge : (0 + Z.of_nat k <? max_attempts - 1) = false)
    by (apply Z.ltb_ge; lia).
  rewrite Hge. cbn [store draws trace]. now rewrite <- app_assoc.
Qed.

(** A rule for reasoning about the wrapper: [inv] holds before every
    attempt, [post] after an attempt that returned and [failed] after
    one that raised. *)
Lemma attempts_rule (inv : S -> Prop) (post : R -> S -> Prop)
      (failed : S -> Prop) :
  (forall s, inv s ->
             match func s with
             | (Ok v, s') => post v s'
             | (Raise _, s') => inv s' /\ failed s'
             end) ->
  forall (remaining : nat) (attempt : Z) (previous : option exn)
         (w : world S),
    inv (store w) ->
    (match previous with
     | Some _ => failed (store w)
     | None => (1 <= remaining)%nat
     end) ->
    match attempts remaining attempt previous w with
    | (Ok v, w') => post v (store w')
    | (Raise _, w') => failed (store w')
    end.
Proof.
  intros Hfunc. induction remaining as [|n IH];
    intros attempt previous w Hinv Hprev.
  - cbn [Retry.attempts]. destruct previous; [assumption|lia].
  - cbn [Retry.attempts]. specialize (Hfunc _ Hinv).
    destruct (func (store w)) as [[v|e] s']; [exact Hfunc|].
    destruct Hfunc as [Hinv' Hfailed].
    apply IH; destruct (attempt <? max_attempts - 1); assumption.
Qed.

End Facts.

(** C6.  With [max_attempts >= 1]: an operation that raises on its
    first [k] invocations and returns on invocation [k + 1], with
    [k + 1 <= max_attempts], makes the wrapper return that value after
    exactly [k + 1] invocations; an operation that raises on each of its
    [max_attempts] invocations is invoked exactly [max_attempts] times
    and the wrapper raises the exception of the last invocation itself;
    with [max_attempts = 1] the first failure is raised at once, after
    one invocation and no sleep. *)
Theorem retry_first_success_or_last_failure
        {S R : Type} (random_random : nat -> Q) (max_attempts : Z)
        (base_delay : Q) (func : S -> result R * S) (w : world S) :
  1 <= max_attempts ->
  (forall (k : nat) (s' s'' : S) (es : list exn) (v : R),
      Z.of_nat k + 1 <= max_attempts ->
      after_failures func k (store w) = Some (s', es) ->
      func s' = (Ok v, s'') ->
      exists w',
        retry_with_backoff random_random max_attempts base_delay func w
        = (Ok v, w')
        /\ store w' = s''
        /\ invocations (trace w') = (invocations (trace w) + (k + 1))%nat)
  /\ (forall (s' : S) (es : list exn),
         after_failures func (Z.to_nat max_attempts) (store w) = Some (s', es) ->
         exists w' es0 e,
           es = (es0 ++ [e])%list
           /\ retry_with_backoff random_random max_attempts base_delay func w
              = (Raise e, w')
           /\ store w' = s'
           /\ invocations (trace w')
              = (invocations (trace w) + Z.to_nat max_attempts)%nat)
  /\ (max_attempts = 1 ->
      forall (e : exn) (s' : S),
        func (store w) = (Raise e, s') ->
        retry_with_backoff random_random max_attempts base_delay func w
        = (Raise e, World s' (draws w) (trace w ++ [Invoke]))).
Proof.
  intros Hmax. unfold retry_with_backoff. repeat split.
  - intros k s' s'' es v Hk Hf Hok.
    eexists. split; [apply (wrapper_success _ _ _ _ k w s' s'' es v Hk Hf Hok)|].
    cbn [store trace]. split; [reflexivity|].
    rewrite !invocations_app, invocations_backoff. reflexivity.
  - intros s' es Hf.
    destruct (wrapper_exhausted random_random _ base_delay _ w s' es Hmax Hf)
      as (es0 & e & Hes & Hw).
    eexists _, es0, e. split; [assumption|]. split; [exact Hw|].
    cbn [store trace]. split; [reflexivity|].
    rewrite !invocations_app, invocations_backoff. cbn. lia.
  - intros -> e s' Hf. unfold wrapper.
    change (Z.to_nat 1) with 1%nat. cbn [attempts]. rewrite Hf. reflexivity.
Qed.

Lemma retry_first_success_or_last_failure_witness :
  (exists w',
      retry_with_backoff Demo.half 3 (1 # 10) Demo.flaky_function_succeeds
                         Demo.fresh
      = (Ok "Success after retries", w')
      /\ store w' = 3
      /\ invocations (trace w') = 3%nat)
  /\ (exists w' es0 e,
        [Exn "OperationalError" "Database permanently unavailable";
         Exn "OperationalError" "Database permanently unavailable";
         Exn "OperationalError" "Database permanently unavailable"]
        = (es0 ++ [e])%list
        /\ retry_with_backoff Demo.half 3 (1 # 10)
                              Demo.always_failing_function Demo.fresh
           = (Raise e, w')
        /\ store w' = 3
        /\ invocations (trace w') = 3%nat).
Proof.
  split.
  - destruct (retry_first_success_or_last_failure
                Demo.half 3 (1 # 10) Demo.flaky_function_succeeds Demo.fresh)
      as [H _]; [discriminate|].
    apply (H 2%nat 2 3
             [Exn "OperationalError" "Connection temporarily unavailable";
              Exn "OperationalError" "Connection temporarily unavailable"]);
      [discriminate|reflexivity|reflexivity].
  - destruct (retry_first_success_or_last_failure
                Demo.half 3 (1 # 10) Demo.always_failing_function Demo.fresh)
      as [_ [H _]]; [discriminate|].
    apply (H 3). reflexivity.
Defined.

(** C9.  With [max_attempts >= 1], whether the wrapper ends with a
    success after [k] failures or with its last failure, its events are:
    for every failed attempt [i] that is not the final one, one
    invocation followed by one sleep of
    [base_delay * 2^i + random.random()], and then a last invocation
    after which nothing is slept.  A sleep whose jitter lies in [0,1)
    lasts at least [base_delay * 2^i] and less than
    [base_delay * 2^i + 1]. *)
Theorem retry_sleeps_between_attempts
        {S R : Type} (random_random : nat -> Q) (max_attempts : Z)
        (base_delay : Q) (func : S -> result R * S) (w : world S) :
  1 <= max_attempts ->
  (forall (k : nat) (s' s'' : S) (es : list exn) (v : R),
      Z.of_nat k + 1 <= max_attempts ->
      after_failures func k (store w) = Some (s', es) ->
      func s' = (Ok v, s'') ->
      let w' := snd (retry_with_backoff random_random max_attempts
                                        base_delay func w) in
      trace w'
      = (trace w ++ backoff_trace random_random base_delay k 0 (draws w)
               ++ [Invoke])%list
      /\ sleeps (trace w')
         = (sleeps (trace w)
              ++ map (fun i => delay_of base_delay (Z.of_nat i)
                                        (random_random (draws w + i)%nat))
                     (seq 0 k))%list)
  /\ (forall (s' : S) (es : list exn),
         after_failures func (Z.to_nat max_attempts) (store w) = Some (s', es) ->
         let w' := snd (retry_with_backoff random_random max_attempts
                                           base_delay func w) in
         trace w'
         = (trace w ++ backoff_trace random_random base_delay
                                     (Z.to_nat max_attempts - 1) 0 (draws w)
                  ++ [Invoke])%list
         /\ sleeps (trace w')
            = (sleeps (trace w)
                 ++ map (fun i => delay_of base_delay (Z.of_nat i)
                                           (random_random (draws w + i)%nat))
                        (seq 0 (Z.to_nat max_attempts - 1)))%list)
  /\ (forall (i : Z) (jitter : Q),
         (0 <= jitter)%Q -> (jitter < 1)%Q ->
         (base_delay * inject_Z (2 ^ i) <= delay_of base_delay i jitter)%Q
         /\ (delay_of base_delay i jitter
             < base_delay * inject_Z (2 ^ i) + 1)%Q).
Proof.
  intros Hmax. unfold retry_with_backoff. split; [|split].
  - intros k s' s'' es v Hk Hf Hok. cbv zeta.
    rewrite (wrapper_success _ _ _ _ k w s' s'' es v Hk Hf Hok).
    cbn [snd trace]. split; [reflexivity|].
    rewrite !sleeps_app, sleeps_backoff, app_nil_r. reflexivity.
  - intros s' es Hf. cbv zeta.
    destruct (wrapper_exhausted random_random _ base_delay _ w s' es Hmax Hf)
      as (es0 & e & _ & Hw).
    rewrite Hw. cbn [snd trace]. split; [reflexivity|].
    rewrite !sleeps_app, sleeps_backoff, app_nil_r. reflexivity.
  - intros i jitter H0 H1. unfold delay_of. split; lra.
Qed.

Lemma retry_sleeps_between_attempts_witness :
  trace (snd (retry_with_backoff Demo.half 3 (1 # 10)
                                 Demo.flaky_function_succeeds Demo.fresh))
  = [Invoke; Sleep ((1 # 10) * inject_Z 1 + (1 # 2));
     Invoke; Sleep ((1 # 10) * inject_Z 2 + (1 # 2));
     Invoke]
  /\ trace (snd (retry_with_backoff Demo.half 3 (1 # 10)
                                    Demo.always_failing_function Demo.fresh))
     = [Invoke; Sleep ((1 # 10) * inject_Z 1 + (1 # 2));
        Invoke; Sleep ((1 # 10) * inject_Z 2 + (1 # 2));
        Invoke]
  /\ ((1 # 10) * inject_Z (2 ^ 1) <= delay_of (1 # 10) 1 (1 # 2))%Q
  /\ (delay_of (1 # 10) 1 (1 # 2) < (1 # 10) * inject_Z (2 ^ 1) + 1)%Q.
Proof.
  destruct (retry_sleeps_between_attempts
              Demo.half 3 (1 # 10) Demo.flaky_function_succeeds Demo.fresh)
    as [Hok [_ Hb]]; [discriminate|].
  destruct (retry_sleeps_between_attempts
              Demo.half 3 (1 # 10) Demo.always_failing_function Demo.fresh)
    as [_ [Hex _]]; [discriminate|].
  split; [|split].
  - apply (Hok 2%nat 2 3
             [Exn "OperationalError" "Connection temporarily unavailable";
              Exn "OperationalError" "Connection temporarily unavailable"]
             "Success after retries");
      [discriminate|reflexivity|reflexivity].
  - apply (Hex 3
             [Exn "OperationalError" "Database permanently unavailable";
              Exn "OperationalError" "Database permanently unavailable";
              Exn "OperationalError" "Database permanently unavailable"]).
    reflexivity.
  - apply (Hb 1 (1 # 2)); [unfold Qle; simpl; lia | reflexivity].
Defined.

End RetryFacts.

(** ** The checkpoint ledger *)

Module CheckpointFacts.

Import Checkpoint.

Lemma filter_none {A : Type} (p : A -> bool) (l : list A) :
  (forall y, In y l -> p y = false) -> filter p l = [].
Proof.
  induction l as [|x l IH]; simpl; intros H; [reflexivity|].
  rewrite (H x) by auto. apply IH. auto.
Qed.

Section Unit.

Variable self : CheckpointManager.
Variables stage_ key : string.

Local Abbreviation same := (same_unit self stage_ key).

Lemma same_unit_iff (x : row) :
  same x = true
  <-> unit_of x = (self_pipeline_name self, self_run_id self, stage_, key).
Proof.
  unfold same_unit, unit_of. rewrite !andb_true_iff, !String.eqb_eq.
  split.
  - intros [[[-> ->] ->] ->]. reflexivity.
  - intros H. inversion H. auto.
Qed.

Lemma existsb_same_false (t : table) :
  existsb same t = false ->
  find_unit self stage_ key t = None /\ count_unit self stage_ key t = 0%nat.
Proof.
  unfold find_unit, count_unit.
  induction t as [|x t IH]; simpl; [auto|].
  destruct (same x); simpl; [discriminate|auto].
Qed.

Lemma existsb_same_true (t : table) :
  existsb same t = true -> exists x, find_unit self stage_ key t = Some x.
Proof.
  unfold find_unit. induction t as [|x t IH]; simpl; [discriminate|].
  destruct (same x); simpl; eauto.
Qed.

Lemma find_unit_exists (t : table) (x : row) :
  find_unit self stage_ key t = Some x -> existsb same t = true.
Proof.
  unfold find_unit. intros H. apply existsb_exists. exists x.
  apply find_some in H. tauto.
Qed.

(** The unique index allows one row per unit at most. *)
Lemma unique_count (t : table) :
  unique_units t -> (count_unit self stage_ key t <= 1)%nat.
Proof.
  unfold unique_units, count_unit.
  induction t as [|x t IH]; simpl; intros H; [lia|].
  inversion H as [|u l Hnotin Hnd]; subst.
  destruct (same x) eqn:E; [|auto].
  simpl. assert (filter same t = []) as ->; [|simpl; lia].
  apply filter_none. intros y Hy. destruct (same y) eqn:Ey; [|reflexivity].
  exfalso. apply Hnotin. apply same_unit_iff in E, Ey.
  rewrite E, <- Ey. now apply in_map.
Qed.

Lemma count_exists (t : table) :
  existsb same t = true -> (1 <= count_unit self stage_ key t)%nat.
Proof.
  unfold count_unit. induction t as [|x t IH]; simpl; [discriminate|].
  destruct (same x); simpl; [lia|auto].
Qed.

Variable f : row -> row.
Hypothesis f_keeps_unit : forall x, unit_of (f x) = unit_of x.

Lemma update_keeps_unit (x : row) :
  unit_of (if same x then f x else x) = unit_of x.
Proof. destruct (same x); [apply f_keeps_unit|reflexivity]. Qed.

Lemma update_same (x : row) : same (if same x then f x else x) = same x.
Proof.
  destruct (same x) eqn:E2; [|assumption].
  apply same_unit_iff. rewrite f_keeps_unit. now apply same_unit_iff.
Qed.

Lemma update_units (t : table) :
  map unit_of (map (fun x => if same x then f x else x) t) = map unit_of t.
Proof.
  rewrite map_map. apply map_ext. intros x. apply update_keeps_unit.
Qed.

Lemma update_count (t : table) :
  count_unit self stage_ key (map (fun x => if same x then f x else x) t)
  = count_unit self stage_ key t.
Proof.
  unfold count_unit. induction t as [|x t IH]; simpl; [reflexivity|].
  rewrite update_same. destruct (same x); simpl; auto.
Qed.

Lemma update_find (t : table) (x : row) :
  find_unit self stage_ key t = Some x ->
  find_unit self stage_ key (map (fun x => if same x then f x else x) t)
  = Some (f x).
Proof.
  unfold find_unit. induction t as [|y t IH]; simpl; [discriminate|].
  rewrite update_same. destruct (same y) eqn:E.
  - intros H. inversion H; subst. reflexivity.
  - auto.
Qed.

End Unit.

Lemma append_unique (t : table) (x : row) :
  unique_units t -> ~ In (unit_of x) (map unit_of t) ->
  unique_units (t ++ [x])%list.
Proof.
  unfold unique_units. intros Hnd Hnotin. rewrite map_app. simpl.
  apply NoDup_app; [assumption|repeat constructor; auto|].
  intros u Hu [<-|[]]. contradiction.
Qed.

Lemma absent_unit (self : CheckpointManager) (stage_ key : string)
      (t : table) (x : row) :
  existsb (same_unit self stage_ key) t = false ->
  unit_of x = (self_pipeline_name self, self_run_id self, stage_, key) ->
  ~ In (unit_of x) (map unit_of t).
Proof.
  intros Hex Hx Hin. apply in_map_iff in Hin as (y & Hy & Hyin).
  assert (existsb (same_unit self stage_ key) t = true); [|congruence].
  apply existsb_exists. exists y. split; [assumption|].
  apply same_unit_iff. congruence.
Qed.

Lemma find_append_absent (self : CheckpointManager) (stage_ key : string)
      (t : table) (x : row) :
  existsb (same_unit self stage_ key) t = false ->
  same_unit self stage_ key x = true ->
  find_unit self stage_ key (t ++ [x])%list = Some x
  /\ count_unit self stage_ key (t ++ [x])%list = 1%nat.
Proof.
  intros Hex Hx. unfold find_unit, count_unit.
  induction t as [|y t IH]; simpl in *.
  - rewrite Hx. auto.
  - destruct (same_unit self stage_ key y); simpl in *; [discriminate|auto].
Qed.

(** One successful [set_checkpoint] on a table that respects the unique
    index: the table afterwards holds exactly one row for the unit, with
    the written columns, and still respects the index. *)
Lemma set_checkpoint_row (self : CheckpointManager) (stage_ key value
      status_ : string) (md mdj : option dict) (now : time) (t : table) :
  db_conn self = true ->
  unique_units t ->
  metadata_json md = Ok mdj ->
  exists t' x,
    set_checkpoint self stage_ key value status_ md now t = (Ok tt, t')
    /\ unique_units t'
    /\ count_unit self stage_ key t' = 1%nat
    /\ find_unit self stage_ key t' = Some x
    /\ checkpoint_value x = Some value
    /\ status x = Some status_
    /\ end_time x = Some now
    /\ duration_ms x = Some (duration_of md)
    /\ metadata x = mdj
    /\ updated_at x = Some now
    /\ match find_unit self stage_ key t with
       | Some x0 => start_time x = start_time x0
       | None => start_time x = Some now
       end.
Proof.
  intros Hconn Hu Hmd. unfold set_checkpoint. rewrite Hconn, Hmd.
  destruct (existsb (same_unit self stage_ key) t) eqn:Hex.
  - destruct (existsb_same_true _ _ _ _ Hex) as [x0 Hx0].
    set (f := fun x => do_update x value status_ now (duration_of md) mdj).
    assert (Hf : forall x, unit_of (f x) = unit_of x) by reflexivity.
    exists (map (fun x => if same_unit self stage_ key x then f x else x) t),
      (f x0).
    split; [reflexivity|]. split.
    { unfold unique_units. now rewrite (update_units self stage_ key f Hf). }
    split.
    { rewrite (update_count self stage_ key f Hf).
      pose proof (unique_count self stage_ key t Hu).
      pose proof (count_exists self stage_ key t Hex). lia. }
    split; [now apply (update_find self stage_ key f Hf)|].
    rewrite Hx0. cbn. repeat split; reflexivity.
  - destruct (existsb_same_false _ _ _ _ Hex) as [Hnone _].
    eexists _, _. split; [reflexivity|].
    split.
    { apply append_unique; [assumption|].
      now apply (absent_unit self stage_ key). }
    assert (Hs : same_unit self stage_ key
                   {| pipeline_name := self_pipeline_name self;
                      run_id := self_run_id self;
                      stage := stage_; checkpoint_key := key;
                      checkpoint_value := Some value;
                      status := Some status_;
                      start_time := Some now; end_time := Some now;
                      duration_ms := Some (duration_of md);
                      metadata := mdj; updated_at := Some now |} = true)
      by now apply same_unit_iff.
    destruct (find_append_absent self stage_ key t _ Hex Hs) as [Hfind Hcount].
    split; [exact Hcount|]. split; [exact Hfind|].
    rewrite Hnone. cbn. repeat split; reflexivity.
Qed.

(** Without the index assumption the row found after a successful
    [set_checkpoint] still carries the written value and status. *)
Lemma set_checkpoint_find (self : CheckpointManager) (stage_ key value
      status_ : string) (md mdj : option dict) (now : time) (t : table) :
  db_conn self = true ->
  metadata_json md = Ok mdj ->
  exists t' x,
    set_checkpoint self stage_ key value status_ md now t = (Ok tt, t')
    /\ find_unit self stage_ key t' = Some x
    /\ checkpoint_value x = Some value
    /\ status x = Some status_.
Proof.
  intros Hconn Hmd. unfold set_checkpoint. rewrite Hconn, Hmd.
  destruct (existsb (same_unit self stage_ key) t) eqn:Hex.
  - destruct (existsb_same_true _ _ _ _ Hex) as [x0 Hx0].
    set (f := fun x => do_update x value status_ now (duration_of md) mdj).
    assert (Hf : forall x, unit_of (f x) = unit_of x) by reflexivity.
    eexists _, (f x0). split; [reflexivity|].
    split; [now apply (update_find self stage_ key f Hf)|].
    split; reflexivity.
  - eexists _, _. split; [reflexivity|].
    split.
    + refine (proj1 (find_append_absent self stage_ key t _ Hex _)).
      now apply same_unit_iff.
    + split; reflexivity.
Qed.

(** C5.  On a ledger that respects the unique index, two calls of
    [set_checkpoint] with the same arguments (a connection being present
    and the metadata accepted by the JSON encoder) both return, leave
    exactly one row for the (stage, key) unit, and that row carries the
    value, status, end time, duration, metadata and update time of the
    second call and the start time it had after the first call, which is
    the first call's own instant when the unit was absent before. *)
Theorem set_checkpoint_twice_one_row
        (self : CheckpointManager) (stage_ key value status_ : string)
        (md mdj : option dict) (now1 now2 : time) (t : table) :
  db_conn self = true ->
  unique_units t ->
  metadata_json md = Ok mdj ->
  let first := set_checkpoint self stage_ key value status_ md now1 t in
  let second :=
    set_checkpoint self stage_ key value status_ md now2 (snd first) in
  let row1 := find_unit self stage_ key (snd first) in
  let row2 := find_unit self stage_ key (snd second) in
  fst first = Ok tt
  /\ fst second = Ok tt
  /\ count_unit self stage_ key (snd second) = 1%nat
  /\ option_map checkpoint_value row2 = Some (Some value)
  /\ option_map status row2 = Some (Some status_)
  /\ option_map end_time row2 = Some (Some now2)
  /\ option_map duration_ms row2 = Some (Some (duration_of md))
  /\ option_map metadata row2 = Some mdj
  /\ option_map updated_at row2 = Some (Some now2)
  /\ option_map start_time row2 = option_map start_time row1
  /\ (find_unit self stage_ key t = None ->
      option_map start_time row1 = Some (Some now1)).
Proof.
  intros Hconn Hu Hmd.
  destruct (set_checkpoint_row self stage_ key value status_ md mdj now1 t
              Hconn Hu Hmd)
    as (t1 & x1 & E1 & Hu1 & _ & F1 & _ & _ & _ & _ & _ & _ & S1).
  destruct (set_checkpoint_row self stage_ key value status_ md mdj now2 t1
              Hconn Hu1 Hmd)
    as (t2 & x2 & E2 & _ & C2 & F2 & V2 & St2 & En2 & D2 & M2 & Up2 & S2).
  cbv zeta. rewrite E1. cbn [fst snd]. rewrite E2. cbn [fst snd].
  rewrite F1, F2. rewrite F1 in S2. cbn [option_map].
  repeat split; try congruence.
  intros Hnone. rewrite Hnone in S1. congruence.
Qed.

Lemma set_checkpoint_twice_one_row_witness :
  count_unit Demo.manager "test_stage" "test_key"
    (snd (set_checkpoint Demo.manager "test_stage" "test_key" "value1"
            "completed" None 20
            (snd (set_checkpoint Demo.manager "test_stage" "test_key"
                    "value1" "completed" None 10 Demo.started_ledger))))
  = 1%nat
  /\ option_map end_time
       (find_unit Demo.manager "test_stage" "test_key"
          (snd (set_checkpoint Demo.manager "test_stage" "test_key" "value1"
                  "completed" None 20
                  (snd (set_checkpoint Demo.manager "test_stage" "test_key"
                          "value1" "completed" None 10
                          Demo.started_ledger)))))
     = Some (Some 20).
Proof.
  assert (Hu : unique_units Demo.started_ledger).
  { repeat constructor. simpl. tauto. }
  destruct (set_checkpoint_twice_one_row
              Demo.manager "test_stage" "test_key" "value1" "completed"
              None None 10 20 Demo.started_ledger eq_refl Hu eq_refl)
    as (_ & _ & Hc & _ & _ & He & _).
  split; [exact Hc | exact He].
Defined.

(** C8.  A second [start_stage] for a unit returns the ledger exactly as
    the first call left it: no row is added and no column of the existing
    row changes.  When the unit was absent, the first call appended its
    row with status in_progress and its own start time, and that row is
    still the one found after the second call; when the unit was present
    already, the first call changed nothing either. *)
Theorem start_stage_twice_noop
        (self : CheckpointManager) (stage_ key : string)
        (now1 db_now1 now2 db_now2 : time) (t : table) :
  let t1 := snd (start_stage self stage_ key now1 db_now1 t) in
  start_stage self stage_ key now2 db_now2 t1 = (Ok tt, t1)
  /\ (db_conn self = true ->
      find_unit self stage_ key t = None ->
      exists x,
        t1 = (t ++ [x])%list
        /\ find_unit self stage_ key t1 = Some x
        /\ status x = Some "in_progress"
        /\ start_time x = Some now1)
  /\ (forall x0, find_unit self stage_ key t = Some x0 -> t1 = t).
Proof.
  cbv zeta. unfold start_stage.
  destruct (db_conn self) eqn:Hconn; cbn [snd].
  2:{ split; [reflexivity|split; [discriminate|reflexivity]]. }
  destruct (existsb (same_unit self stage_ key) t) eqn:Hex; cbn [snd].
  - rewrite Hex. split; [reflexivity|]. split; [|reflexivity].
    intros _ Hnone. destruct (existsb_same_true _ _ _ _ Hex) as [x Hx].
    congruence.
  - match goal with
    | |- context [(t ++ [?r])%list] => set (x := r)
    end.
    assert (Hs : same_unit self stage_ key x = true)
      by now apply same_unit_iff.
    destruct (find_append_absent self stage_ key t x Hex Hs) as [Hfind _].
    split; [|split].
    + rewrite existsb_app. cbn [existsb]. rewrite Hs, orb_true_r. reflexivity.
    + intros _ _. exists x. repeat split. exact Hfind.
    + intros x0 Hx0. apply find_unit_exists in Hx0. congruence.
Qed.

Lemma start_stage_twice_noop_witness :
  start_stage Demo.manager "test_stage" "test_key" 9 9 Demo.started_ledger
  = (Ok tt, Demo.started_ledger)
  /\ option_map start_time
       (find_unit Demo.manager "test_stage" "test_key" Demo.started_ledger)
     = Some (Some 5).
Proof.
  destruct (start_stage_twice_noop
              Demo.manager "test_stage" "test_key" 5 5 9 9 [])
    as (Hsecond & Hfirst & _).
  split; [exact Hsecond|].
  destruct (Hfirst eq_refl eq_refl) as (x & _ & Hfind & _ & Hstart).
  unfold Demo.started_ledger. rewrite Hfind. cbn [option_map].
  now rewrite Hstart.
Defined.

End CheckpointFacts.

(** ** The circuit breaker *)

Module BreakerFacts.

Import Breaker.

Lemma Qgtb_true (a b : Q) : (b < a)%Q -> Qgtb a b = true.
Proof.
  intros H. unfold Qgtb. destruct (Qle_bool a b) eqn:E; [|reflexivity].
  apply Qle_bool_iff in E. exfalso. apply (Qlt_not_le _ _ H E).
Qed.

Lemma Qgtb_false (a b : Q) : (a <= b)%Q -> Qgtb a b = false.
Proof.
  intros H. unfold Qgtb. apply Qle_bool_iff in H. now rewrite H.
Qed.

Section Facts.

Context {S R : Type}.
Variable time_time : S -> Q.

Local Abbreviation call := (call time_time (R := R)).
Local Abbreviation calls := (calls time_time (R := R)).
Local Abbreviation failures := (failures time_time (R := R)).

Lemma failures_nonneg (fs : list (S -> result R * S)) (w : world S) :
  0 <= failures fs w.
Proof.
  revert w. induction fs as [|f fs IH]; intros w; simpl; [lia|].
  specialize (IH (snd (call f w))).
  destruct (fst (call f w)); lia.
Qed.

(** One call on a closed breaker. *)
Lemma closed_call (func : S -> result R * S) (w : world S) :
  state (breaker w) = CLOSED ->
  call func w
  = match func (env w) with
    | (Ok v, s') => (Ok v, World (breaker w) s' (Datatypes.S (invoked w)))
    | (Raise e, s') =>
        (Raise e,
         World (on_failure (breaker w) (time_time s')) s'
               (Datatypes.S (invoked w)))
    end.
Proof.
  intros Hc. unfold Breaker.call, gate. rewrite Hc.
  destruct (func (env w)) as [[v|e] s']; [|reflexivity].
  unfold on_success. rewrite Hc. reflexivity.
Qed.

(** While the failures counted so far stay below the threshold, the
    breaker stays closed and its counter is the sum of all failures,
    whatever successes lie between them. *)
Lemma closed_accumulates (fs : list (S -> result R * S)) :
  forall w : world S,
    state (breaker w) = CLOSED ->
    failure_count (breaker w) + failures fs w
    < failure_threshold (breaker w) ->
    state (breaker (calls fs w)) = CLOSED
    /\ failure_threshold (breaker (calls fs w))
       = failure_threshold (breaker w)
    /\ failure_count (breaker (calls fs w))
       = failure_count (breaker w) + failures fs w.
Proof.
  induction fs as [|f fs IH]; intros w Hc Hlt.
  - simpl. repeat split; [assumption|lia].
  - cbn [Breaker.calls Breaker.failures] in *.
    pose proof (failures_nonneg fs (snd (call f w))) as Hnn.
    rewrite (closed_call f w Hc) in *.
    destruct (f (env w)) as [[v|e] s']; cbn [fst snd] in *.
    + set (w1 := World (breaker w) s' (Datatypes.S (invoked w))) in *.
      specialize (IH w1). cbn [breaker w1] in IH.
      remember (failures fs w1) as n eqn:Hn. clear Hn.
      destruct IH as (H1 & H2 & H3); [assumption|lia|].
      split; [assumption|split; [assumption|]]. rewrite H3. lia.
    + set (w1 := World (on_failure (breaker w) (time_time s')) s'
                       (Datatypes.S (invoked w))) in *.
      specialize (IH w1).
      remember (failures fs w1) as n eqn:Hn. clear Hn.
      assert (Hno : (failure_threshold (breaker w)
                     <=? failure_count (breaker w) + 1) = false)
        by (apply Z.leb_gt; lia).
      unfold w1, on_failure in *. clear w1.
      cbn [breaker state failure_count failure_threshold] in *.
      rewrite Hno in *.
      destruct IH as (H1 & H2 & H3); [assumption|lia|].
      split; [exact H1|split; [exact H2|]].
      rewrite H3. lia.
Qed.

End Facts.

(** C2, as the code has it.  On a closed breaker a successful call
    leaves the failure counter as it is (only a successful trial in the
    half-open state sets it to 0); a failing call adds one to it and
    opens the breaker when the threshold is reached.  So over any
    sequence of calls the counter of a breaker that is still closed is
    the number of failures since the start, successes in between
    notwithstanding, and the breaker stays closed as long as that number
    is below the threshold. *)
Theorem closed_breaker_counts_every_failure
        {S R : Type} (time_time : S -> Q) (w : world S) :
  state (breaker w) = CLOSED ->
  (forall (func : S -> result R * S) (v : R) (s' : S),
      func (env w) = (Ok v, s') ->
      call time_time func w
      = (Ok v, World (breaker w) s' (Datatypes.S (invoked w))))
  /\ (forall (func : S -> result R * S) (e : exn) (s' : S),
         func (env w) = (Raise e, s') ->
         fst (call time_time func w) = Raise e
         /\ failure_count (breaker (snd (call time_time func w)))
            = failure_count (breaker w) + 1
         /\ state (breaker (snd (call time_time func w)))
            = if failure_threshold (breaker w)
                 <=? failure_count (breaker w) + 1
              then OPEN else CLOSED)
  /\ (forall fs : list (S -> result R * S),
         failure_count (breaker w) + failures time_time fs w
         < failure_threshold (breaker w) ->
         state (breaker (calls time_time fs w)) = CLOSED
         /\ failure_count (breaker (calls time_time fs w))
            = failure_count (breaker w) + failures time_time fs w).
Proof.
  intros Hc. split; [|split].
  - intros func v s' Hf. rewrite (closed_call time_time func w Hc), Hf.
    reflexivity.
  - intros func e s' Hf. rewrite (closed_call time_time func w Hc), Hf.
    cbn [fst snd breaker]. unfold on_failure.
    cbn [failure_count state]. rewrite Hc. auto.
  - intros fs Hlt.
    destruct (closed_accumulates time_time fs w Hc Hlt) as (H1 & _ & H3).
    auto.
Qed.

Lemma closed_breaker_counts_every_failure_witness :
  call Demo.clock_time Demo.healthy_service Demo.after_failure
  = (Ok "ok",
     World (breaker Demo.after_failure) (env Demo.after_failure + 1)%Q 2)
  /\ state (breaker (calls Demo.clock_time
                           [Demo.healthy_service; Demo.healthy_service]
                           Demo.after_failure)) = CLOSED.
Proof.
  destruct (closed_breaker_counts_every_failure
              (R := string) Demo.clock_time Demo.after_failure eq_refl)
    as (Hok & _ & Hseq).
  split.
  - apply Hok. reflexivity.
  - apply (Hseq [Demo.healthy_service; Demo.healthy_service]). reflexivity.
Defined.

(** C2 as stated fails: with threshold 2, a failure, a success and a
    second failure.  The successful call on the closed breaker leaves
    the counter at 1, and the second failure, which does not follow the
    first one directly, opens the breaker. *)
Lemma closed_success_keeps_counter :
  state (breaker Demo.after_failure) = CLOSED
  /\ failure_count (breaker Demo.after_failure) = 1
  /\ fst (call Demo.clock_time Demo.healthy_service Demo.after_failure)
     = Ok "ok"
  /\ state (breaker Demo.after_success) = CLOSED
  /\ failure_count (breaker Demo.after_success) = 1
  /\ failure_count (breaker Demo.after_success) <> 0
  /\ state (breaker Demo.after_second_failure) = OPEN.
Proof.
  repeat split; try reflexivity. discriminate.
Qed.

(** C7.  On an open breaker whose last failure was at instant [t]: a
    call made when no more than [timeout] has passed raises the
    circuit-open error and leaves the breaker, the outside world and the
    invocation count untouched; a call made later passes the gate in
    state HALF_OPEN and enters the operation exactly once, and when the
    operation returns the breaker is CLOSED with failure counter 0. *)
Theorem open_breaker_cooldown
        {S R : Type} (time_time : S -> Q) (func : S -> result R * S)
        (w : world S) (t : Q) :
  state (breaker w) = OPEN ->
  last_failure_time (breaker w) = Some t ->
  ((time_time (env w) - t <= timeout (breaker w))%Q ->
   call time_time func w = (Raise blocked_error, w))
  /\ ((timeout (breaker w) < time_time (env w) - t)%Q ->
      (exists b, gate (breaker w) (time_time (env w)) = Ok b
                 /\ state b = HALF_OPEN)
      /\ invoked (snd (call time_time func w)) = Datatypes.S (invoked w)
      /\ (forall (v : R) (s' : S),
             func (env w) = (Ok v, s') ->
             exists b',
               call time_time func w
               = (Ok v, World b' s' (Datatypes.S (invoked w)))
               /\ state b' = CLOSED
               /\ failure_count b' = 0)).
Proof.
  intros Ho Ht. split.
  - intros Hle. unfold call, gate. rewrite Ho, Ht.
    now rewrite (Qgtb_false _ _ Hle).
  - intros Hlt. unfold call, gate. rewrite Ho, Ht.
    rewrite (Qgtb_true _ _ Hlt). split; [eauto|].
    destruct (func (env w)) as [[v|e] s1]; cbn [snd invoked].
    + split; [reflexivity|]. intros v0 s' H. inversion H; subst.
      eexists. split; [reflexivity|]. split; reflexivity.
    + split; [reflexivity|]. intros v0 s' H. discriminate.
Qed.

Lemma open_breaker_cooldown_witness :
  call Demo.clock_time Demo.healthy_service (Demo.breaker_open_at 103)
  = (Raise blocked_error, Demo.breaker_open_at 103)
  /\ (exists b',
        call Demo.clock_time Demo.healthy_service (Demo.breaker_open_at 106)
        = (Ok "ok", World b' (106 + 1)%Q 3)
        /\ state b' = CLOSED
        /\ failure_count b' = 0).
Proof.
  split.
  - destruct (open_breaker_cooldown
                Demo.clock_time Demo.healthy_service
                (Demo.breaker_open_at 103) 100 eq_refl eq_refl) as [H _].
    apply H. unfold Qle. simpl. lia.
  - destruct (open_breaker_cooldown
                Demo.clock_time Demo.healthy_service
                (Demo.breaker_open_at 106) 100 eq_refl eq_refl) as [_ H].
    destruct H as (_ & _ & H); [reflexivity|].
    apply (H "ok" (106 + 1)%Q). reflexivity.
Defined.

End BreakerFacts.

(** ** The reliable pipeline *)

Module ReliableFacts.

Import Checkpoint Reliable.
Import CheckpointFacts.

Section Stage.

Variable B : Type.
Variable self_run_id : string.
Variable rollback : B -> B.

Local Abbreviation manager := (self_checkpoint self_run_id).

Local Abbreviation recorded := (recorded B self_run_id).

Lemma start_stage_connected (stage_ key : string) (w : world B) :
  connected w = true ->
  exists t',
    checkpoint_start_stage B self_run_id stage_ key w
    = (Ok tt, PipelineWorld (biz w) (db_up w) true t'
                            (pipeline_logs w) (clock w + 1)).
Proof.
  intros Hc. unfold checkpoint_start_stage, need_connection, bind, with_table.
  rewrite Hc. unfold start_stage. cbn [db_conn self_checkpoint].
  destruct (existsb _ (checkpoints w)); rewrite Hc; eauto.
Qed.

Lemma set_checkpoint_connected (stage_ key value status_ : string)
      (md mdj : option dict) (w : world B) :
  connected w = true ->
  metadata_json md = Ok mdj ->
  exists t' x,
    checkpoint_set_checkpoint B self_run_id stage_ key value status_ md w
    = (Ok tt, PipelineWorld (biz w) (db_up w) true t'
                            (pipeline_logs w) (clock w + 1))
    /\ find_unit manager stage_ key t' = Some x
    /\ checkpoint_value x = Some value
    /\ status x = Some status_.
Proof.
  intros Hc Hmd.
  destruct (set_checkpoint_find manager stage_ key value status_
              md mdj (clock w) (checkpoints w) eq_refl Hmd)
    as (t' & x & E & F & V & St).
  exists t', x.
  unfold checkpoint_set_checkpoint, need_connection, bind, with_table.
  rewrite Hc, E, Hc. auto.
Qed.

(** One undecorated run of a stage on a connected pipeline: whether
    the statement returns or raises, the "end" checkpoint is written
    with status completed; the outcome is told by its value only. *)
Lemma stage_body_records (stage_ : string) (sql : B -> result Z * B)
      (done_message : Z -> string) (failed_message : exn -> string)
      (w : world B) :
  connected w = true ->
  match stage_body B self_run_id rollback stage_ sql
                   done_message failed_message w with
  | (Ok _, w') => connected w' = true
                  /\ recorded stage_ "completed" "completed" w'
  | (Raise _, w') => connected w' = true
                     /\ recorded stage_ "failed" "completed" w'
  end.
Proof.
  intros Hc. unfold stage_body.
  destruct (start_stage_connected stage_ "start" w Hc) as (t1 & E1).
  unfold bind at 1. rewrite E1.
  unfold bind at 1, need_connection at 1. cbn [connected].
  unfold try_except, bind at 1, run_sql, bind at 1, need_connection at 1.
  cbn [connected biz db_up checkpoints pipeline_logs clock].
  destruct (sql (biz w)) as [[n|e] b'].
  - match goal with
    | |- context [bind (checkpoint_set_checkpoint _ _ _ _ _ _ ?m) _ ?w0] =>
        destruct (set_checkpoint_connected stage_ "end" "completed"
                    default_status m m w0 eq_refl eq_refl)
          as (t2 & x & E2 & F & V & St)
    end.
    unfold bind at 1. rewrite E2.
    unfold logger_info, logger_log, bind, need_connection, exec, ret.
    cbn [connected]. split; [reflexivity|].
    unfold recorded, end_value, end_status. cbn [checkpoints].
    rewrite F. auto.
  - unfold bind at 1, conn_rollback, exec.
    match goal with
    | |- context [bind (checkpoint_set_checkpoint _ _ _ _ _ _ None) _ ?w0] =>
        destruct (set_checkpoint_connected stage_ "end" "failed"
                    default_status None None w0 eq_refl eq_refl)
          as (t2 & x & E2 & F & V & St)
    end.
    unfold bind at 1. rewrite E2.
    unfold logger_error, logger_log, bind, need_connection, exec, raise.
    cbn [connected]. split; [reflexivity|].
    unfold recorded, end_value, end_status. cbn [checkpoints].
    rewrite F. auto.
Qed.

End Stage.

(** The same for the decorated stage methods, whatever the SQL
    statement does on each attempt: after the wrapper has returned the
    checkpoint reads (completed, completed), after it has raised the
    last failure it reads (failed, completed). *)
Lemma update_country_sales_records
      (B : Type) (self_run_id : string) (rollback : B -> B)
      (random_random : nat -> Q) (country_sql : B -> result Z * B)
      (w : Retry.world (world B)) :
  connected (Retry.store w) = true ->
  match update_country_sales B self_run_id rollback random_random
                             country_sql w with
  | (Ok _, w') =>
      recorded B self_run_id "country_sales" "completed" "completed"
               (Retry.store w')
  | (Raise _, w') =>
      recorded B self_run_id "country_sales" "failed" "completed"
               (Retry.store w')
  end.
Proof.
  intros Hc. unfold update_country_sales, Retry.retry_with_backoff, Retry.wrapper.
  apply (RetryFacts.attempts_rule
           _ _ _ _
           (fun s => connected s = true)
           (fun _ s => recorded B self_run_id "country_sales"
                                "completed" "completed" s)
           (fun s => recorded B self_run_id "country_sales"
                              "failed" "completed" s)).
  - intros s Hs.
    pose proof (stage_body_records B self_run_id rollback "country_sales"
                  country_sql
                  (fun n => "Updated " ++ str_int n ++ " countries in sales table")
                  (fun e => "Failed to update country sales: " ++ exn_msg e)
                  s Hs) as H.
    destruct (stage_body _ _ _ _ _ _ _ s) as [[n|e] s']; tauto.
  - assumption.
  - change (Z.to_nat 3) with 3%nat. lia.
Qed.

(** C1 on the code.  In the run where the first stage succeeds and the
    second stage raises on each of its three attempts, the run ends with
    the second stage's exception and both "end" checkpoints exist, but
    the status column of the failed stage reads completed as well: the
    word failed went into the checkpoint_value column. *)
Theorem failed_stage_status_reads_completed :
  fst Demo.failed_run
  = Raise (Exn "OperationalError" "server closed the connection")
  /\ Retry.invocations (Retry.trace (snd Demo.failed_run)) = 4%nat
  /\ end_status unit "run-1" "product_performance"
                (Retry.store (snd Demo.failed_run)) = Some "completed"
  /\ end_value unit "run-1" "product_performance"
               (Retry.store (snd Demo.failed_run)) = Some "completed"
  /\ end_status unit "run-1" "country_sales"
                (Retry.store (snd Demo.failed_run)) = Some "completed"
  /\ end_value unit "run-1" "country_sales"
               (Retry.store (snd Demo.failed_run)) = Some "failed".
Proof.
  repeat split; vm_compute; reflexivity.
Qed.

End ReliableFacts.

(** ** The tiered logger and the log recovery *)

Module LoggingFacts.

Import Logging.

Lemma serializable_entry (self : RobustLogger)
      (now_iso level_ message_ : string) (metadata_ : dict) :
  serializable (make_entry self now_iso level_ message_ metadata_)
  = serializable (VDict metadata_).
Proof.
  unfold make_entry. simpl. now rewrite andb_true_r.
Qed.

Section Sinks.

Variable json_dumps : pyval -> string.
Variable self : RobustLogger.
Variables now_iso level_ message_ : string.
Variable metadata_ : dict.

Local Abbreviation entry :=
  (make_entry self now_iso level_ message_ metadata_).

(** The row the primary sink receives for the entry. *)
Local Abbreviation sent_row :=
  (LogRow (VStr now_iso) (VStr level_) (VStr message_)
          (VStr (self_pipeline_name self)) (VStr (self_run_id self))
          (json_dumps (default_str (VDict metadata_)))).

Lemma database_sink_up (w : world) :
  db_fault (conn w) = None ->
  _log_to_database json_dumps entry message_ w
  = (Ok true,
     World (Connection None []
                       (committed (conn w) ++ pending (conn w) ++ [sent_row]))
           (fallback_log w) (critical_log w)
           (stdout w ++ ["Database log: " ++ message_]) (stderr w)).
Proof.
  intros Hdb.
  unfold _log_to_database, try_except, bind, insert_entry, entry_row,
    bind, pure, execute_insert, commit, print, exec, ret.
  cbn. rewrite Hdb. cbn. reflexivity.
Qed.

Lemma database_sink_down (w : world) (e : exn) :
  db_fault (conn w) = Some e ->
  _log_to_database json_dumps entry message_ w
  = (Ok false,
     World (conn w) (fallback_log w) (critical_log w)
           (stdout w ++ ["Database logging failed: " ++ exn_msg e])
           (stderr w)).
Proof.
  intros Hdb.
  unfold _log_to_database, try_except, bind, insert_entry, entry_row,
    bind, pure, execute_insert, commit, print, exec, ret.
  cbn. rewrite Hdb. reflexivity.
Qed.

Lemma file_sink_up (w : world) :
  serializable (VDict metadata_) = true ->
  file_fault (fallback_log w) = None ->
  _log_to_file json_dumps entry message_ w
  = (Ok true,
     World (conn w)
           (File true None
                 (lines (fallback_log w) ++ [json_dumps entry ++ newline]))
           (critical_log w)
           (stdout w ++ ["File log fallback: " ++ message_]) (stderr w)).
Proof.
  intros Hs Hf.
  unfold _log_to_file, try_except, bind, pure, dumps, append_fallback,
    append_line, print, exec, ret.
  rewrite serializable_entry, Hs, Hf. reflexivity.
Qed.

Lemma file_sink_down (w : world) :
  serializable (VDict metadata_) = false
  \/ file_fault (fallback_log w) <> None ->
  exists e,
    _log_to_file json_dumps entry message_ w
    = (Ok false,
       World (conn w) (fallback_log w) (critical_log w)
             (stdout w ++ ["File logging failed: " ++ exn_msg e])
             (stderr w)).
Proof.
  intros H.
  unfold _log_to_file, try_except, bind, pure, dumps, append_fallback,
    append_line, print, exec, ret.
  rewrite serializable_entry.
  destruct (serializable (VDict metadata_)).
  - destruct (file_fault (fallback_log w)) as [e|] eqn:Hf.
    + exists e. reflexivity.
    + destruct H; [discriminate|contradiction].
  - eexists. reflexivity.
Qed.

Lemma critical_sink (w : world) :
  _log_to_critical_file now_iso level_ message_ w
  = match file_fault (critical_log w) with
    | None =>
        (Ok tt,
         World (conn w) (fallback_log w)
               (File true None
                     (lines (critical_log w)
                        ++ [critical_line now_iso level_ message_]))
               (stdout w ++ ["Critical log fallback: " ++ message_])
               (stderr w))
    | Some e =>
        (Ok tt,
         World (conn w) (fallback_log w) (critical_log w)
               (stdout w ++ ["All logging failed: " ++ exn_msg e])
               (stderr w ++ ["CRITICAL: " ++ message_]))
    end.
Proof.
  unfold _log_to_critical_file, try_except, bind, append_critical,
    append_line, print, print_stderr, exec.
  destruct (file_fault (critical_log w)); reflexivity.
Qed.

End Sinks.

Lemma find_none_of_existsb {A : Type} (f : A -> bool) (l : list A) :
  existsb f l = false -> find f l = None.
Proof.
  induction l as [|x l IH]; [reflexivity|].
  cbn. destruct (f x); [discriminate|exact IH].
Qed.

(** A call whose metadata are keywords none of which is named like a
    parameter enters the body with them. *)
Lemma log_keywords (json_dumps : pyval -> string) (self : RobustLogger)
      (now_iso level_ message_ : string) (keywords : dict) :
  existsb names_parameter keywords = false ->
  log json_dumps self now_iso level_ message_ [] keywords
  = log_body json_dumps self now_iso level_ message_ keywords.
Proof.
  intros H. unfold log, bind_metadata.
  rewrite (find_none_of_existsb _ _ H). reflexivity.
Qed.

(** C4.  [log], called as the contract writes it and as every call in
    the file does, with the metadata as a third positional argument,
    raises: the header takes the metadata as keywords only, so the call
    is refused with a TypeError before the body is entered.  For every
    level, message, metadata value, further arguments and state of the
    sinks the call raises to the caller, no sink is tried and nothing is
    printed.  The first call of the file, with a working database and
    writable files, is one of them. *)
Theorem log_refuses_positional_metadata
        (json_dumps : pyval -> string) (self : RobustLogger)
        (now_iso level_ message_ : string) (metadata_ : pyval)
        (more : list pyval) (keywords : dict) (w : world) :
  (exists e,
      log json_dumps self now_iso level_ message_ (metadata_ :: more)
          keywords w
      = (Raise e, w)
      /\ exn_type e = "TypeError")
  /\ log Demo.plain_dumps init "2024-01-01T09:59:58Z" "INFO"
         "Testing robust logger" [VDict [("fallback_test", VBool true)]] []
         Demo.sinks_up
     = (Raise (too_many_positional 4), Demo.sinks_up).
Proof.
  split; [|reflexivity].
  unfold log, bind_metadata, bind, pure.
  destruct (find names_parameter keywords) as [kv|];
    eexists; split; reflexivity.
Qed.

Section Recovery.

Variable json_dumps : pyval -> string.
Variable json_loads : string -> result pyval.

Local Abbreviation recover_lines := (recover_lines json_dumps json_loads).
Local Abbreviation recoverable := (recoverable json_dumps json_loads).
Local Abbreviation line_row := (line_row json_dumps json_loads).

(** The world after rows were inserted on a working connection. *)
Local Abbreviation inserted w rows :=
  (World (Connection None (pending (conn w) ++ rows) (committed (conn w)))
         (fallback_log w) (critical_log w) (stdout w) (stderr w)).

Lemma inserted_nil (w : world) :
  db_fault (conn w) = None -> inserted w [] = w.
Proof.
  destruct w as [[f p c] fl cl so se]. cbn. intros ->.
  now rewrite app_nil_r.
Qed.

(** One non-blank line on a working connection. *)
Lemma recover_line_step (line : string) (rest : list string) (n : Z)
      (w : world) :
  db_fault (conn w) = None ->
  strip_truthy line = true ->
  recover_lines (line :: rest) n w
  = match line_row line with
    | Ok r => recover_lines rest (n + 1) (inserted w [r])
    | Raise e => (Raise e, w)
    end.
Proof.
  intros Hdb Hs. cbn [Logging.recover_lines]. rewrite Hs.
  unfold Logging.line_row, bind at 1, pure at 1.
  destruct (json_loads line) as [v|e]; [|reflexivity].
  unfold bind at 1, insert_entry, bind at 1, pure at 1.
  destruct (entry_row json_dumps v) as [r|e]; [|reflexivity].
  unfold execute_insert. rewrite Hdb. reflexivity.
Qed.

(** Lines that all decode are inserted in order and counted. *)
Lemma recover_lines_clean (ls : list string) :
  forall (n : Z) (w : world) (rows : list log_row),
    db_fault (conn w) = None ->
    recoverable ls = Some rows ->
    recover_lines ls n w
    = (Ok (n + Z.of_nat (List.length rows)), inserted w rows).
Proof.
  induction ls as [|line rest IH]; intros n w rows Hdb Hr.
  - cbn in Hr. inversion Hr; subst. cbn [Logging.recover_lines].
    unfold ret. rewrite inserted_nil by assumption.
    cbn [List.length]. now rewrite Z.add_0_r.
  - cbn [Logging.recoverable] in Hr.
    destruct (strip_truthy line) eqn:Hs.
    + rewrite recover_line_step by assumption.
      destruct (line_row line) as [r|e]; [|discriminate].
      destruct (recoverable rest) as [rs|] eqn:Hrs; [|discriminate].
      inversion Hr; subst.
      rewrite (IH (n + 1) _ rs) by (cbn; auto).
      cbn [conn pending committed fallback_log critical_log stdout stderr
                List.length].
      rewrite <- app_assoc. cbn [app]. f_equal. f_equal. lia.
    + cbn [Logging.recover_lines]. rewrite Hs. now apply IH.
Qed.

(** Lines that decode, followed by one that does not: the loop ends
    there with the exception, whatever follows. *)
Lemma recover_lines_stop (good : list string) (bad : string)
      (rest : list string) (e : exn) :
  forall (n : Z) (w : world) (rows : list log_row),
    db_fault (conn w) = None ->
    recoverable good = Some rows ->
    strip_truthy bad = true ->
    line_row bad = Raise e ->
    recover_lines (good ++ bad :: rest) n w = (Raise e, inserted w rows).
Proof.
  induction good as [|line good IH]; intros n w rows Hdb Hr Hs Hbad.
  - cbn in Hr. inversion Hr; subst. cbn [app].
    rewrite recover_line_step, Hbad by assumption.
    now rewrite inserted_nil.
  - cbn [Logging.recoverable] in Hr.
    change ((line :: good) ++ bad :: rest)%list
      with (line :: (good ++ bad :: rest))%list.
    destruct (strip_truthy line) eqn:Hl.
    + rewrite recover_line_step by assumption.
      destruct (line_row line) as [r|e0]; [|discriminate].
      destruct (recoverable good) as [rs|] eqn:Hrs; [|discriminate].
      inversion Hr; subst.
      rewrite (IH (n + 1) _ rs) by (cbn; auto).
      cbn [conn pending committed fallback_log critical_log stdout stderr].
      rewrite <- app_assoc. reflexivity.
    + cbn [Logging.recover_lines]. rewrite Hl. now apply IH.
Qed.

End Recovery.

(** C3, as the code has it.  On an existing, readable fallback file and
    a working connection, [recover_file_logs] returns without raising
    and: when every non-blank line decodes to an entry with the six
    fields, all of them are inserted in file order, the transaction is
    committed and their number is printed; when a non-blank line fails,
    the loop stops at the first such line, the lines before it have been
    inserted but nothing is committed, the lines after it are not looked
    at, and one failure message is printed. *)
Theorem recovery_commits_all_or_stops
        (json_dumps : pyval -> string) (json_loads : string -> result pyval)
        (f : file) (w : world) :
  present f = true ->
  file_fault f = None ->
  db_fault (conn w) = None ->
  (forall rows,
      recoverable json_dumps json_loads (lines f) = Some rows ->
      recover_file_logs json_dumps json_loads f w
      = (Ok tt,
         World (Connection None []
                           (committed (conn w) ++ pending (conn w) ++ rows))
               (fallback_log w) (critical_log w)
               (stdout w
                  ++ [("Recovered " ++ str_int (Z.of_nat (List.length rows))
                         ++ " log entries to database")%string])
               (stderr w)))
  /\ (forall good bad rest rows e,
         lines f = (good ++ bad :: rest)%list ->
         recoverable json_dumps json_loads good = Some rows ->
         strip_truthy bad = true ->
         line_row json_dumps json_loads bad = Raise e ->
         recover_file_logs json_dumps json_loads f w
         = (Ok tt,
            World (Connection None (pending (conn w) ++ rows)
                              (committed (conn w)))
                  (fallback_log w) (critical_log w)
                  (stdout w ++ [("Log recovery failed: " ++ exn_msg e)%string])
                  (stderr w))).
Proof.
  intros Hp Hf Hdb. unfold recover_file_logs. rewrite Hp. cbn [negb].
  unfold open_read. rewrite Hf. split.
  - intros rows Hr. unfold try_except, bind at 1, ret at 1, bind at 1.
    rewrite (recover_lines_clean json_dumps json_loads _ 0 w rows Hdb Hr).
    unfold bind, commit, print, exec. cbn. reflexivity.
  - intros good bad rest rows e Hl Hr Hs Hbad.
    unfold try_except, bind at 1, ret at 1, bind at 1.
    rewrite Hl,
      (recover_lines_stop json_dumps json_loads good bad rest e 0 w rows
         Hdb Hr Hs Hbad).
    unfold print, exec. reflexivity.
Qed.

Lemma recovery_commits_all_or_stops_witness :
  recover_file_logs Demo.plain_dumps Demo.sample_loads Demo.clean_file
                    Demo.database_up
  = (Ok tt,
     World (Connection None [] [Demo.row_a; Demo.row_b])
           Demo.mixed_file Demo.empty_file
           ["Recovered 2 log entries to database"] []).
Proof.
  destruct (recovery_commits_all_or_stops
              Demo.plain_dumps Demo.sample_loads Demo.clean_file
              Demo.database_up eq_refl eq_refl eq_refl) as [H _].
  apply (H [Demo.row_a; Demo.row_b]). reflexivity.
Defined.

(** C3 as stated fails: in a file whose second line is torn and whose
    third line decodes, the record of the third line is never sent to
    the database, the record of the first line is left uncommitted, and
    the only report is the decoder's message; no malformed record is
    counted. *)
Lemma recovery_stops_at_malformed_line :
  recover_file_logs Demo.plain_dumps Demo.sample_loads Demo.mixed_file
                    Demo.database_up
  = (Ok tt,
     World (Connection None [Demo.row_a] [])
           Demo.mixed_file Demo.empty_file
           ["Log recovery failed: Expecting property name enclosed in double quotes"]
           [])
  /\ line_row Demo.plain_dumps Demo.sample_loads Demo.line_b = Ok Demo.row_b
  /\ ~ In Demo.row_b [Demo.row_a].
Proof.
  split; [vm_compute; reflexivity|].
  split; [vm_compute; reflexivity|].
  intros [H|[]]. discriminate H.
Qed.

End LoggingFacts.

(** ** The month sweep *)

Module IdempotentFacts.

Import Idempotent.

Example after_crash_statuses :
  fst (Demo.sweep_main default_args Demo.sweep_start) = Raise system_exit
  /\ status_of unit "2010-12" (Retry.store Demo.after_crash) = Some "completed"
  /\ status_of unit "2011-01" (Retry.store Demo.after_crash) = Some "in_progress".
Proof. repeat split; vm_compute; reflexivity. Qed.

(** *** ORDER BY keeps the keys *)

Lemma insert_sorted_in (k x : string) (l : list string) :
  In x (insert_sorted k l) <-> x = k \/ In x l.
Proof.
  induction l as [|y l IH]; simpl.
  - intuition congruence.
  - destruct (String.leb k y); simpl; rewrite ?IH; intuition congruence.
Qed.

Lemma order_by_in (x : string) (l : list string) :
  In x (order_by l) <-> In x l.
Proof.
  unfold order_by. induction l as [|y l IH]; simpl; [tauto|].
  rewrite insert_sorted_in, IH. intuition congruence.
Qed.

Lemma key_in_iff (k : string) (keys : list string) :
  key_in k keys = true <-> In k keys.
Proof.
  unfold key_in. rewrite existsb_exists. split.
  - intros (x & Hin & Heq). apply String.eqb_eq in Heq. now subst.
  - intros Hin. exists k. split; [assumption|apply String.eqb_refl].
Qed.

(** *** The upsert *)

Lemma find_key_present (k : string) (t : list month_row) (r : month_row) :
  find (has_key k) t = Some r -> In k (map month_key t).
Proof.
  intros H. apply find_some in H as [Hin Hk].
  apply String.eqb_eq in Hk. subst. now apply in_map.
Qed.

Lemma has_key_update (k : string) (r : month_row) (now : time)
      (status_ : string) :
  has_key k (MonthRow (month_key r) (year r) (month r) now (updated_at r)
                      status_ (metadata r))
  = has_key k r.
Proof. reflexivity. Qed.

Lemma find_upsert_other (k : string) (y m : Z) (status_ : string)
      (now : time) (t : list month_row) :
  key_of y m <> k ->
  find (has_key k) (upsert_month y m status_ now t) = find (has_key k) t.
Proof.
  intros Hne. unfold upsert_month.
  assert (Hother : forall r, has_key (key_of y m) r = true ->
                             has_key k r = false).
  { intros r Hr. apply String.eqb_eq in Hr. unfold has_key.
    apply String.eqb_neq. congruence. }
  destruct (existsb (has_key (key_of y m)) t).
  - induction t as [|r t IH]; [reflexivity|]. cbn [map find].
    destruct (has_key (key_of y m) r) eqn:E.
    + rewrite has_key_update, (Hother r E). exact IH.
    + destruct (has_key k r); [reflexivity|exact IH].
  - induction t as [|r t IH]; cbn.
    + unfold has_key. cbn.
      assert (String.eqb (key_of y m) k = false) as -> by now apply String.eqb_neq.
      reflexivity.
    + destruct (has_key k r); [reflexivity|exact IH].
Qed.

Lemma find_upsert_same (y m : Z) (status_ : string) (now : time)
      (t : list month_row) :
  exists r,
    find (has_key (key_of y m)) (upsert_month y m status_ now t) = Some r
    /\ status r = status_.
Proof.
  unfold upsert_month.
  destruct (existsb (has_key (key_of y m)) t) eqn:Hex.
  - induction t as [|r t IH]; [discriminate|]. cbn [map find existsb] in *.
    destruct (has_key (key_of y m) r) eqn:E.
    + rewrite has_key_update, E. eexists. split; reflexivity.
    + rewrite E. apply IH. exact Hex.
  - induction t as [|r t IH]; cbn [app find existsb] in *.
    + unfold has_key. cbn [month_key]. rewrite String.eqb_refl.
      eexists. split; reflexivity.
    + destruct (has_key (key_of y m) r); [discriminate|]. apply IH. exact Hex.
Qed.

Section Facts.

Variable B : Type.
Variable random_random : nat -> Q.
Variable gold_sql : Z -> Z -> B -> result Z * B.
Variable rollback : B -> B.
Variable distinct_months : B -> list (Z * Z).

Local Abbreviation db := (db B).
Local Abbreviation world := (world B).
Local Abbreviation untouched := (untouched B).
Local Abbreviation calm := (calm B).
Local Abbreviation status_of := (status_of B).
Local Abbreviation sweep := (sweep B random_random gold_sql rollback).
Local Abbreviation main :=
  (main B random_random gold_sql rollback distinct_months).
Local Abbreviation process_month_gold :=
  (process_month_gold B random_random gold_sql rollback).

Lemma calm_refl (d : db) : calm d d.
Proof.
  split; [reflexivity|]. exists []. split; [now rewrite app_nil_r|].
  intros k s [].
Qed.

Lemma calm_trans (d1 d2 d3 : db) : calm d1 d2 -> calm d2 d3 -> calm d1 d3.
Proof.
  intros [T1 (n1 & L1 & Q1)] [T2 (n2 & L2 & Q2)]. split; [congruence|].
  exists (n1 ++ n2)%list. split.
  - now rewrite L2, L1, app_assoc.
  - intros k s Hin. apply in_app_or in Hin as [H|H]; [eapply Q1|eapply Q2]; eauto.
Qed.

Lemma calm_untouched (k : string) (d d' : db) : calm d d' -> untouched k d d'.
Proof.
  intros [T (n & L & Q)]. split; [now rewrite T|]. exists n. auto.
Qed.

Lemma untouched_refl (k : string) (d : db) : untouched k d d.
Proof. apply calm_untouched, calm_refl. Qed.

Lemma untouched_trans (k : string) (d1 d2 d3 : db) :
  untouched k d1 d2 -> untouched k d2 d3 -> untouched k d1 d3.
Proof.
  intros [T1 (n1 & L1 & Q1)] [T2 (n2 & L2 & Q2)]. split; [congruence|].
  exists (n1 ++ n2)%list. split.
  - now rewrite L2, L1, app_assoc.
  - intros s Hin. apply in_app_or in Hin as [H|H]; [eapply Q1|eapply Q2]; eauto.
Qed.

Lemma calm_logger (l : log_line) (d : db) :
  (forall k s, l <> MarkedMonth k s) -> calm d (snd (logger B l d)).
Proof.
  intros Hl. split; [reflexivity|]. exists [l]. split; [reflexivity|].
  intros k s [H|[]]. now apply (Hl k s).
Qed.

Lemma calm_print (text : string) (d : db) : calm d (snd (print B text d)).
Proof.
  split; [reflexivity|]. exists []. cbn. split; [now rewrite app_nil_r|].
  intros k s [].
Qed.

Lemma set_month_processed_eq (y m : Z) (status_ : string) (d : db) :
  set_month_processed B y m status_ d
  = (Ok tt,
     Db (biz d) (db_up d)
        (upsert_month y m status_ (clock d) (processed_months d))
        (log d ++ [MarkedMonth (key_of y m) status_])
        (printed d) (clock d + 1)).
Proof. reflexivity. Qed.

Lemma untouched_set_month (k : string) (y m : Z) (status_ : string)
      (d : db) :
  key_of y m <> k ->
  untouched k d (snd (set_month_processed B y m status_ d)).
Proof.
  intros Hne. rewrite set_month_processed_eq. split.
  - cbn. now apply find_upsert_other.
  - eexists. split; [reflexivity|]. intros s [H|[]]. congruence.
Qed.

Lemma calm_body (y m : Z) (d : db) :
  calm d (snd (process_month_gold_body B gold_sql rollback y m d)).
Proof.
  unfold process_month_gold_body, try_except, bind, run_gold_sql,
    conn_rollback, logger, exec, ret, raise.
  destruct (gold_sql y m (biz d)) as [[n|e] b']; cbn.
  - split; [reflexivity|]. eexists. split; [reflexivity|].
    intros k s [H|[]]. discriminate.
  - split; [reflexivity|]. eexists. split; [reflexivity|].
    intros k s [H|[]]. discriminate.
Qed.

(** The wrapper of this file adds warnings to the log and nothing
    else. *)
Lemma calm_attempts (R : Type) (max_attempts : Z) (base_delay : Q)
      (func : M db R) :
  (forall d, calm d (snd (func d))) ->
  forall (remaining : nat) (attempt : Z) (previous : option exn) (w : world),
    calm (Retry.store w)
         (Retry.store
            (snd (attempts B random_random R max_attempts base_delay func
                           remaining attempt previous w))).
Proof.
  intros Hfunc. induction remaining as [|n IH]; intros attempt previous w.
  - cbn [attempts]. destruct previous; apply calm_refl.
  - cbn [attempts]. specialize (Hfunc (Retry.store w)).
    destruct (func (Retry.store w)) as [[v|e] d']; cbn [snd] in *.
    + exact Hfunc.
    + eapply calm_trans; [|apply IH].
      destruct (attempt <? max_attempts - 1); cbn [Retry.store].
      * eapply calm_trans; [exact Hfunc|]. apply calm_logger.
        intros k s. discriminate.
      * exact Hfunc.
Qed.

Lemma calm_process (y m : Z) (w : world) :
  calm (Retry.store w) (Retry.store (snd (process_month_gold y m w))).
Proof.
  unfold Idempotent.process_month_gold, retry_with_backoff.
  apply calm_attempts. intros d. apply calm_body.
Qed.

Lemma on_db_set_month (y m : Z) (status_ : string) (w : world) :
  on_db B (set_month_processed B y m status_) w
  = (Ok tt,
     Retry.World (snd (set_month_processed B y m status_ (Retry.store w)))
                 (Retry.draws w) (Retry.trace w)).
Proof. reflexivity. Qed.

Lemma sweep_step (y m : Z) (rest : list (Z * Z)) (total : Z) (w : world) :
  sweep ((y, m) :: rest) total w
  = let w1 :=
      Retry.World
        (snd (set_month_processed B y m "in_progress" (Retry.store w)))
        (Retry.draws w) (Retry.trace w) in
    match process_month_gold y m w1 with
    | (Ok result_, w2) =>
        sweep rest (total + rows_of result_)
              (Retry.World
                 (snd (set_month_processed B y m "completed"
                                           (Retry.store w2)))
                 (Retry.draws w2) (Retry.trace w2))
    | (Raise e, w2) => (Raise e, w2)
    end.
Proof.
  cbn [Idempotent.sweep]. unfold bind at 1. rewrite on_db_set_month.
  cbv zeta. unfold bind at 1.
  destruct (process_month_gold y m _) as [[res|e] w2]; [|reflexivity].
  unfold bind at 1. rewrite on_db_set_month. reflexivity.
Qed.

(** A sweep over months none of which has key [k] leaves [k] alone. *)
Lemma untouched_sweep (k : string) (ms : list (Z * Z)) :
  (forall y m, In (y, m) ms -> key_of y m <> k) ->
  forall (total : Z) (w : world),
    untouched k (Retry.store w) (Retry.store (snd (sweep ms total w))).
Proof.
  induction ms as [|[y m] rest IH]; intros Hms total w.
  - apply untouched_refl.
  - rewrite sweep_step. cbv zeta.
    assert (Hne : key_of y m <> k) by (apply Hms; now left).
    pose proof (untouched_set_month k y m "in_progress" (Retry.store w) Hne)
      as H1.
    match goal with
    | |- context [process_month_gold y m ?w1] =>
        pose proof (calm_untouched k _ _ (calm_process y m w1)) as H2;
        destruct (process_month_gold y m w1) as [[res|e] w2]
    end; cbn [snd Retry.store] in *.
    + eapply untouched_trans; [|apply IH; intros; apply Hms; now right].
      cbn [Retry.store].
      eapply untouched_trans; [exact H1|].
      eapply untouched_trans; [exact H2|].
      now apply untouched_set_month.
    + eapply untouched_trans; eassumption.
Qed.


Ltac log_only :=
  cbn [Retry.store Retry.draws Retry.trace biz db_up processed_months
       log printed clock fst snd];
  split;
  [ reflexivity
  | eexists; split;
    [ cbn [log]; rewrite <- ?app_assoc; reflexivity
    | let H := fresh in
      intros ? H; cbn in H; intuition discriminate ] ].

Lemma calm_print_dry_run (ms : list (Z * Z)) (d : db) :
  calm d (snd (print_dry_run B ms d)).
Proof.
  unfold print_dry_run, bind. cbn [print exec].
  assert (H : forall d0,
             calm d0 (snd (fold_right
                             (fun ym k0 =>
                                bind (print B ("  " ++ key_of (fst ym) (snd ym)))
                                     (fun _ => k0))
                             (ret tt) ms d0))).
  { induction ms as [|ym rest IH]; intros d0; [apply calm_refl|].
    cbn [fold_right]. unfold bind at 1. cbn [print exec].
    eapply calm_trans; [|apply IH]. apply calm_print. }
  eapply calm_trans; [|apply H]. apply calm_print.
Qed.

(** Months whose key is recorded are not in the work list. *)
Lemma unprocessed_avoids (k : string) (t : list month_row)
      (all_months : list (Z * Z)) (r : month_row) :
  find (has_key k) t = Some r ->
  forall y m,
    In (y, m) (unprocessed (order_by (map month_key t)) all_months) ->
    key_of y m <> k.
Proof.
  intros Hfind y m Hin Heq. unfold unprocessed in Hin.
  apply filter_In in Hin as [_ Hneg]. cbn [fst snd] in Hneg.
  rewrite Heq in Hneg.
  assert (key_in k (order_by (map month_key t)) = true) as Hk.
  { apply key_in_iff, order_by_in. eapply find_key_present; eassumption. }
  rewrite Hk in Hneg. discriminate.
Qed.

Lemma untouched_main (k : string) (a : args) (w : world) (st : string) :
  arg_reset a = false ->
  status_of k (Retry.store w) = Some st ->
  untouched k (Retry.store w) (Retry.store (snd (main a w))).
Proof.
  intros Hr Hst.
  destruct w as [[b up t l p c] dr tr]. cbn [Retry.store] in *.
  unfold Idempotent.status_of in Hst. cbn [processed_months] in Hst.
  destruct (find (has_key k) t) as [r|] eqn:Hfind; [|discriminate].
  pose proof (unprocessed_avoids k t
                (filter_args a (distinct_months b)) r Hfind) as Hms.
  unfold Idempotent.main, try_except, bind, on_db, connect,
    get_processed_months, get_distinct_months, logger, exec, ret, raise.
  rewrite Hr.
  cbn -[Idempotent.sweep Idempotent.unprocessed order_by
        Idempotent.filter_args Idempotent.print_dry_run].
  cbn [Retry.store Retry.draws Retry.trace biz db_up processed_months
       log printed clock fst snd].
  destruct up; [|log_only].
  destruct (unprocessed _ _) as [|ym ms] eqn:Hu.
  - cbn [Retry.store Retry.draws Retry.trace biz db_up processed_months
         log printed clock fst snd].
    log_only.
  - cbn [Retry.store Retry.draws Retry.trace biz db_up processed_months
         log printed clock fst snd].
    destruct (arg_dry_run a).
    + match goal with
      | |- context [print_dry_run B ?l0 ?d0] =>
          pose proof (calm_untouched k _ _ (calm_print_dry_run l0 d0)) as Hd;
          destruct (print_dry_run B l0 d0) as [[[]|e] d']
      end; cbn [Retry.store Retry.draws Retry.trace biz db_up
                processed_months log printed clock fst snd] in *.
      * eapply untouched_trans; [|exact Hd]. log_only.
      * eapply untouched_trans; [|eapply untouched_trans; [exact Hd|]];
          [log_only|destruct d'; log_only].
    + match goal with
      | |- context [Idempotent.sweep B random_random gold_sql rollback ?l0 0 ?w0] =>
          pose proof (untouched_sweep k l0 Hms 0 w0) as Hs;
          destruct (Idempotent.sweep B random_random gold_sql rollback l0 0 w0)
            as [[total|e] [d' dr' tr']]
      end; cbn [Retry.store Retry.draws Retry.trace biz db_up
                processed_months log printed clock fst snd] in *;
        (eapply untouched_trans; [|eapply untouched_trans; [exact Hs|]];
         [log_only|destruct d'; log_only]).
Qed.

Lemma untouched_status (k : string) (d d' : db) :
  untouched k d d' -> status_of k d' = status_of k d.
Proof.
  intros [Hfind _]. unfold Idempotent.status_of. now rewrite Hfind.
Qed.


End Facts.



End IdempotentFacts.

(** ** More on the retry wrapper *)

Module RetryBounds.

Import Retry.
Import Backoff.

Lemma total_sleep_app (t1 t2 : list event) :
  (total_sleep (t1 ++ t2) == total_sleep t1 + total_sleep t2)%Q.
Proof.
  unfold total_sleep. rewrite RetryFacts.sleeps_app.
  induction (sleeps t1) as [|d l IH]; cbn [app fold_right].
  - lra.
  - rewrite IH. lra.
Qed.

Section Bounds.

Context {S R : Type}.
Variable random_random : nat -> Q.
Variable max_attempts : Z.
Variable base_delay : Q.
Variable func : S -> result R * S.

Local Abbreviation attempts := (attempts random_random max_attempts base_delay func).
Local Abbreviation wrapper := (wrapper random_random max_attempts base_delay func).

(** Whatever the function does, the events of a loop with at least one
    iteration left are invocations with one sleep between each two. *)
Lemma attempts_spaced (remaining : nat) :
  forall (attempt : Z) (previous : option exn) (w : world S),
    attempt + Z.of_nat remaining = max_attempts ->
    (1 <= remaining)%nat ->
    exists n,
      (1 <= n <= remaining)%nat
      /\ trace (snd (attempts remaining attempt previous w))
         = (trace w
              ++ spaced_trace random_random base_delay n attempt (draws w))%list
      /\ draws (snd (attempts remaining attempt previous w))
         = (draws w + (n - 1))%nat.
Proof.
  induction remaining as [|k IH]; intros attempt previous w Hsum Hpos; [lia|].
  cbn [Retry.attempts].
  destruct (func (store w)) as [[v|e] s'].
  - exists 1%nat. cbn. repeat split; lia.
  - destruct k as [|k].
    + assert ((attempt <? max_attempts - 1) = false) as ->
          by (apply Z.ltb_ge; lia).
      cbn [Retry.attempts]. exists 1%nat. cbn. repeat split; lia.
    + assert ((attempt <? max_attempts - 1) = true) as ->
          by (apply Z.ltb_lt; lia).
      cbn [store draws trace].
      match goal with
      | |- context [attempts _ _ _ ?w2] =>
          destruct (IH (attempt + 1) (Some e) w2) as (n & Hn & Ht & Hd);
          [lia|lia|]
      end.
      cbn [store draws trace] in *.
      exists (Datatypes.S n). rewrite Ht, Hd.
      destruct n as [|n]; [lia|].
      cbn [spaced_trace Retry.backoff_trace].
      rewrite <- !app_assoc. cbn [app]. repeat split; lia.
Qed.

Lemma spaced_counts (n : nat) (attempt : Z) (d : nat) :
  invocations (spaced_trace random_random base_delay n attempt d) = n
  /\ List.length (sleeps (spaced_trace random_random base_delay n attempt d))
     = (n - 1)%nat.
Proof.
  destruct n as [|k]; [now cbn|].
  cbn [spaced_trace]. split.
  - rewrite RetryFacts.invocations_app, RetryFacts.invocations_backoff.
    cbn. lia.
  - rewrite RetryFacts.sleeps_app, RetryFacts.sleeps_backoff.
    rewrite length_app, length_map, length_seq. cbn. lia.
Qed.

End Bounds.

(** X1.  With [max_attempts <= 0] the loop body never runs: the wrapper
    raises the TypeError of [raise None] without invoking the function
    and without sleeping. *)
Theorem wrapper_without_attempts
        {S R : Type} (random_random : nat -> Q) (max_attempts : Z)
        (base_delay : Q) (func : S -> result R * S) (w : world S) :
  max_attempts <= 0 ->
  retry_with_backoff random_random max_attempts base_delay func w
  = (Raise raise_none_error, w).
Proof.
  intros Hle. unfold retry_with_backoff, wrapper.
  replace (Z.to_nat max_attempts) with 0%nat by lia. reflexivity.
Qed.

Lemma wrapper_without_attempts_witness :
  retry_with_backoff Demo.half 0 (1 # 10) Demo.flaky_function_succeeds
                     Demo.fresh
  = (Raise raise_none_error, Demo.fresh).
Proof.
  apply wrapper_without_attempts. discriminate.
Defined.

(** X2.  For every function and every parameter the wrapper invokes the
    function [n <= max_attempts] times and its events are, in this order,
    an invocation, a sleep, an invocation, ..., an invocation: exactly
    one sleep between each two consecutive invocations, none before the
    first and none after the last.  The sleep after attempt [i] lasts
    [base_delay * 2^i] plus the next value of the random generator, of
    which one is taken per sleep. *)
Theorem wrapper_invocations_bounded
        {S R : Type} (random_random : nat -> Q) (max_attempts : Z)
        (base_delay : Q) (func : S -> result R * S) (w : world S) :
  exists n,
    let t := spaced_trace random_random base_delay n 0 (draws w) in
    (n <= Z.to_nat max_attempts)%nat
    /\ trace (snd (retry_with_backoff random_random max_attempts base_delay
                                      func w))
       = (trace w ++ t)%list
    /\ invocations t = n
    /\ List.length (sleeps t) = (n - 1)%nat
    /\ draws (snd (retry_with_backoff random_random max_attempts base_delay
                                      func w))
       = (draws w + (n - 1))%nat.
Proof.
  unfold retry_with_backoff, wrapper.
  destruct (Z.to_nat max_attempts) as [|m] eqn:Hm.
  - exists 0%nat. cbn. rewrite app_nil_r. repeat split; lia.
  - destruct (attempts_spaced random_random max_attempts base_delay func
                (Datatypes.S m) 0 None w) as (n & Hn & Ht & Hd); [lia|lia|].
    exists n. cbv zeta. split; [lia|]. split; [exact Ht|].
    destruct (spaced_counts random_random base_delay n 0 (draws w)) as [Hi Hs].
    repeat split; assumption.
Qed.


(** The sleeps of [k] backed-off attempts starting at attempt [a] add up
    to the geometric sum [base_delay * (2^(a+k) - 2^a)] plus the jitters. *)
Lemma total_sleep_backoff (random_random : nat -> Q) (base_delay : Q)
      (k : nat) :
  (forall n, (0 <= random_random n)%Q /\ (random_random n < 1)%Q) ->
  forall (a : Z) (d : nat),
    0 <= a ->
    (base_delay * (inject_Z (2 ^ (a + Z.of_nat k)) - inject_Z (2 ^ a))
     <= total_sleep (backoff_trace random_random base_delay k a d))%Q
    /\ (total_sleep (backoff_trace random_random base_delay k a d)
        <= base_delay * (inject_Z (2 ^ (a + Z.of_nat k)) - inject_Z (2 ^ a))
           + inject_Z (Z.of_nat k))%Q.
Proof.
  intros Hj. induction k as [|k IH]; intros a d Ha.
  - change (total_sleep (backoff_trace random_random base_delay 0 a d))
      with 0%Q.
    change (Z.of_nat 0) with 0. rewrite Z.add_0_r.
    set (P := inject_Z (2 ^ a)). change (inject_Z 0) with 0%Q.
    split; lra.
  - change (total_sleep (backoff_trace random_random base_delay
                                       (Datatypes.S k) a d))
      with (delay_of base_delay a (random_random d)
            + total_sleep (backoff_trace random_random base_delay k (a + 1)
                                         (Datatypes.S d)))%Q.
    destruct (IH (a + 1) (Datatypes.S d)) as [Hlo Hhi]; [lia|].
    destruct (Hj d) as [Hj0 Hj1].
    replace (a + Z.of_nat (Datatypes.S k)) with (a + 1 + Z.of_nat k) by lia.
    assert (Hp : (inject_Z (2 ^ (a + 1)) == 2 * inject_Z (2 ^ a))%Q).
    { replace (a + 1) with (Z.succ a) by lia.
      rewrite Z.pow_succ_r by assumption. now rewrite inject_Z_mult. }
    assert (Hk : (inject_Z (Z.of_nat (Datatypes.S k))
                  == inject_Z (Z.of_nat k) + 1)%Q).
    { rewrite Nat2Z.inj_succ. unfold Z.succ. now rewrite inject_Z_plus. }
    rewrite Hk. unfold delay_of.
    set (P := inject_Z (2 ^ a)) in *.
    set (P1 := inject_Z (2 ^ (a + 1))) in *.
    set (PK := inject_Z (2 ^ (a + 1 + Z.of_nat k))) in *.
    set (T := total_sleep _) in *.
    assert (Hb : (base_delay * P1 == 2 * (base_delay * P))%Q)
      by (rewrite Hp; ring).
    split; lra.
Qed.

(** X3.  When each of the [max_attempts >= 1] invocations fails and the
    jitter lies in [0,1), the wrapper has slept at least
    [base_delay * (2^(max_attempts-1) - 1)] in total before it raises, and
    at most that plus one time unit per sleep. *)
Theorem wrapper_total_backoff
        {S R : Type} (random_random : nat -> Q) (max_attempts : Z)
        (base_delay : Q) (func : S -> result R * S) (w : world S)
        (s' : S) (es : list exn) :
  1 <= max_attempts ->
  (forall n, (0 <= random_random n)%Q /\ (random_random n < 1)%Q) ->
  after_failures func (Z.to_nat max_attempts) (store w) = Some (s', es) ->
  let slept :=
    (total_sleep (trace (snd (retry_with_backoff random_random max_attempts
                                                 base_delay func w)))
     - total_sleep (trace w))%Q in
  (base_delay * (inject_Z (2 ^ (max_attempts - 1)) - 1) <= slept)%Q
  /\ (slept <= base_delay * (inject_Z (2 ^ (max_attempts - 1)) - 1)
               + inject_Z (max_attempts - 1))%Q.
Proof.
  intros Hmax Hj Hf. cbv zeta. unfold retry_with_backoff.
  destruct (RetryFacts.wrapper_exhausted random_random max_attempts base_delay
              func w s' es Hmax Hf) as (es0 & e & _ & Hw).
  rewrite Hw. cbn [snd trace].
  rewrite !total_sleep_app.
  destruct (total_sleep_backoff random_random base_delay
              (Z.to_nat max_attempts - 1) Hj 0 (draws w)) as [Hlo Hhi]; [lia|].
  replace (0 + Z.of_nat (Z.to_nat max_attempts - 1)) with (max_attempts - 1)
    in Hlo, Hhi by lia.
  replace (Z.of_nat (Z.to_nat max_attempts - 1)) with (max_attempts - 1)
    in Hhi by lia.
  change (inject_Z (2 ^ 0)) with 1%Q in Hlo, Hhi.
  change (total_sleep [Invoke]) with 0%Q.
  set (T := total_sleep (backoff_trace _ _ _ _ _)) in *.
  set (T0 := total_sleep (trace w)) in *.
  split; lra.
Qed.

Lemma wrapper_total_backoff_witness :
  ((1 # 10) * (inject_Z (2 ^ (3 - 1)) - 1)
   <= total_sleep (trace (snd (retry_with_backoff
                                 Demo.half 3 (1 # 10)
                                 Demo.always_failing_function Demo.fresh)))
      - total_sleep (trace Demo.fresh))%Q.
Proof.
  refine (proj1 (wrapper_total_backoff
                   Demo.half 3 (1 # 10) Demo.always_failing_function
                   Demo.fresh 3
                   [Exn "OperationalError" "Database permanently unavailable";
                    Exn "OperationalError" "Database permanently unavailable";
                    Exn "OperationalError" "Database permanently unavailable"]
                   _ _ eq_refl)).
  - discriminate.
  - intros n. split; [discriminate|reflexivity].
Defined.


(** A function that raises the same exception from every state reachable
    under [inv] exhausts the loop: the wrapper raises that exception after
    one invocation per iteration. *)
Lemma attempts_all_fail {S R : Type} (random_random : nat -> Q)
      (max_attempts : Z) (base_delay : Q) (func : S -> result R * S)
      (inv : S -> Prop) (e : exn) :
  (forall s, inv s -> exists s', func s = (Raise e, s') /\ inv s') ->
  forall (remaining : nat) (attempt : Z) (previous : option exn) (w : world S),
    inv (store w) ->
    match previous with
    | Some e0 => e0 = e
    | None => (1 <= remaining)%nat
    end ->
    fst (attempts random_random max_attempts base_delay func
                  remaining attempt previous w) = Raise e
    /\ inv (store (snd (attempts random_random max_attempts base_delay func
                                 remaining attempt previous w)))
    /\ invocations
         (trace (snd (attempts random_random max_attempts base_delay func
                               remaining attempt previous w)))
       = (invocations (trace w) + remaining)%nat.
Proof.
  intros Hfunc. induction remaining as [|n IH]; intros attempt previous w Hinv Hp.
  - cbn [Retry.attempts]. destruct previous as [e0|]; [|lia].
    subst e0. cbn. repeat split; [assumption|lia].
  - cbn [Retry.attempts].
    destruct (Hfunc _ Hinv) as (s' & -> & Hinv').
    match goal with
    | |- context [Retry.attempts _ _ _ _ n (attempt + 1) (Some e) ?w2] =>
        destruct (IH (attempt + 1) (Some e) w2) as (H1 & H2 & H3);
        [destruct (attempt <? max_attempts - 1); exact Hinv'|reflexivity|]
    end.
    split; [exact H1|]. split; [exact H2|]. rewrite H3.
    destruct (attempt <? max_attempts - 1); cbn [trace];
      rewrite ?RetryFacts.invocations_app; cbn; lia.
Qed.

End RetryBounds.

(** ** More on the checkpoint ledger *)

Module CheckpointMore.

Import Checkpoint.
Import CheckpointFacts.
Import Units.

Lemma same_unit_other (self other : CheckpointManager)
      (stage_ key stage' key' : string) (x : row) :
  unit_id self stage_ key <> unit_id other stage' key' ->
  same_unit self stage_ key x = true ->
  same_unit other stage' key' x = false.
Proof.
  intros Hne Hs. destruct (same_unit other stage' key' x) eqn:E; [|reflexivity].
  apply same_unit_iff in Hs, E. unfold unit_id in Hne. congruence.
Qed.

Lemma find_update_other (self other : CheckpointManager)
      (stage_ key stage' key' : string) (f : row -> row) (t : table) :
  (forall x, unit_of (f x) = unit_of x) ->
  unit_id self stage_ key <> unit_id other stage' key' ->
  find_unit other stage' key'
    (map (fun x => if same_unit self stage_ key x then f x else x) t)
  = find_unit other stage' key' t.
Proof.
  intros Hf Hne. unfold find_unit. induction t as [|x t IH]; [reflexivity|].
  cbn [map find]. destruct (same_unit self stage_ key x) eqn:E.
  - assert (Hfx : same_unit self stage_ key (f x) = true).
    { apply same_unit_iff. rewrite Hf. now apply same_unit_iff. }
    rewrite (same_unit_other self other _ _ _ _ _ Hne Hfx),
      (same_unit_other self other _ _ _ _ _ Hne E).
    exact IH.
  - destruct (same_unit other stage' key' x); [reflexivity|exact IH].
Qed.

Lemma find_append_other (other : CheckpointManager) (stage' key' : string)
      (t : table) (x : row) :
  same_unit other stage' key' x = false ->
  find_unit other stage' key' (t ++ [x])%list = find_unit other stage' key' t.
Proof.
  intros Hx. unfold find_unit. induction t as [|y t IH]; cbn [app find].
  - now rewrite Hx.
  - destruct (same_unit other stage' key' y); [reflexivity|exact IH].
Qed.

(** X4.  Insert, then look up: after a [set_checkpoint] that returns (a
    connection is present and the metadata is accepted by the encoder),
    [get_checkpoint] for the same unit returns the value just written,
    whatever the ledger held before; so the last of several writes wins. *)
Theorem get_after_set
        (self : CheckpointManager) (stage_ key value status_ : string)
        (md mdj : option dict) (now : time) (t : table) :
  db_conn self = true ->
  metadata_json md = Ok mdj ->
  get_checkpoint self stage_ key
    (snd (set_checkpoint self stage_ key value status_ md now t))
  = Some value.
Proof.
  intros Hc Hmd.
  destruct (set_checkpoint_find self stage_ key value status_ md mdj now t
              Hc Hmd) as (t' & x & E & F & V & _).
  rewrite E. unfold get_checkpoint. cbn [snd]. now rewrite Hc, F.
Qed.

Lemma get_after_set_witness :
  get_checkpoint Demo.manager "test_stage" "test_key"
    (snd (set_checkpoint Demo.manager "test_stage" "test_key" "updated_value"
            "completed" None 20
            (snd (set_checkpoint Demo.manager "test_stage" "test_key"
                    "initial_value" "completed" None 10 []))))
  = Some "updated_value".
Proof.
  exact (get_after_set Demo.manager "test_stage" "test_key" "updated_value"
           "completed" None None 20 _ eq_refl eq_refl).
Defined.

Lemma find_after_set_other
      (self other : CheckpointManager)
      (stage_ key stage' key' value status_ : string)
      (md : option dict) (now : time) (t : table) :
  unit_id self stage_ key <> unit_id other stage' key' ->
  find_unit other stage' key'
    (snd (set_checkpoint self stage_ key value status_ md now t))
  = find_unit other stage' key' t.
Proof.
  intros Hne. unfold set_checkpoint. destruct (db_conn self); [|reflexivity].
  destruct (metadata_json md) as [mdj|e]; [|reflexivity].
  destruct (existsb (same_unit self stage_ key) t); cbn [snd].
  - apply find_update_other; [reflexivity|assumption].
  - apply find_append_other.
    apply (same_unit_other self other stage_ key stage' key'); [assumption|].
    now apply same_unit_iff.
Qed.

Lemma find_after_start_other
      (self other : CheckpointManager) (stage_ key stage' key' : string)
      (now db_now : time) (t : table) :
  unit_id self stage_ key <> unit_id other stage' key' ->
  find_unit other stage' key' (snd (start_stage self stage_ key now db_now t))
  = find_unit other stage' key' t.
Proof.
  intros Hne. unfold start_stage. destruct (db_conn self); [|reflexivity].
  destruct (existsb (same_unit self stage_ key) t); cbn [snd]; [reflexivity|].
  apply find_append_other.
  apply (same_unit_other self other stage_ key stage' key'); [assumption|].
  now apply same_unit_iff.
Qed.

(** X5.  Neither [set_checkpoint] nor [start_stage] touches another unit:
    for any manager, stage and key that differ from the written unit in
    pipeline name, run id, stage or key, the row found and the value
    [get_checkpoint] returns are the same before and after. *)
Theorem other_units_untouched
        (self other : CheckpointManager)
        (stage_ key stage' key' value status_ : string)
        (md : option dict) (now db_now : time) (t : table) :
  unit_id self stage_ key <> unit_id other stage' key' ->
  let after_set :=
    snd (set_checkpoint self stage_ key value status_ md now t) in
  let after_start := snd (start_stage self stage_ key now db_now t) in
  find_unit other stage' key' after_set = find_unit other stage' key' t
  /\ get_checkpoint other stage' key' after_set
     = get_checkpoint other stage' key' t
  /\ find_unit other stage' key' after_start = find_unit other stage' key' t
  /\ get_checkpoint other stage' key' after_start
     = get_checkpoint other stage' key' t.
Proof.
  intros Hne. cbv zeta. unfold get_checkpoint.
  rewrite (find_after_set_other self other stage_ key stage' key' value
             status_ md now t Hne),
    (find_after_start_other self other stage_ key stage' key' now db_now t Hne).
  auto.
Qed.

Lemma other_units_untouched_witness :
  get_checkpoint Demo.manager "test_stage" "test_key"
    (snd (set_checkpoint Demo.manager "test_stage" "other_key" "v" "completed"
            None 30
            (snd (set_checkpoint Demo.manager "test_stage" "test_key"
                    "initial_value" "completed" None 10 []))))
  = get_checkpoint Demo.manager "test_stage" "test_key"
      (snd (set_checkpoint Demo.manager "test_stage" "test_key"
              "initial_value" "completed" None 10 [])).
Proof.
  refine (proj1 (proj2 (other_units_untouched
                          Demo.manager Demo.manager "test_stage" "other_key"
                          "test_stage" "test_key" "v" "completed" None 30 30
                          _ _))).
  discriminate.
Defined.

(** X6.  The unique index is an invariant of the ledger: whatever
    [set_checkpoint] and [start_stage] are given, and whether they write,
    raise or do nothing, a ledger with at most one row per unit stays so. *)
Theorem ledger_stays_unique
        (self : CheckpointManager) (stage_ key value status_ : string)
        (md : option dict) (now db_now : time) (t : table) :
  unique_units t ->
  unique_units (snd (set_checkpoint self stage_ key value status_ md now t))
  /\ unique_units (snd (start_stage self stage_ key now db_now t)).
Proof.
  intros Hu. split.
  - unfold set_checkpoint. destruct (db_conn self); [|exact Hu].
    destruct (metadata_json md) as [mdj|e]; [|exact Hu].
    destruct (existsb (same_unit self stage_ key) t) eqn:Hex; cbn [snd].
    + unfold unique_units.
      rewrite (update_units self stage_ key
                 (fun x => do_update x value status_ now (duration_of md) mdj));
        [exact Hu|reflexivity].
    + apply append_unique; [exact Hu|].
      now apply (absent_unit self stage_ key).
  - unfold start_stage. destruct (db_conn self); [|exact Hu].
    destruct (existsb (same_unit self stage_ key) t) eqn:Hex; cbn [snd];
      [exact Hu|].
    apply append_unique; [exact Hu|].
    now apply (absent_unit self stage_ key).
Qed.

Lemma ledger_stays_unique_witness :
  unique_units
    (snd (set_checkpoint Demo.manager "test_stage" "test_key" "value1"
            "completed" None 10 Demo.started_ledger)).
Proof.
  refine (proj1 (ledger_stays_unique
                   Demo.manager "test_stage" "test_key" "value1" "completed"
                   None 10 10 Demo.started_ledger _)).
  repeat constructor. simpl. tauto.
Defined.


(** The row [start_stage] appends for an absent unit. *)
Lemma start_stage_shape (self : CheckpointManager) (stage_ key : string)
      (now db_now : time) (t : table) :
  db_conn self = true ->
  find_unit self stage_ key t = None ->
  exists x,
    find_unit self stage_ key (snd (start_stage self stage_ key now db_now t))
    = Some x
    /\ status x = Some "in_progress"
    /\ checkpoint_value x = None
    /\ end_time x = None.
Proof.
  intros Hc Hnone.
  assert (Hex : existsb (same_unit self stage_ key) t = false).
  { destruct (existsb (same_unit self stage_ key) t) eqn:E; [|reflexivity].
    destruct (existsb_same_true _ _ _ _ E) as [x Hx]. congruence. }
  unfold start_stage. rewrite Hc, Hex. cbn [snd].
  eexists. split.
  - refine (proj1 (find_append_absent self stage_ key t _ Hex _)).
    now apply same_unit_iff.
  - repeat split; reflexivity.
Qed.

Lemma start_stage_present (self : CheckpointManager) (stage_ key : string)
      (now db_now : time) (t : table) (x : row) :
  find_unit self stage_ key t = Some x ->
  snd (start_stage self stage_ key now db_now t) = t.
Proof.
  intros Hx. apply find_unit_exists in Hx. unfold start_stage.
  destruct (db_conn self); [|reflexivity]. now rewrite Hx.
Qed.

(** X7.  [start_stage] followed by [set_checkpoint] on the same unit of a
    ledger that respects the unique index and did not hold the unit: one
    row, which keeps the start time written by [start_stage] and carries
    the value, the status and the end time of [set_checkpoint]. *)
Theorem start_then_set
        (self : CheckpointManager) (stage_ key value status_ : string)
        (md mdj : option dict) (t0 db_now t1 : time) (t : table) :
  db_conn self = true ->
  unique_units t ->
  find_unit self stage_ key t = None ->
  metadata_json md = Ok mdj ->
  let started := snd (start_stage self stage_ key t0 db_now t) in
  let finished :=
    snd (set_checkpoint self stage_ key value status_ md t1 started) in
  count_unit self stage_ key finished = 1%nat
  /\ option_map start_time (find_unit self stage_ key finished)
     = Some (Some t0)
  /\ option_map end_time (find_unit self stage_ key finished)
     = Some (Some t1)
  /\ option_map status (find_unit self stage_ key finished)
     = Some (Some status_)
  /\ option_map checkpoint_value (find_unit self stage_ key finished)
     = Some (Some value).
Proof.
  intros Hc Hu Hnone Hmd. cbv zeta.
  assert (Hex : existsb (same_unit self stage_ key) t = false).
  { destruct (existsb (same_unit self stage_ key) t) eqn:E; [|reflexivity].
    destruct (existsb_same_true _ _ _ _ E) as [x Hx]. congruence. }
  unfold start_stage. rewrite Hc, Hex. cbn [snd].
  match goal with
  | |- context [(t ++ [?r])%list] => set (x0 := r)
  end.
  assert (Hs : same_unit self stage_ key x0 = true) by now apply same_unit_iff.
  destruct (find_append_absent self stage_ key t x0 Hex Hs) as [Hfind _].
  assert (Hu1 : unique_units (t ++ [x0])%list).
  { apply append_unique; [exact Hu|]. now apply (absent_unit self stage_ key). }
  destruct (set_checkpoint_row self stage_ key value status_ md mdj t1
              (t ++ [x0])%list Hc Hu1 Hmd)
    as (t' & x & E & _ & C & F & V & St & En & _ & _ & _ & S0).
  rewrite E. cbn [snd]. rewrite F. rewrite Hfind in S0. cbn [option_map].
  repeat split; try congruence. rewrite S0. reflexivity.
Qed.

Lemma start_then_set_witness :
  option_map start_time
    (find_unit Demo.manager "test_stage" "test_key"
       (snd (set_checkpoint Demo.manager "test_stage" "test_key" "value1"
               "completed" None 10
               (snd (start_stage Demo.manager "test_stage" "test_key" 5 5 [])))))
  = Some (Some 5).
Proof.
  refine (proj1 (proj2 (start_then_set
                          Demo.manager "test_stage" "test_key" "value1"
                          "completed" None None 5 5 10 []
                          eq_refl _ eq_refl eq_refl))).
  constructor.
Defined.

(** X8.  Metadata the JSON encoder rejects makes [set_checkpoint] raise a
    TypeError before any statement is executed: the ledger is left exactly
    as it was. *)
Theorem set_checkpoint_rejected_metadata
        (self : CheckpointManager) (stage_ key value status_ : string)
        (d : dict) (now : time) (t : table) :
  db_conn self = true ->
  d <> [] ->
  serializable (VDict d) = false ->
  set_checkpoint self stage_ key value status_ (Some d) now t
  = (Raise json_type_error, t).
Proof.
  intros Hc Hd Hs. unfold set_checkpoint, metadata_json. rewrite Hc.
  destruct d as [|kv d']; [contradiction|].
  cbn [dict_truthy]. now rewrite Hs.
Qed.

Lemma set_checkpoint_rejected_metadata_witness :
  set_checkpoint Demo.manager "test_stage" "test_key" "value1" "completed"
                 (Some [("handle", VObj "<object>")]) 10 Demo.started_ledger
  = (Raise json_type_error, Demo.started_ledger).
Proof.
  apply set_checkpoint_rejected_metadata;
    [reflexivity|discriminate|reflexivity].
Defined.

(** X9.  [get_checkpoint] does not tell a started unit from an absent
    one: after [start_stage] alone the row exists with status in_progress
    but its value is NULL, and [get_checkpoint] returns None as it does
    for a unit that has no row. *)
Theorem get_after_start_is_none
        (self : CheckpointManager) (stage_ key : string)
        (now db_now : time) (t : table) :
  db_conn self = true ->
  find_unit self stage_ key t = None ->
  get_checkpoint self stage_ key t = None
  /\ get_checkpoint self stage_ key
       (snd (start_stage self stage_ key now db_now t)) = None
  /\ option_map status
       (find_unit self stage_ key
          (snd (start_stage self stage_ key now db_now t)))
     = Some (Some "in_progress").
Proof.
  intros Hc Hnone.
  destruct (start_stage_shape self stage_ key now db_now t Hc Hnone)
    as (x & Hfind & Hst & Hv & _).
  unfold get_checkpoint. rewrite Hc, Hnone, Hfind. cbn [option_map].
  rewrite Hst, Hv. auto.
Qed.

Lemma get_after_start_is_none_witness :
  get_checkpoint Demo.manager "test_stage" "test_key" Demo.started_ledger
  = None.
Proof.
  exact (proj1 (proj2 (get_after_start_is_none
                         Demo.manager "test_stage" "test_key" 5 5 []
                         eq_refl eq_refl))).
Defined.

End CheckpointMore.

(** ** More on the reliable pipeline *)

Module ReliableMore.

Import Checkpoint Reliable.
Import CheckpointFacts CheckpointMore Units.

Lemma start_stage_returns (self : CheckpointManager) (stage_ key : string)
      (now db_now : time) (t : table) :
  fst (start_stage self stage_ key now db_now t) = Ok tt.
Proof.
  unfold start_stage. destruct (db_conn self); [|reflexivity].
  destruct (existsb _ t); reflexivity.
Qed.

Lemma set_checkpoint_returns (self : CheckpointManager)
      (stage_ key value status_ : string) (md mdj : option dict)
      (now : time) (t : table) :
  db_conn self = true ->
  metadata_json md = Ok mdj ->
  fst (set_checkpoint self stage_ key value status_ md now t) = Ok tt.
Proof.
  intros Hc Hmd. unfold set_checkpoint. rewrite Hc, Hmd.
  destruct (existsb _ t); reflexivity.
Qed.

Section Stage.

Variable B : Type.
Variable self_run_id : string.
Variable rollback : B -> B.

Local Abbreviation manager := (self_checkpoint self_run_id).
Local Abbreviation stage_body := (stage_body B self_run_id rollback).

(** What one undecorated run of a stage does, written out: the ledger
    after [start_stage] and [set_checkpoint], one log record, two
    readings of the clock. *)
Lemma stage_body_eq (stage_ : string) (sql : B -> result Z * B)
      (done_message : Z -> string) (failed_message : exn -> string)
      (w : world B) :
  connected w = true ->
  stage_body stage_ sql done_message failed_message w
  = let t1 := snd (start_stage manager stage_ "start" (clock w) (clock w)
                               (checkpoints w)) in
    match sql (biz w) with
    | (Ok n, b') =>
        (Ok n,
         PipelineWorld b' (db_up w) true
           (snd (set_checkpoint manager stage_ "end" "completed" default_status
                                (Some [("rows_updated", VInt n)])
                                (clock w + 1) t1))
           (pipeline_logs w
              ++ [LogRecord "INFO" (done_message n) self_pipeline_name
                            self_run_id])
           (clock w + 1 + 1))
    | (Raise e, b') =>
        (Raise e,
         PipelineWorld (rollback b') (db_up w) true
           (snd (set_checkpoint manager stage_ "end" "failed" default_status
                                None (clock w + 1) t1))
           (pipeline_logs w
              ++ [LogRecord "ERROR" (failed_message e) self_pipeline_name
                            self_run_id])
           (clock w + 1 + 1))
    end.
Proof.
  intros Hc. cbv zeta.
  destruct w as [b up cn t l c]. cbn [connected] in Hc. subst cn.
  cbn [connected biz db_up checkpoints pipeline_logs clock].
  unfold Reliable.stage_body, checkpoint_start_stage, checkpoint_set_checkpoint,
    logger_info, logger_error, logger_log, run_sql, conn_rollback,
    need_connection, with_table, try_except, bind, exec, ret, raise.
  cbn [connected biz db_up checkpoints pipeline_logs clock].
  pose proof (start_stage_returns manager stage_ "start" c c t) as Hs.
  destruct (start_stage manager stage_ "start" c c t) as [r1 t1].
  cbn [fst snd] in *. subst r1.
  cbn [connected biz db_up checkpoints pipeline_logs clock].
  destruct (sql b) as [[n|e] b'];
    cbn [connected biz db_up checkpoints pipeline_logs clock].
  - pose proof (set_checkpoint_returns manager stage_ "end" "completed"
                  default_status (Some [("rows_updated", VInt n)]) _
                  (c + 1) t1 eq_refl eq_refl) as H2.
    destruct (set_checkpoint manager stage_ "end" "completed" default_status
                (Some [("rows_updated", VInt n)]) (c + 1) t1)
      as [r2 t2].
    cbn [fst snd] in *. subst r2.
    cbn [connected biz db_up checkpoints pipeline_logs clock]. reflexivity.
  - pose proof (set_checkpoint_returns manager stage_ "end" "failed"
                  default_status None _ (c + 1) t1 eq_refl eq_refl) as H2.
    destruct (set_checkpoint manager stage_ "end" "failed" default_status
                None (c + 1) t1) as [r2 t2].
    cbn [fst snd] in *. subst r2.
    cbn [connected biz db_up checkpoints pipeline_logs clock]. reflexivity.
Qed.

End Stage.


Section Run.

Variable B : Type.
Variable self_run_id : string.
Variable rollback : B -> B.
Variable random_random : nat -> Q.

Local Abbreviation manager := (self_checkpoint self_run_id).
Local Abbreviation stage_body := (Reliable.stage_body B self_run_id rollback).
Local Abbreviation world := (Reliable.world B).

(** A decorated stage method, as both methods of the class are built. *)
Local Abbreviation decorated stage_ sql done_message failed_message :=
  (Retry.retry_with_backoff random_random 3 1
     (stage_body stage_ sql done_message failed_message)).

(** One run of a stage keeps the pipeline connected, leaves the
    reachability of the database alone and does not touch the rows of
    other stages. *)
Lemma stage_body_frame (stage_ : string) (sql : B -> result Z * B)
      (done_message : Z -> string) (failed_message : exn -> string)
      (w : world) :
  connected w = true ->
  connected (snd (stage_body stage_ sql done_message failed_message w)) = true
  /\ db_up (snd (stage_body stage_ sql done_message failed_message w))
     = db_up w
  /\ forall stage' key',
       stage' <> stage_ ->
       find_unit manager stage' key'
         (checkpoints (snd (stage_body stage_ sql done_message
                                       failed_message w)))
       = find_unit manager stage' key' (checkpoints w).
Proof.
  intros Hc. rewrite (stage_body_eq B self_run_id rollback _ _ _ _ w Hc).
  cbv zeta.
  assert (Hother : forall stage' key' key,
             stage' <> stage_ ->
             unit_id manager stage_ key <> unit_id manager stage' key').
  { intros stage' key' key Hne H. inversion H. congruence. }
  destruct (sql (biz w)) as [[n|e] b']; cbn [snd connected db_up checkpoints];
    (split; [reflexivity|]); (split; [reflexivity|]);
    intros stage' key' Hne;
    rewrite find_after_set_other, find_after_start_other by (now apply Hother);
    reflexivity.
Qed.

Lemma decorated_frame (stage_ : string) (sql : B -> result Z * B)
      (done_message : Z -> string) (failed_message : exn -> string)
      (w : Retry.world world) :
  connected (Retry.store w) = true ->
  let w' := snd (decorated stage_ sql done_message failed_message w) in
  connected (Retry.store w') = true
  /\ db_up (Retry.store w') = db_up (Retry.store w)
  /\ forall stage' key',
       stage' <> stage_ ->
       find_unit manager stage' key' (checkpoints (Retry.store w'))
       = find_unit manager stage' key' (checkpoints (Retry.store w)).
Proof.
  intros Hc. cbv zeta.
  set (inv := fun s : world =>
                connected s = true
                /\ db_up s = db_up (Retry.store w)
                /\ forall stage' key',
                     stage' <> stage_ ->
                     find_unit manager stage' key' (checkpoints s)
                     = find_unit manager stage' key'
                         (checkpoints (Retry.store w))).
  assert (Hstep : forall s, inv s ->
            inv (snd (stage_body stage_ sql done_message failed_message s))).
  { intros s (H1 & H2 & H3).
    destruct (stage_body_frame stage_ sql done_message failed_message s H1)
      as (F1 & F2 & F3).
    split; [exact F1|]. split; [congruence|].
    intros stage' key' Hne. rewrite F3 by assumption. now apply H3. }
  unfold Retry.retry_with_backoff, Retry.wrapper.
  pose proof (RetryFacts.attempts_rule random_random 3 1
                (stage_body stage_ sql done_message failed_message)
                inv (fun _ s => inv s) inv) as Hrule.
  specialize (Hrule
    (fun s Hs =>
       match stage_body stage_ sql done_message failed_message s as p
             return inv (snd p) ->
                    match p with
                    | (Ok v, s') => inv s'
                    | (Raise _, s') => inv s' /\ inv s'
                    end
       with
       | (Ok _, _) => fun H => H
       | (Raise _, _) => fun H => conj H H
       end (Hstep s Hs))).
  specialize (Hrule (Z.to_nat 3) 0 None w).
  assert (Hinv0 : inv (Retry.store w)) by (repeat split; auto).
  specialize (Hrule Hinv0). cbn match in Hrule.
  assert (H1 : (1 <= Z.to_nat 3)%nat) by (change (Z.to_nat 3) with 3%nat; lia).
  specialize (Hrule H1).
  destruct (Retry.attempts random_random 3 1
              (stage_body stage_ sql done_message failed_message)
              (Z.to_nat 3) 0 None w) as [[v|e] w']; exact Hrule.
Qed.


Variables product_sql country_sql : B -> result Z * B.

Local Abbreviation run_pipeline :=
  (Reliable.run_pipeline B self_run_id rollback random_random
                         product_sql country_sql).
Local Abbreviation update_product_performance :=
  (Reliable.update_product_performance B self_run_id rollback random_random
                                       product_sql).
Local Abbreviation update_country_sales :=
  (Reliable.update_country_sales B self_run_id rollback random_random
                                 country_sql).

Lemma logger_connected (level message : string) (s : world) :
  connected s = true ->
  logger_log B self_run_id level message s
  = (Ok tt,
     PipelineWorld (biz s) (db_up s) (connected s) (checkpoints s)
       (pipeline_logs s
          ++ [LogRecord level message self_pipeline_name self_run_id])
       (clock s)).
Proof.
  intros Hc. destruct s as [b up cn t l c]. cbn in Hc. subst cn. reflexivity.
Qed.

(** The run on a reachable database, up to the first stage: the
    connection is made and two records are logged. *)
Lemma run_pipeline_eq (w : Retry.world world) :
  db_up (Retry.store w) = true ->
  run_pipeline w
  = try_finally
      (try_except
         (bind update_product_performance
            (fun _ =>
               bind update_country_sales
                 (fun _ =>
                    bind (lift_store
                            (logger_info B self_run_id
                                         "Pipeline completed successfully"))
                         (fun _ => ret tt))))
         (fun e =>
            bind (lift_store
                    (logger_error B self_run_id
                                  ("Pipeline failed: " ++ exn_msg e)))
                 (fun _ => raise e)))
      (fun w' => Retry.World (disconnect B (Retry.store w'))
                             (Retry.draws w') (Retry.trace w'))
      (Retry.World
         (PipelineWorld (biz (Retry.store w)) true true
            (checkpoints (Retry.store w))
            ((pipeline_logs (Retry.store w)
                ++ [LogRecord "INFO" "Database connection established"
                              self_pipeline_name self_run_id])
               ++ [LogRecord "INFO" "Pipeline started"
                             self_pipeline_name self_run_id])
            (clock (Retry.store w)))
         (Retry.draws w) (Retry.trace w)).
Proof.
  intros Hup. destruct w as [[b up cn t l c] dr tr]. cbn in Hup. subst up.
  unfold Reliable.run_pipeline, try_finally, try_except, bind at 1, lift_store at 1,
    connect, bind at 1, logger_info, logger_log, need_connection, exec.
  cbn [Retry.store Retry.draws Retry.trace connected biz db_up checkpoints
       pipeline_logs clock].
  unfold bind at 1. cbn [connected biz db_up checkpoints pipeline_logs clock].
  unfold bind at 1, lift_store at 1, bind at 1.
  cbn [Retry.store Retry.draws Retry.trace connected biz db_up checkpoints
       pipeline_logs clock].
  reflexivity.
Qed.


(** The "start" row of a stage, as [start_stage] wrote it and nothing
    has changed it since. *)
Local Abbreviation open_row stage_ t :=
  (exists x,
      find_unit manager stage_ "start" t = Some x
      /\ status x = Some "in_progress"
      /\ checkpoint_value x = None
      /\ end_time x = None).

Lemma stage_body_start_row (stage_ : string) (sql : B -> result Z * B)
      (done_message : Z -> string) (failed_message : exn -> string)
      (w : world) :
  connected w = true ->
  find_unit manager stage_ "start" (checkpoints w) = None
  \/ open_row stage_ (checkpoints w) ->
  open_row stage_
    (checkpoints (snd (stage_body stage_ sql done_message failed_message w))).
Proof.
  intros Hc Hbefore.
  rewrite (stage_body_eq B self_run_id rollback _ _ _ _ w Hc). cbv zeta.
  assert (Hne : unit_id manager stage_ "end" <> unit_id manager stage_ "start")
    by (intros H; inversion H).
  assert (Ht1 : open_row stage_
                  (snd (start_stage manager stage_ "start" (clock w) (clock w)
                                    (checkpoints w)))).
  { destruct Hbefore as [Hnone|(x & Hx & H1 & H2 & H3)].
    - exact (start_stage_shape manager stage_ "start" (clock w) (clock w)
               (checkpoints w) eq_refl Hnone).
    - rewrite (start_stage_present manager stage_ "start" _ _ _ x Hx). eauto. }
  destruct (sql (biz w)) as [[n|e] b']; cbn [snd checkpoints];
    rewrite find_after_set_other by exact Hne; exact Ht1.
Qed.

Lemma decorated_start_row (stage_ : string) (sql : B -> result Z * B)
      (done_message : Z -> string) (failed_message : exn -> string)
      (w : Retry.world world) :
  connected (Retry.store w) = true ->
  find_unit manager stage_ "start" (checkpoints (Retry.store w)) = None ->
  open_row stage_
    (checkpoints
       (Retry.store
          (snd (decorated stage_ sql done_message failed_message w)))).
Proof.
  intros Hc Hnone.
  set (inv := fun s : world =>
                connected s = true
                /\ (find_unit manager stage_ "start" (checkpoints s) = None
                    \/ open_row stage_ (checkpoints s))).
  set (fin := fun s : world => open_row stage_ (checkpoints s)).
  unfold Retry.retry_with_backoff, Retry.wrapper.
  pose proof (RetryFacts.attempts_rule random_random 3 1
                (stage_body stage_ sql done_message failed_message)
                inv (fun _ s => fin s) fin) as Hrule.
  assert (Hstep : forall s, inv s ->
            match stage_body stage_ sql done_message failed_message s with
            | (Ok _, s') => fin s'
            | (Raise _, s') => inv s' /\ fin s'
            end).
  { intros s [H1 H2].
    pose proof (stage_body_start_row stage_ sql done_message failed_message
                  s H1 H2) as Hr.
    destruct (stage_body_frame stage_ sql done_message failed_message s H1)
      as (F1 & _).
    destruct (stage_body stage_ sql done_message failed_message s)
      as [[v|e] s']; cbn [snd] in *; [exact Hr|].
    split; [|exact Hr]. split; [exact F1|right; exact Hr]. }
  specialize (Hrule Hstep (Z.to_nat 3) 0 None w (conj Hc (or_introl Hnone))).
  cbn match in Hrule.
  assert (H1 : (1 <= Z.to_nat 3)%nat) by (change (Z.to_nat 3) with 3%nat; lia).
  specialize (Hrule H1).
  destruct (Retry.attempts random_random 3 1
              (stage_body stage_ sql done_message failed_message)
              (Z.to_nat 3) 0 None w) as [[v|e] w']; exact Hrule.
Qed.


(** The pipeline once [connect()] has run and the start was logged. *)
Local Abbreviation started w :=
  (Retry.World
     (PipelineWorld (biz (Retry.store w)) true true
        (checkpoints (Retry.store w))
        ((pipeline_logs (Retry.store w)
            ++ [LogRecord "INFO" "Database connection established"
                          self_pipeline_name self_run_id])
           ++ [LogRecord "INFO" "Pipeline started"
                         self_pipeline_name self_run_id])
        (clock (Retry.store w)))
     (Retry.draws w) (Retry.trace w)).

(** The end of a run whose stages raised [e] in state [w2]. *)
Local Abbreviation failed_end e w2 :=
  (Raise e : result unit,
   Retry.World
     (PipelineWorld (biz (Retry.store w2)) (db_up (Retry.store w2)) false
        (checkpoints (Retry.store w2))
        (pipeline_logs (Retry.store w2)
           ++ [LogRecord "ERROR" ("Pipeline failed: " ++ exn_msg e)
                         self_pipeline_name self_run_id])
        (clock (Retry.store w2)))
     (Retry.draws w2) (Retry.trace w2)).

Lemma handler_eq (e : exn) (w2 : Retry.world world) :
  connected (Retry.store w2) = true ->
  try_finally
    (fun w' =>
       bind (lift_store
               (logger_error B self_run_id ("Pipeline failed: " ++ exn_msg e)))
            (fun _ => raise (A := unit) e) w')
    (fun w' => Retry.World (disconnect B (Retry.store w'))
                           (Retry.draws w') (Retry.trace w'))
    w2
  = failed_end e w2.
Proof.
  intros Hc. destruct w2 as [[b up cn t l c] dr tr]. cbn in Hc. subst cn.
  reflexivity.
Qed.

Lemma run_first_stage_fails (w : Retry.world world) (e : exn) :
  db_up (Retry.store w) = true ->
  (forall b, exists b', product_sql b = (Raise e, b')) ->
  run_pipeline w
  = failed_end e (snd (update_product_performance (started w)))
  /\ Retry.invocations
       (Retry.trace (snd (update_product_performance (started w))))
     = (Retry.invocations (Retry.trace w) + 3)%nat
  /\ forall key',
       find_unit manager "country_sales" key'
         (checkpoints
            (Retry.store (snd (update_product_performance (started w)))))
       = find_unit manager "country_sales" key' (checkpoints (Retry.store w)).
Proof.
  intros Hup Hfail. rewrite (run_pipeline_eq w Hup).
  set (w1 := started w).
  assert (Hc1 : connected (Retry.store w1) = true) by reflexivity.
  unfold Reliable.update_product_performance.
  set (body := stage_body "product_performance" product_sql _ _).
  destruct (RetryBounds.attempts_all_fail random_random 3 1 body
              (fun s => connected s = true) e) with
      (remaining := Z.to_nat 3) (attempt := 0) (previous := @None exn) (w := w1)
    as (Hr & Hc2 & Hi).
  { intros s Hs. unfold body.
    rewrite (stage_body_eq B self_run_id rollback _ _ _ _ s Hs). cbv zeta.
    destruct (Hfail (biz s)) as (b' & ->). eexists. split; reflexivity. }
  { exact Hc1. }
  { change (Z.to_nat 3) with 3%nat. lia. }
  destruct (decorated_frame "product_performance" product_sql
              (fun n => "Updated " ++ str_int n ++ " products in performance table")
              (fun e0 => "Failed to update product performance: " ++ exn_msg e0)
              w1 Hc1) as (_ & _ & Hframe).
  fold body in Hframe.
  unfold Retry.retry_with_backoff, Retry.wrapper in *.
  split; [|split].
  - unfold try_finally at 1, try_except, bind at 1.
    destruct (Retry.attempts random_random 3 1 body (Z.to_nat 3) 0 None w1)
      as [[n|e'] w2]; cbn [fst snd] in *; [discriminate|].
    inversion Hr; subst e'.
    exact (handler_eq e w2 Hc2).
  - rewrite Hi. change (Z.to_nat 3) with 3%nat. reflexivity.
  - intros key'. rewrite Hframe by discriminate. reflexivity.
Qed.


Lemma decorated_first_try (stage_ : string) (sql : B -> result Z * B)
      (done_message : Z -> string) (failed_message : exn -> string)
      (w : Retry.world world) (n : Z) (b' : B) :
  connected (Retry.store w) = true ->
  sql (biz (Retry.store w)) = (Ok n, b') ->
  exists s',
    decorated stage_ sql done_message failed_message w
    = (Ok n, Retry.World s' (Retry.draws w) (Retry.trace w ++ [Retry.Invoke]))
    /\ connected s' = true
    /\ db_up s' = db_up (Retry.store w)
    /\ biz s' = b'
    /\ recorded B self_run_id stage_ "completed" "completed" s'
    /\ forall stage' key',
         stage' <> stage_ ->
         find_unit manager stage' key' (checkpoints s')
         = find_unit manager stage' key' (checkpoints (Retry.store w)).
Proof.
  intros Hc Hsql.
  pose proof (stage_body_eq B self_run_id rollback stage_ sql done_message
                failed_message (Retry.store w) Hc) as E.
  cbv zeta in E. rewrite Hsql in E.
  pose proof (ReliableFacts.stage_body_records B self_run_id rollback stage_
                sql done_message failed_message (Retry.store w) Hc) as Hrec.
  destruct (stage_body_frame stage_ sql done_message failed_message
              (Retry.store w) Hc) as (F1 & F2 & F3).
  rewrite E in Hrec, F1, F2, F3. cbn [snd] in *.
  eexists. split.
  - unfold Retry.retry_with_backoff.
    match type of E with
    | _ = (_, ?s2) =>
        rewrite (RetryFacts.wrapper_success random_random 3 1 _ 0 w
                   (Retry.store w) s2 [] n); [|lia|reflexivity|exact E]
    end.
    cbn [Retry.backoff_trace app]. now rewrite Nat.add_0_r.
  - split; [reflexivity|]. split; [reflexivity|]. split; [reflexivity|].
    split; [exact (proj2 Hrec)|exact F3].
Qed.

Lemma run_succeeds (w : Retry.world world) (n1 n2 : Z) (b1 b2 : B) :
  db_up (Retry.store w) = true ->
  product_sql (biz (Retry.store w)) = (Ok n1, b1) ->
  country_sql b1 = (Ok n2, b2) ->
  exists s',
    run_pipeline w
    = (Ok tt,
       Retry.World s' (Retry.draws w)
                   ((Retry.trace w ++ [Retry.Invoke]) ++ [Retry.Invoke]))
    /\ biz s' = b2
    /\ connected s' = false
    /\ recorded B self_run_id "product_performance" "completed" "completed" s'
    /\ recorded B self_run_id "country_sales" "completed" "completed" s'.
Proof.
  intros Hup Hp Hcs. rewrite (run_pipeline_eq w Hup).
  destruct (decorated_first_try "product_performance" product_sql
              (fun n => "Updated " ++ str_int n ++ " products in performance table")
              (fun e0 => "Failed to update product performance: " ++ exn_msg e0)
              (started w) n1 b1 eq_refl Hp)
    as (s2 & E2 & C2 & _ & B2 & R2 & _).
  cbn [Retry.draws Retry.trace] in E2.
  destruct (decorated_first_try "country_sales" country_sql
              (fun n => "Updated " ++ str_int n ++ " countries in sales table")
              (fun e0 => "Failed to update country sales: " ++ exn_msg e0)
              (Retry.World s2 (Retry.draws w)
                           (Retry.trace w ++ [Retry.Invoke])) n2 b2 C2
              ltac:(cbn [Retry.store]; now rewrite B2))
    as (s3 & E3 & C3 & _ & B3 & R3 & F3).
  cbn [Retry.store Retry.draws Retry.trace] in E3, F3.
  unfold try_finally, try_except, bind at 1.
  unfold Reliable.update_product_performance. rewrite E2.
  unfold bind at 1. unfold Reliable.update_country_sales. rewrite E3.
  unfold bind at 1, lift_store, logger_info.
  cbn [Retry.store Retry.draws Retry.trace].
  rewrite (logger_connected "INFO" "Pipeline completed successfully" s3 C3).
  unfold ret. cbn [Retry.store Retry.draws Retry.trace disconnect].
  eexists. split; [reflexivity|].
  unfold disconnect. cbn [biz connected]. split; [exact B3|].
  split; [reflexivity|].
  destruct R2 as [V2 S2]. destruct R3 as [V3 S3].
  unfold recorded, end_value, end_status, disconnect in *. cbn [checkpoints].
  rewrite (F3 "product_performance" "end") by discriminate.
  repeat split; assumption.
Qed.

(** A run against an unreachable database, on a pipeline object that has
    not connected before. *)
Lemma run_unreachable (w : Retry.world world) :
  db_up (Retry.store w) = false ->
  connected (Retry.store w) = false ->
  run_pipeline w = (Raise none_attribute_error, w).
Proof.
  intros Hup Hc. destruct w as [[b up cn t l c] dr tr]. cbn in Hup, Hc.
  subst up cn. reflexivity.
Qed.

End Run.


(** X10.  When the product statement raises [e] on every attempt, the run
    ends with [e] after exactly three invocations, and the second stage
    is not attempted: no row of the country_sales stage is written or
    changed, and the outcome of the run is the same whatever the country
    statement would have done. *)
Theorem first_stage_failure_halts_run
        (B : Type) (self_run_id : string) (rollback : B -> B)
        (random_random : nat -> Q)
        (product_sql country_sql : B -> result Z * B)
        (w : Retry.world (world B)) (e : exn) :
  db_up (Retry.store w) = true ->
  (forall b, exists b', product_sql b = (Raise e, b')) ->
  let run := run_pipeline B self_run_id rollback random_random
                          product_sql country_sql w in
  fst run = Raise e
  /\ Retry.invocations (Retry.trace (snd run))
     = (Retry.invocations (Retry.trace w) + 3)%nat
  /\ (forall key',
        find_unit (self_checkpoint self_run_id) "country_sales" key'
                  (checkpoints (Retry.store (snd run)))
        = find_unit (self_checkpoint self_run_id) "country_sales" key'
                    (checkpoints (Retry.store w)))
  /\ (forall country_sql',
        run_pipeline B self_run_id rollback random_random
                     product_sql country_sql' w
        = run).
Proof.
  intros Hup Hfail. cbv zeta.
  destruct (run_first_stage_fails B self_run_id rollback random_random
              product_sql country_sql w e Hup Hfail) as (E & Hi & Hf).
  rewrite E. cbn [fst snd Retry.trace Retry.store checkpoints].
  split; [reflexivity|]. split; [exact Hi|]. split; [exact Hf|].
  intros country_sql'.
  destruct (run_first_stage_fails B self_run_id rollback random_random
              product_sql country_sql' w e Hup Hfail) as (E' & _).
  exact E'.
Qed.

Lemma first_stage_failure_halts_run_witness :
  fst (run_pipeline unit "run-1" (fun b => b) Demo.half
                    Demo.product_down Demo.country_ok Demo.pipeline_start)
  = Raise (Exn "OperationalError" "relation does not exist")
  /\ Retry.invocations
       (Retry.trace
          (snd (run_pipeline unit "run-1" (fun b => b) Demo.half
                             Demo.product_down Demo.country_ok
                             Demo.pipeline_start)))
     = 3%nat.
Proof.
  destruct (first_stage_failure_halts_run
              unit "run-1" (fun b => b) Demo.half Demo.product_down
              Demo.country_ok Demo.pipeline_start
              (Exn "OperationalError" "relation does not exist") eq_refl)
    as (H1 & H2 & _).
  - intros b. exists b. reflexivity.
  - split; [exact H1|exact H2].
Defined.

(** X11.  When the database cannot be reached, a new pipeline object does
    not report the connection error: the handler of [run_pipeline] uses a
    logger that [connect()] never created, so the run raises an
    AttributeError instead; no checkpoint or log record is written and no
    stage is invoked. *)
Theorem unreachable_database_raises_attribute_error
        (B : Type) (self_run_id : string) (rollback : B -> B)
        (random_random : nat -> Q)
        (product_sql country_sql : B -> result Z * B)
        (w : Retry.world (world B)) :
  db_up (Retry.store w) = false ->
  connected (Retry.store w) = false ->
  run_pipeline B self_run_id rollback random_random product_sql country_sql w
  = (Raise none_attribute_error, w).
Proof.
  intros Hup Hc.
  exact (run_unreachable B self_run_id rollback random_random
           product_sql country_sql w Hup Hc).
Qed.

Lemma unreachable_database_raises_attribute_error_witness :
  run_pipeline unit "run-1" (fun b => b) Demo.half
               Demo.product_ok Demo.country_ok Demo.unreachable_start
  = (Raise none_attribute_error, Demo.unreachable_start).
Proof.
  apply unreachable_database_raises_attribute_error; reflexivity.
Defined.

(** X12.  When the database is reachable and both statements succeed at
    their first attempt, the run returns, each stage was invoked once and
    nothing was slept, the business tables are those the second statement
    left, the connection is closed, and both "end" checkpoints read value
    completed, status completed. *)
Theorem successful_run
        (B : Type) (self_run_id : string) (rollback : B -> B)
        (random_random : nat -> Q)
        (product_sql country_sql : B -> result Z * B)
        (w : Retry.world (world B)) (n1 n2 : Z) (b1 b2 : B) :
  db_up (Retry.store w) = true ->
  product_sql (biz (Retry.store w)) = (Ok n1, b1) ->
  country_sql b1 = (Ok n2, b2) ->
  exists s',
    run_pipeline B self_run_id rollback random_random
                 product_sql country_sql w
    = (Ok tt,
       Retry.World s' (Retry.draws w)
                   ((Retry.trace w ++ [Retry.Invoke]) ++ [Retry.Invoke]))
    /\ biz s' = b2
    /\ connected s' = false
    /\ recorded B self_run_id "product_performance" "completed" "completed" s'
    /\ recorded B self_run_id "country_sales" "completed" "completed" s'.
Proof.
  intros Hup Hp Hcs.
  exact (run_succeeds B self_run_id rollback random_random
           product_sql country_sql w n1 n2 b1 b2 Hup Hp Hcs).
Qed.

Lemma successful_run_witness :
  exists s',
    run_pipeline unit "run-1" (fun b => b) Demo.half
                 Demo.product_ok Demo.country_ok Demo.pipeline_start
    = (Ok tt, Retry.World s' 0%nat [Retry.Invoke; Retry.Invoke])
    /\ recorded unit "run-1" "country_sales" "completed" "completed" s'.
Proof.
  destruct (successful_run unit "run-1" (fun b => b) Demo.half
              Demo.product_ok Demo.country_ok Demo.pipeline_start
              5 7 tt tt eq_refl eq_refl eq_refl)
    as (s' & E & _ & _ & _ & Hr).
  exists s'. split; [exact E|exact Hr].
Defined.

(** X13.  The "start" row of a stage is never closed.  On a connected
    pipeline whose ledger has no "start" row for the stage, after the
    decorated stage method has returned or raised, that row exists with
    status in_progress, no end time and no value: the outcome is written
    to the separate "end" row only. *)
Theorem start_row_stays_in_progress
        (B : Type) (self_run_id : string) (rollback : B -> B)
        (random_random : nat -> Q)
        (product_sql country_sql : B -> result Z * B)
        (w : Retry.world (world B)) :
  connected (Retry.store w) = true ->
  (find_unit (self_checkpoint self_run_id) "product_performance" "start"
             (checkpoints (Retry.store w)) = None ->
   exists x,
     find_unit (self_checkpoint self_run_id) "product_performance" "start"
       (checkpoints
          (Retry.store
             (snd (update_product_performance B self_run_id rollback
                                              random_random product_sql w))))
     = Some x
     /\ status x = Some "in_progress"
     /\ checkpoint_value x = None
     /\ end_time x = None)
  /\ (find_unit (self_checkpoint self_run_id) "country_sales" "start"
                (checkpoints (Retry.store w)) = None ->
      exists x,
        find_unit (self_checkpoint self_run_id) "country_sales" "start"
          (checkpoints
             (Retry.store
                (snd (update_country_sales B self_run_id rollback
                                           random_random country_sql w))))
        = Some x
        /\ status x = Some "in_progress"
        /\ checkpoint_value x = None
        /\ end_time x = None).
Proof.
  intros Hc. split; intros Hnone.
  - exact (decorated_start_row B self_run_id rollback random_random
             "product_performance" product_sql _ _ w Hc Hnone).
  - exact (decorated_start_row B self_run_id rollback random_random
             "country_sales" country_sql _ _ w Hc Hnone).
Qed.

Lemma start_row_stays_in_progress_witness :
  exists x,
    find_unit (self_checkpoint "run-1") "product_performance" "start"
      (checkpoints
         (Retry.store
            (snd (update_product_performance unit "run-1" (fun b => b)
                    Demo.half Demo.product_ok Demo.connected_start))))
    = Some x
    /\ status x = Some "in_progress"
    /\ checkpoint_value x = None
    /\ end_time x = None.
Proof.
  exact (proj1 (start_row_stays_in_progress
                  unit "run-1" (fun b => b) Demo.half Demo.product_ok
                  Demo.country_ok Demo.connected_start eq_refl) eq_refl).
Defined.

End ReliableMore.

(** ** More on the circuit breaker, the production handler and the
       graceful degradation *)

Module BreakerMore.

Import Breaker Handler.

Section Facts.

Context {S R : Type}.
Variable time_time : S -> Q.

Local Abbreviation call := (Breaker.call time_time (R := R)).
Local Abbreviation calls := (Breaker.calls time_time (R := R)).

Lemma gate_settled (cb : CircuitBreaker) (now : Q) :
  settled cb ->
  match gate cb now with
  | Ok cb' =>
      failure_threshold cb' = failure_threshold cb
      /\ failure_count cb' = failure_count cb
      /\ (state cb' = CLOSED
          \/ (state cb' = HALF_OPEN
              /\ failure_threshold cb <= failure_count cb))
  | Raise e => e = blocked_error
  end.
Proof.
  unfold settled, gate. destruct (state cb) eqn:Hs.
  - intros _. rewrite Hs. auto.
  - intros [Ht Hc]. destruct (last_failure_time cb) as [t|]; [|contradiction].
    destruct (Qgtb (now - t) (timeout cb)); cbn; auto.
  - contradiction.
Qed.

(** A call leaves a settled breaker settled, with the threshold it had. *)
Lemma call_settled (func : S -> result R * S) (w : world S) :
  settled (breaker w) ->
  settled (breaker (snd (call func w)))
  /\ failure_threshold (breaker (snd (call func w)))
     = failure_threshold (breaker w).
Proof.
  intros Hs. pose proof (gate_settled (breaker w) (time_time (env w)) Hs) as Hg.
  unfold Breaker.call.
  destruct (gate (breaker w) (time_time (env w))) as [cb'|e]; [|auto].
  destruct Hg as (Hth & Hcnt & Hst).
  destruct (func (env w)) as [[v|e] s']; cbn [snd breaker].
  - unfold on_success, settled.
    destruct Hst as [Hc|[Hh _]]; rewrite Hc || rewrite Hh; cbn; auto.
    rewrite Hc. auto.
  - unfold on_failure, settled. cbn [state failure_threshold failure_count
                                     last_failure_time].
    split; [|assumption].
    destruct (failure_threshold cb' <=? failure_count cb' + 1) eqn:Hle.
    + split; [discriminate|]. apply Z.leb_le in Hle. exact Hle.
    + destruct Hst as [Hc|[Hh Hge]].
      * now rewrite Hc.
      * apply Z.leb_gt in Hle. lia.
Qed.

Lemma calls_settled (fs : list (S -> result R * S)) :
  forall w : world S,
    settled (breaker w) -> settled (breaker (calls fs w)).
Proof.
  induction fs as [|f fs IH]; intros w Hs; [exact Hs|].
  cbn [Breaker.calls]. apply IH. now apply call_settled.
Qed.

End Facts.

(** X14.  A breaker never rests half-open and is never open without a
    failure time: after any sequence of calls on a breaker created by the
    constructor, whatever the functions do, the state is CLOSED, or OPEN
    with a recorded failure time and a counter that has reached the
    threshold; so the comparison with the clock at the head of [call]
    never fails on a missing failure time. *)
Theorem breaker_stays_settled
        {S R : Type} (time_time : S -> Q)
        (failure_threshold_ : Z) (timeout_ : Q) (s : S) (n : nat)
        (fs : list (S -> result R * S)) (now : Q) :
  let cb :=
    breaker (Breaker.calls time_time fs
               (World (Breaker.init failure_threshold_ timeout_) s n)) in
  settled cb
  /\ state cb <> HALF_OPEN
  /\ gate cb now <> Raise none_operand_error.
Proof.
  cbv zeta.
  assert (Hs : settled
                 (breaker (Breaker.calls time_time fs
                             (World (Breaker.init failure_threshold_ timeout_)
                                    s n)))).
  { apply calls_settled. exact I. }
  split; [exact Hs|]. split.
  - intros Hh. unfold settled in Hs. now rewrite Hh in Hs.
  - pose proof (gate_settled _ now Hs) as Hg. intros Heq. rewrite Heq in Hg.
    discriminate Hg.
Qed.

(** X15.  A failed trial re-opens the breaker and restarts the cooldown:
    on an open breaker whose counter has reached the threshold, a call
    made after the cooldown invokes the function once, and when it raises
    the breaker is OPEN again with the counter increased by one and the
    failure time set to the clock after the call. *)
Theorem failed_trial_reopens
        {S R : Type} (time_time : S -> Q) (func : S -> result R * S)
        (w : world S) (t : Q) (e : exn) (s' : S) :
  state (breaker w) = OPEN ->
  last_failure_time (breaker w) = Some t ->
  failure_threshold (breaker w) <= failure_count (breaker w) ->
  (timeout (breaker w) < time_time (env w) - t)%Q ->
  func (env w) = (Raise e, s') ->
  Breaker.call time_time func w
  = (Raise e,
     World (Breaker (failure_threshold (breaker w)) (timeout (breaker w))
                    (failure_count (breaker w) + 1) (Some (time_time s')) OPEN)
           s' (Datatypes.S (invoked w))).
Proof.
  intros Ho Ht Hth Hlt Hf. unfold Breaker.call, gate. rewrite Ho, Ht.
  rewrite (BreakerFacts.Qgtb_true _ _ Hlt), Hf. unfold on_failure.
  cbn [failure_threshold timeout failure_count state].
  assert ((failure_threshold (breaker w) <=? failure_count (breaker w) + 1)
          = true) as -> by (apply Z.leb_le; lia).
  reflexivity.
Qed.

Lemma failed_trial_reopens_witness :
  Breaker.call Demo.clock_time Demo.failing_service (Demo.breaker_open_at 106)
  = (Raise (Exn "OperationalError" "Service unavailable"),
     World (Breaker 2 5 3 (Some (106 + 1)%Q) OPEN) (106 + 1)%Q 3).
Proof.
  apply (failed_trial_reopens Demo.clock_time Demo.failing_service
           (Demo.breaker_open_at 106) 100);
    [reflexivity|reflexivity|discriminate|reflexivity|reflexivity].
Defined.

End BreakerMore.

Module HandlerFacts.

Import Breaker Handler.

Section Facts.

Context {S R : Type}.
Variable time_time : S -> Q.

Local Abbreviation execute_with_retry :=
  (Handler.execute_with_retry (R := R) time_time).
Local Abbreviation executions := (Handler.executions (R := R) time_time).
Local Abbreviation failed_executions :=
  (Handler.failed_executions (R := R) time_time).

(** One execution, by its outcome. *)
Lemma execute_lines (operation : S -> result R * S) (name : string)
      (self : ProductionRetryHandler S) :
  let r := execute_with_retry operation name self in
  match fst r with
  | Ok _ =>
      alerts (snd r) = alerts self
      /\ failure_metrics (snd r) = failure_metrics self
      /\ alert_sent (snd r) = alert_sent self
  | Raise _ =>
      alerts (snd r)
      = (alerts self + if alert_sent self then 0 else 1)%nat
      /\ failure_metrics (snd r) = Datatypes.S (failure_metrics self)
      /\ alert_sent (snd r) = true
  end.
Proof.
  cbv zeta. unfold Handler.execute_with_retry, alerts, failure_metrics.
  destruct (call time_time operation (circuit_breaker self)) as [[v|e] cw];
    cbn [fst snd printed alert_sent]; [auto|].
  rewrite !filter_app, !length_app.
  destruct (alert_sent self); cbn; repeat split; lia.
Qed.

Lemma executions_lines (ops : list ((S -> result R * S) * string)) :
  forall self : ProductionRetryHandler S,
    alerts (executions ops self)
    = (alerts self
       + if alert_sent self then 0
         else Nat.min 1 (failed_executions ops self))%nat
    /\ failure_metrics (executions ops self)
       = (failure_metrics self + failed_executions ops self)%nat
    /\ alert_sent (executions ops self)
       = (alert_sent self || (0 <? failed_executions ops self)%nat)%bool.
Proof.
  induction ops as [|[operation name] ops IH]; intros self.
  - cbn. destruct (alert_sent self); repeat split; auto with arith; lia.
  - cbn [Handler.executions Handler.failed_executions].
    pose proof (execute_lines operation name self) as H1. cbv zeta in H1.
    destruct (IH (snd (execute_with_retry operation name self)))
      as (Ha & Hm & Hs).
    rewrite Ha, Hm, Hs. clear Ha Hm Hs IH.
    set (n := failed_executions ops _). clearbody n.
    destruct (fst (execute_with_retry operation name self));
      destruct H1 as (E1 & E2 & E3); rewrite E1, E2, E3.
    + cbn [Nat.add]. auto.
    + destruct (alert_sent self); cbn; repeat split; try lia.
Qed.

Lemma execute_invoked (operation : S -> result R * S) (name : string)
      (self : ProductionRetryHandler S) :
  let h := snd (execute_with_retry operation name self) in
  (invoked (circuit_breaker h) <= Datatypes.S (invoked (circuit_breaker self)))%nat
  /\ max_retries h = max_retries self
  /\ backoff_base h = backoff_base self.
Proof.
  cbv zeta. unfold Handler.execute_with_retry, Breaker.call.
  destruct (gate (breaker (circuit_breaker self))
                 (time_time (env (circuit_breaker self)))) as [cb|e].
  - destruct (operation (env (circuit_breaker self))) as [[v|e] s'];
      cbn; auto.
  - cbn. auto.
Qed.

End Facts.

(** X16.  The alert goes out once in the life of a handler, a failure
    metric on every failure: after any sequence of executions on a fresh
    handler, the alert line has been printed once if at least one of them
    ended with an exception and never otherwise, the failure metric has
    been printed once for each that did, and [alert_sent] tells whether
    one did. *)
Theorem alert_once_metric_each_failure
        {S R : Type} (time_time : S -> Q)
        (ops : list ((S -> result R * S) * string))
        (max_retries_ : Z) (backoff_base_ : Q) (threshold : Z) (s : S) :
  let start := Handler.init max_retries_ backoff_base_ threshold s in
  let failed := Handler.failed_executions time_time ops start in
  let h := Handler.executions time_time ops start in
  alerts h = Nat.min 1 failed
  /\ failure_metrics h = failed
  /\ alert_sent h = (0 <? failed)%nat.
Proof.
  cbv zeta.
  destruct (executions_lines time_time ops
              (Handler.init max_retries_ backoff_base_ threshold s))
    as (Ha & Hm & Hs).
  unfold alerts, failure_metrics in *. cbn in Ha, Hm, Hs.
  repeat split; assumption.
Qed.

(** X17.  The handler does not retry: whatever [max_retries] and
    [backoff_base] are, a sequence of executions enters the operations at
    most once each, and leaves both settings as they were. *)
Theorem handler_never_retries
        {S R : Type} (time_time : S -> Q)
        (ops : list ((S -> result R * S) * string))
        (self : ProductionRetryHandler S) :
  let h := Handler.executions time_time ops self in
  (invoked (circuit_breaker h)
   <= invoked (circuit_breaker self) + List.length ops)%nat
  /\ max_retries h = max_retries self
  /\ backoff_base h = backoff_base self.
Proof.
  cbv zeta. revert self.
  induction ops as [|[operation name] ops IH]; intros self.
  - cbn. repeat split; lia.
  - cbn [Handler.executions List.length].
    destruct (execute_invoked time_time operation name self) as (H1 & H2 & H3).
    destruct (IH (snd (Handler.execute_with_retry time_time operation name
                                                  self)))
      as (I1 & I2 & I3).
    rewrite I2, I3, H2, H3. repeat split. lia.
Qed.

(** X18.  A blocked call is reported as a failure of the operation: on
    an open breaker within its cooldown, the handler raises the breaker's
    own exception without entering the operation, leaves the breaker as it
    was, and still prints the failure metric and the state OPEN (after the
    alert, unless one was sent before). *)
Theorem blocked_execution_is_reported
        {S R : Type} (time_time : S -> Q) (operation : S -> result R * S)
        (name : string) (self : ProductionRetryHandler S) (t : Q) :
  state (breaker (circuit_breaker self)) = OPEN ->
  last_failure_time (breaker (circuit_breaker self)) = Some t ->
  (time_time (env (circuit_breaker self)) - t
   <= timeout (breaker (circuit_breaker self)))%Q ->
  Handler.execute_with_retry time_time operation name self
  = (Raise blocked_error,
     ProductionHandler (max_retries self) (backoff_base self)
       (circuit_breaker self) true
       (printed self
        ++ (if alert_sent self then [] else [Alert name; AlertEmail])
        ++ [MetricFailure name; MetricState name "OPEN"])).
Proof.
  intros Ho Ht Hle. unfold Handler.execute_with_retry, Breaker.call, gate.
  rewrite Ho, Ht, (BreakerFacts.Qgtb_false _ _ Hle). cbv zeta.
  rewrite Ho. reflexivity.
Qed.

Lemma blocked_execution_is_reported_witness :
  Handler.execute_with_retry Demo.clock_time Demo.healthy_service "sync"
    (ProductionHandler 2 1 (Demo.breaker_open_at 103) true [])
  = (Raise blocked_error,
     ProductionHandler 2 1 (Demo.breaker_open_at 103) true
       [MetricFailure "sync"; MetricState "sync" "OPEN"]).
Proof.
  apply (blocked_execution_is_reported Demo.clock_time Demo.healthy_service
           "sync" (ProductionHandler 2 1 (Demo.breaker_open_at 103) true [])
           100);
    [reflexivity|reflexivity|discriminate].
Defined.

End HandlerFacts.

Module DegradationFacts.

Import Degradation.

Section Facts.

Context {S : Type}.
Variable run_query : string -> S -> result rows * S.

(** What the cache or the default gives. *)
Lemma get_data_eq (query : string) (self : GracefulDegradation S) :
  get_data run_query query self
  = if primary_available self then
      match run_query query (database self) with
      | (Ok r, s') =>
          (Ok r, Degraded true (cache_available self) s'
                   (printed self ++ [TryingPrimary] ++ [PrimarySucceeded]))
      | (Raise e, s') =>
          if cache_available self then
            (Ok cache_result,
             Degraded false true s'
               (printed self ++ [TryingPrimary] ++ [PrimaryFailed e]
                  ++ [TryingCache] ++ [CacheSucceeded]))
          else
            (Ok default_result,
             Degraded false false s'
               (printed self ++ [TryingPrimary] ++ [PrimaryFailed e]
                  ++ [UsingDefault]))
      end
    else if cache_available self then
      (Ok cache_result,
       Degraded false true (database self)
         (printed self ++ [TryingCache] ++ [CacheSucceeded]))
    else
      (Ok default_result,
       Degraded false false (database self) (printed self ++ [UsingDefault])).
Proof.
  destruct self as [p c d out].
  unfold get_data, try_primary, query_primary, set_primary_unavailable, print,
    bind, try_except, exec, ret.
  cbn [primary_available cache_available database printed].
  destruct p.
  - destruct (run_query query d) as [[r|e] s']; cbn.
    + rewrite <- !app_assoc. reflexivity.
    + destruct c; cbn; rewrite <- !app_assoc; reflexivity.
  - destruct c; cbn; rewrite <- ?app_assoc; reflexivity.
Qed.

Lemma get_all_unavailable (queries : list string) :
  forall self : GracefulDegradation S,
    primary_available self = false ->
    let fallback :=
      if cache_available self then cache_result else default_result in
    fst (get_all run_query queries self)
    = map (fun _ => Ok fallback) queries
    /\ database (snd (get_all run_query queries self)) = database self
    /\ primary_available (snd (get_all run_query queries self)) = false
    /\ cache_available (snd (get_all run_query queries self))
       = cache_available self.
Proof.
  induction queries as [|q rest IH]; intros self Hp; cbv zeta.
  - cbn. auto.
  - cbn [get_all map]. rewrite get_data_eq, Hp.
    destruct (cache_available self) eqn:Hc.
    + match goal with
      | |- context [get_all run_query rest ?x] =>
          specialize (IH x eq_refl); cbv zeta in IH;
          destruct (get_all run_query rest x) as [rs self2]
      end.
      cbn [fst snd cache_available database] in *.
      destruct IH as (I1 & I2 & I3 & I4). rewrite I1. auto.
    + match goal with
      | |- context [get_all run_query rest ?x] =>
          specialize (IH x eq_refl); cbv zeta in IH;
          destruct (get_all run_query rest x) as [rs self2]
      end.
      cbn [fst snd cache_available database] in *.
      destruct IH as (I1 & I2 & I3 & I4). rewrite I1. auto.
Qed.

End Facts.

(** X19.  [get_data] always answers: whatever the query does on the
    database, the call returns, with the rows of the primary when the
    primary is switched on and the query went through, and otherwise with
    the cached row when the cache is switched on, else with the default
    row; the cache switch is never changed. *)
Theorem get_data_always_answers
        {S : Type} (run_query : string -> S -> result rows * S)
        (query : string) (self : GracefulDegradation S) :
  fst (get_data run_query query self)
  = Ok (match primary_available self, fst (run_query query (database self))
        with
        | true, Ok r => r
        | _, _ => if cache_available self then cache_result
                  else default_result
        end)
  /\ cache_available (snd (get_data run_query query self))
     = cache_available self.
Proof.
  rewrite get_data_eq.
  destruct (primary_available self).
  - destruct (run_query query (database self)) as [[r|e] s']; cbn [fst].
    + auto.
    + destruct (cache_available self); auto.
  - destruct (cache_available self); auto.
Qed.

(** X20.  One failure switches the primary off for good: when the query
    of a call raises on the primary, that call and every later one are
    answered from the cache (or with the default row when the cache is
    off), no later query reaches the database, and the primary stays
    switched off. *)
Theorem failed_primary_is_abandoned
        {S : Type} (run_query : string -> S -> result rows * S)
        (query : string) (later : list string)
        (self : GracefulDegradation S) (e : exn) (s' : S) :
  primary_available self = true ->
  run_query query (database self) = (Raise e, s') ->
  let fallback :=
    if cache_available self then cache_result else default_result in
  fst (get_all run_query (query :: later) self)
  = map (fun _ => Ok fallback) (query :: later)
  /\ database (snd (get_all run_query (query :: later) self)) = s'
  /\ primary_available (snd (get_all run_query (query :: later) self))
     = false.
Proof.
  intros Hp Hq. cbv zeta. cbn [get_all map].
  rewrite get_data_eq, Hp, Hq.
  destruct (cache_available self) eqn:Hc.
  - match goal with
    | |- context [get_all run_query later ?x] =>
        pose proof (get_all_unavailable run_query later x eq_refl) as IH;
        cbv zeta in IH; destruct (get_all run_query later x) as [rs self2]
    end.
    cbn [fst snd cache_available database] in *.
    destruct IH as (I1 & I2 & I3 & _). rewrite I1. auto.
  - match goal with
    | |- context [get_all run_query later ?x] =>
        pose proof (get_all_unavailable run_query later x eq_refl) as IH;
        cbv zeta in IH; destruct (get_all run_query later x) as [rs self2]
    end.
    cbn [fst snd cache_available database] in *.
    destruct IH as (I1 & I2 & I3 & _). rewrite I1. auto.
Qed.

Lemma failed_primary_is_abandoned_witness :
  fst (get_all Demo.refusing ["q1"; "q2"; "q3"] Demo.degradation_start)
  = [Ok cache_result; Ok cache_result; Ok cache_result]
  /\ database (snd (get_all Demo.refusing ["q1"; "q2"; "q3"]
                            Demo.degradation_start)) = 1%nat
  /\ primary_available (snd (get_all Demo.refusing ["q1"; "q2"; "q3"]
                                     Demo.degradation_start)) = false.
Proof.
  apply (failed_primary_is_abandoned Demo.refusing "q1" ["q2"; "q3"]
           Demo.degradation_start
           (Exn "OperationalError" "connection lost") 1%nat);
    reflexivity.
Defined.

End DegradationFacts.

(** ** More on the robust logger and the recovery of its fallback file *)

Module LoggingMore.

Import Logging LoggingFacts.

(** X30.  [log] with the metadata given as keywords, none of them named
    like a parameter, returns without raising, whatever the level, the
    message, the metadata and the state of the three sinks.  The sinks
    are tried in the order database, fallback file, critical file, and
    the first that accepts the record ends the call: with a working
    database the row is committed there and no file is touched; with a
    failing database the connection is left alone and the JSON text of
    the entry is appended to the fallback file when the encoder accepts
    the entry and the file can be written; otherwise the fallback file
    is left alone and the short line goes to the critical file, or, when
    that fails too, to standard error.  The entry sent to the fallback
    file holds the timestamp, level, message, pipeline name and run id
    of the call. *)
Theorem keyword_log_never_raises
        (json_dumps : pyval -> string) (self : RobustLogger)
        (now_iso level_ message_ : string) (metadata_ : dict) (w : world) :
  let entry := make_entry self now_iso level_ message_ metadata_ in
  existsb names_parameter metadata_ = false ->
  exists w',
    log json_dumps self now_iso level_ message_ [] metadata_ w = (Ok tt, w')
    /\ (db_fault (conn w) = None ->
        conn w'
        = Connection None []
            (committed (conn w) ++ pending (conn w)
               ++ [LogRow (VStr now_iso) (VStr level_) (VStr message_)
                          (VStr (self_pipeline_name self))
                          (VStr (self_run_id self))
                          (json_dumps (default_str (VDict metadata_)))])
        /\ fallback_log w' = fallback_log w
        /\ critical_log w' = critical_log w
        /\ stderr w' = stderr w
        /\ stdout w' = (stdout w ++ [("Database log: " ++ message_)%string])%list)
    /\ (forall e1,
          db_fault (conn w) = Some e1 ->
          conn w' = conn w
          /\ (serializable (VDict metadata_) = true ->
              file_fault (fallback_log w) = None ->
              fallback_log w'
              = File true None
                  (lines (fallback_log w) ++ [json_dumps entry ++ newline])
              /\ critical_log w' = critical_log w
              /\ stderr w' = stderr w
              /\ stdout w'
                 = (stdout w
                      ++ [("Database logging failed: " ++ exn_msg e1)%string;
                          ("File log fallback: " ++ message_)%string])%list)
          /\ (serializable (VDict metadata_) = false
              \/ file_fault (fallback_log w) <> None ->
              fallback_log w' = fallback_log w
              /\ (file_fault (critical_log w) = None ->
                  critical_log w'
                  = File true None
                      (lines (critical_log w)
                         ++ [critical_line now_iso level_ message_])
                  /\ stderr w' = stderr w
                  /\ exists e2,
                       stdout w'
                       = (stdout w
                            ++ [("Database logging failed: " ++ exn_msg e1)%string;
                                ("File logging failed: " ++ exn_msg e2)%string;
                                ("Critical log fallback: " ++ message_)%string])%list)
              /\ (forall e3,
                    file_fault (critical_log w) = Some e3 ->
                    critical_log w' = critical_log w
                    /\ stderr w' = (stderr w ++ [("CRITICAL: " ++ message_)%string])%list
                    /\ exists e2,
                         stdout w'
                         = (stdout w
                              ++ [("Database logging failed: " ++ exn_msg e1)%string;
                                  ("File logging failed: " ++ exn_msg e2)%string;
                                  ("All logging failed: " ++ exn_msg e3)%string])%list)))
    /\ subscript entry "timestamp" = Ok (VStr now_iso)
    /\ subscript entry "level" = Ok (VStr level_)
    /\ subscript entry "message" = Ok (VStr message_)
    /\ subscript entry "pipeline_name" = Ok (VStr (self_pipeline_name self))
    /\ subscript entry "run_id" = Ok (VStr (self_run_id self)).
Proof.
  cbv zeta. intros Hkw.
  rewrite (log_keywords json_dumps self now_iso level_ message_ metadata_ Hkw).
  unfold log_body, bind.
  destruct (db_fault (conn w)) as [e1|] eqn:Hdb.
  - rewrite (database_sink_down json_dumps self now_iso level_ message_
               metadata_ w e1 Hdb).
    set (w1 := World (conn w) (fallback_log w) (critical_log w) _ (stderr w)).
    destruct (serializable (VDict metadata_)) eqn:Hs;
      [destruct (file_fault (fallback_log w)) as [e2|] eqn:Hf|].
    + destruct (file_sink_down json_dumps self now_iso level_ message_
                  metadata_ w1) as (e & E);
        [right; cbn; rewrite Hf; discriminate|].
      rewrite E, critical_sink. cbn [critical_log conn fallback_log stdout stderr w1].
      destruct (file_fault (critical_log w)) as [e3|] eqn:Hc;
        (eexists; split; [reflexivity|]);
        (split; [discriminate|]);
        (split; [|repeat split; reflexivity]);
        intros e1' He1; inversion He1; subst e1'; cbn;
        (split; [reflexivity|]);
        (split; [discriminate|]);
        intros _; (split; [reflexivity|]);
        split; try discriminate.
      * intros e3' He3. inversion He3; subst e3'.
        rewrite <- !app_assoc. cbn. eauto.
      * intros _. rewrite <- !app_assoc. cbn. eauto.
    + rewrite (file_sink_up json_dumps self now_iso level_ message_
                 metadata_ w1 Hs Hf).
      eexists. split; [reflexivity|]. split; [discriminate|].
      split; [|repeat split; reflexivity].
      intros e1' He1. inversion He1; subst e1'. cbn.
      split; [reflexivity|]. split.
      * intros _ _. rewrite <- !app_assoc. cbn. auto.
      * intros [H|H]; [discriminate|contradiction].
    + destruct (file_sink_down json_dumps self now_iso level_ message_
                  metadata_ w1) as (e & E); [left; assumption|].
      rewrite E, critical_sink. cbn [critical_log conn fallback_log stdout stderr w1].
      destruct (file_fault (critical_log w)) as [e3|] eqn:Hc;
        (eexists; split; [reflexivity|]);
        (split; [discriminate|]);
        (split; [|repeat split; reflexivity]);
        intros e1' He1; inversion He1; subst e1'; cbn;
        (split; [reflexivity|]);
        (split; [discriminate|]);
        intros _; (split; [reflexivity|]);
        split; try discriminate.
      * intros e3' He3. inversion He3; subst e3'.
        rewrite <- !app_assoc. cbn. eauto.
      * intros _. rewrite <- !app_assoc. cbn. eauto.
  - rewrite (database_sink_up json_dumps self now_iso level_ message_
               metadata_ w Hdb).
    eexists. split; [reflexivity|]. cbn.
    split; [auto|]. split; [discriminate|]. repeat split; reflexivity.
Qed.

Lemma keyword_log_never_raises_witness :
  exists w',
    log Demo.plain_dumps init "2024-01-01T10:00:00Z" "WARNING"
        "Database down, using file fallback" [] [("fallback", VStr "file")]
        Demo.database_down
    = (Ok tt, w')
    /\ conn w' = Demo.closed_connection
    /\ fallback_log w' = File true None [Demo.line_a].
Proof.
  destruct (keyword_log_never_raises
              Demo.plain_dumps init "2024-01-01T10:00:00Z" "WARNING"
              "Database down, using file fallback" [("fallback", VStr "file")]
              Demo.database_down eq_refl)
    as (w' & E & _ & H & _).
  exists w'. split; [exact E|].
  destruct (H _ eq_refl) as (Hc & Hfile & _).
  destruct (Hfile eq_refl eq_refl) as (Hf & _).
  split; [exact Hc | exact Hf].
Defined.

Section Recovery.

Variable json_dumps : pyval -> string.
Variable json_loads : string -> result pyval.

Local Abbreviation recover_lines := (Logging.recover_lines json_dumps json_loads).
Local Abbreviation recoverable := (Logging.recoverable json_dumps json_loads).
Local Abbreviation line_row := (Logging.line_row json_dumps json_loads).
Local Abbreviation recover_file_logs :=
  (Logging.recover_file_logs json_dumps json_loads).

(** The loop only ever adds pending rows. *)
Lemma recover_lines_frame (ls : list string) :
  forall (n : Z) (w : world),
  exists rows,
    snd (recover_lines ls n w)
    = World (Connection (db_fault (conn w)) (pending (conn w) ++ rows)%list
                        (committed (conn w)))
            (fallback_log w) (critical_log w) (stdout w) (stderr w).
Proof.
  induction ls as [|line rest IH]; intros n w.
  - exists []. destruct w as [[f p c] fl cl so se]. cbn.
    now rewrite app_nil_r.
  - cbn [Logging.recover_lines].
    assert (Hstay : exists rows : list log_row,
               w = World (Connection (db_fault (conn w))
                                     (pending (conn w) ++ rows)%list
                                     (committed (conn w)))
                         (fallback_log w) (critical_log w) (stdout w)
                         (stderr w)).
    { exists []. destruct w as [[f p c] fl cl so se]. cbn.
      now rewrite app_nil_r. }
    destruct (strip_truthy line); [|apply IH].
    unfold bind at 1, pure at 1.
    destruct (json_loads line) as [v|e]; [|exact Hstay].
    unfold bind at 1, insert_entry, bind at 1, pure at 1.
    destruct (entry_row json_dumps v) as [r|e]; [|exact Hstay].
    unfold execute_insert.
    destruct (db_fault (conn w)) as [e|] eqn:Hdb; [exact Hstay|].
    destruct (IH (n + 1)
                 (World (Connection None (pending (conn w) ++ [r])%list
                                    (committed (conn w)))
                        (fallback_log w) (critical_log w) (stdout w)
                        (stderr w))) as [rows Hrows].
    exists (r :: rows). rewrite Hrows. cbn. now rewrite <- app_assoc.
Qed.

Lemma recoverable_app (l1 l2 : list string) (r1 r2 : list log_row) :
  recoverable l1 = Some r1 ->
  recoverable l2 = Some r2 ->
  recoverable (l1 ++ l2)%list = Some (r1 ++ r2)%list.
Proof.
  revert r1. induction l1 as [|line l1 IH]; intros r1 H1 H2.
  - cbn in H1. inversion H1; subst. exact H2.
  - cbn [Logging.recoverable app] in *.
    destruct (strip_truthy line).
    + destruct (Logging.line_row json_dumps json_loads line) as [r|e];
        [|discriminate].
      destruct (recoverable l1) as [rs|]; [|discriminate].
      inversion H1; subst. now rewrite (IH rs eq_refl H2).
    + now apply IH.
Qed.

(** A readable file whose lines all decode, on a working connection. *)
Lemma recover_clean (f : file) (w : world) (rows : list log_row) :
  present f = true ->
  file_fault f = None ->
  db_fault (conn w) = None ->
  recoverable (lines f) = Some rows ->
  recover_file_logs f w
  = (Ok tt,
     World (Connection None []
                       (committed (conn w) ++ pending (conn w) ++ rows)%list)
           (fallback_log w) (critical_log w)
           (stdout w
              ++ [("Recovered " ++ str_int (Z.of_nat (List.length rows))
                     ++ " log entries to database")%string])%list
           (stderr w)).
Proof.
  intros Hp Hf Hdb Hr. unfold Logging.recover_file_logs. rewrite Hp.
  cbn [negb]. unfold open_read. rewrite Hf.
  unfold try_except, bind at 1, ret at 1, bind at 1.
  rewrite (recover_lines_clean json_dumps json_loads _ 0 w rows Hdb Hr).
  unfold bind, commit, print, exec. cbn. reflexivity.
Qed.

End Recovery.

(** X21.  [recover_file_logs] never raises and never loses anything:
    whatever the file (missing, unreadable, torn) and whatever the
    connection does, it returns, prints exactly one line, leaves both log
    files and standard error as they were, and keeps every row that was
    committed before, in place. *)
Theorem recover_file_logs_never_raises
        (json_dumps : pyval -> string) (json_loads : string -> result pyval)
        (f : file) (w : world) :
  exists w' message_ added,
    recover_file_logs json_dumps json_loads f w = (Ok tt, w')
    /\ stdout w' = (stdout w ++ [message_])%list
    /\ fallback_log w' = fallback_log w
    /\ critical_log w' = critical_log w
    /\ stderr w' = stderr w
    /\ committed (conn w') = (committed (conn w) ++ added)%list.
Proof.
  unfold recover_file_logs.
  destruct (present f); cbn [negb].
  - unfold try_except, open_read.
    destruct (file_fault f) as [e|].
    + unfold bind at 1, raise at 1, print, exec.
      eexists _, _, []. cbn. rewrite app_nil_r. repeat split.
    + unfold bind at 1, ret at 1, bind at 1.
      destruct (recover_lines_frame json_dumps json_loads (lines f) 0 w)
        as [rows Hrows].
      destruct (Logging.recover_lines json_dumps json_loads (lines f) 0 w)
        as [[n|e] w1]; cbn [snd] in Hrows; subst w1.
      * unfold bind at 1, commit. cbn [conn db_fault].
        destruct (db_fault (conn w)) as [e|].
        -- unfold print, exec. eexists _, _, []. cbn.
           rewrite app_nil_r. repeat split.
        -- unfold bind, print, exec. eexists _, _, _. cbn. repeat split.
      * unfold print, exec. eexists _, _, []. cbn.
        rewrite app_nil_r. repeat split.
  - unfold print, exec. eexists _, _, []. cbn. rewrite app_nil_r.
    repeat split.
Qed.

(** X22.  Recovery is not idempotent: it neither empties the file nor
    looks for rows already present, so recovering the same clean file a
    second time commits every one of its rows a second time. *)
Theorem recovery_twice_duplicates_rows
        (json_dumps : pyval -> string) (json_loads : string -> result pyval)
        (f : file) (w : world) (rows : list log_row) :
  present f = true ->
  file_fault f = None ->
  db_fault (conn w) = None ->
  recoverable json_dumps json_loads (lines f) = Some rows ->
  let once := snd (recover_file_logs json_dumps json_loads f w) in
  let twice := snd (recover_file_logs json_dumps json_loads f once) in
  conn once
  = Connection None [] (committed (conn w) ++ pending (conn w) ++ rows)%list
  /\ conn twice
     = Connection None []
         (committed (conn w) ++ pending (conn w) ++ rows ++ rows)%list.
Proof.
  intros Hp Hf Hdb Hr. cbv zeta.
  rewrite (recover_clean json_dumps json_loads f w rows Hp Hf Hdb Hr).
  cbn [snd]. split; [reflexivity|].
  match goal with
  | |- conn (snd (recover_file_logs _ _ f ?w1)) = _ =>
      rewrite (recover_clean json_dumps json_loads f w1 rows Hp Hf eq_refl Hr)
  end.
  cbn. now rewrite <- !app_assoc.
Qed.

Lemma recovery_twice_duplicates_rows_witness :
  conn (snd (recover_file_logs Demo.plain_dumps Demo.sample_loads
               Demo.clean_file Demo.database_up))
  = Connection None [] [Demo.row_a; Demo.row_b]
  /\ conn (snd (recover_file_logs Demo.plain_dumps Demo.sample_loads
                  Demo.clean_file
                  (snd (recover_file_logs Demo.plain_dumps Demo.sample_loads
                          Demo.clean_file Demo.database_up))))
     = Connection None [] [Demo.row_a; Demo.row_b; Demo.row_a; Demo.row_b].
Proof.
  apply (recovery_twice_duplicates_rows Demo.plain_dumps Demo.sample_loads
           Demo.clean_file Demo.database_up [Demo.row_a; Demo.row_b]);
    reflexivity.
Defined.

(** X23.  The fallback file gives back what the database missed: when
    [log] is called with keyword metadata (none named like a parameter),
    the database is down and the record goes to the fallback file, and
    the decoder reads the written line back as the entry, a later
    recovery of that file on a new connection commits, after the rows of
    the lines that were in the file before, exactly the row a working
    database would have received from [log] itself. *)
Theorem fallback_record_is_recovered
        (json_dumps : pyval -> string) (json_loads : string -> result pyval)
        (self : RobustLogger) (now_iso level_ message_ : string)
        (metadata_ : dict) (w : world) (e : exn) (earlier : list log_row) :
  let entry := make_entry self now_iso level_ message_ metadata_ in
  db_fault (conn w) = Some e ->
  file_fault (fallback_log w) = None ->
  serializable (VDict metadata_) = true ->
  recoverable json_dumps json_loads (lines (fallback_log w)) = Some earlier ->
  strip_truthy (json_dumps entry ++ newline) = true ->
  json_loads (json_dumps entry ++ newline) = Ok entry ->
  existsb names_parameter metadata_ = false ->
  let logged :=
    snd (log json_dumps self now_iso level_ message_ [] metadata_ w) in
  conn (snd (recover_file_logs json_dumps json_loads (fallback_log logged)
               (reconnect logged)))
  = Connection None []
      (committed (conn w) ++ earlier
         ++ [LogRow (VStr now_iso) (VStr level_) (VStr message_)
                    (VStr (self_pipeline_name self)) (VStr (self_run_id self))
                    (json_dumps (default_str (VDict metadata_)))])%list.
Proof.
  intros entry Hdb Hf Hs Hearlier Hstrip Hloads Hkw. cbv zeta.
  assert (Hlog :
            log json_dumps self now_iso level_ message_ [] metadata_ w
            = (Ok tt,
               World (conn w)
                     (File true None
                           (lines (fallback_log w)
                              ++ [(json_dumps entry ++ newline)%string])%list)
                     (critical_log w)
                     ((stdout w
                         ++ [("Database logging failed: " ++ exn_msg e)%string])
                        ++ [("File log fallback: " ++ message_)%string])%list
                     (stderr w))).
  { rewrite (log_keywords json_dumps self now_iso level_ message_ metadata_
               Hkw).
    unfold log_body. unfold bind at 1.
    rewrite (database_sink_down json_dumps self now_iso level_ message_
               metadata_ w e Hdb).
    unfold bind at 1.
    rewrite (file_sink_up json_dumps self now_iso level_ message_ metadata_)
      by (cbn; assumption).
    reflexivity. }
  rewrite Hlog. cbn [snd fallback_log].
  set (f := File true None _).
  assert (Hr : recoverable json_dumps json_loads (lines f)
               = Some (earlier
                         ++ [LogRow (VStr now_iso) (VStr level_)
                               (VStr message_)
                               (VStr (self_pipeline_name self))
                               (VStr (self_run_id self))
                               (json_dumps (default_str (VDict metadata_)))])%list).
  { unfold f. cbn [lines]. apply recoverable_app; [exact Hearlier|].
    cbn [recoverable]. rewrite Hstrip. unfold line_row.
    rewrite Hloads. reflexivity. }
  match goal with
  | |- conn (snd (recover_file_logs _ _ f ?w1)) = _ =>
      rewrite (recover_clean json_dumps json_loads f w1 _ eq_refl eq_refl
                 eq_refl Hr)
  end.
  reflexivity.
Qed.

Lemma fallback_record_is_recovered_witness :
  conn (snd (recover_file_logs Demo.plain_dumps Demo.sample_loads
               (fallback_log
                  (snd (log Demo.plain_dumps init "2024-01-01T10:00:00Z"
                          "WARNING" "Database down, using file fallback"
                          [] [("fallback", VStr "file")] Demo.database_down)))
               (reconnect
                  (snd (log Demo.plain_dumps init "2024-01-01T10:00:00Z"
                          "WARNING" "Database down, using file fallback"
                          [] [("fallback", VStr "file")] Demo.database_down)))))
  = Connection None [] [Demo.row_a].
Proof.
  apply (fallback_record_is_recovered Demo.plain_dumps Demo.sample_loads init
           "2024-01-01T10:00:00Z" "WARNING"
           "Database down, using file fallback" [("fallback", VStr "file")]
           Demo.database_down
           (Exn "InterfaceError" "connection already closed") []);
    reflexivity.
Defined.

End LoggingMore.

(** ** More on the idempotent pipeline *)

Module IdempotentMore.

Import Idempotent IdempotentFacts.

Lemma find_of_key (k : string) (t : list month_row) :
  In k (map month_key t) -> exists r, find (has_key k) t = Some r.
Proof.
  induction t as [|r t IH]; intros Hin; [contradiction|].
  cbn [find]. destruct (has_key k r) eqn:Hk; [now exists r|].
  destruct Hin as [Heq|Hin]; [|now apply IH].
  unfold has_key in Hk. rewrite Heq, String.eqb_refl in Hk. discriminate.
Qed.

Lemma filter_all_rejected {A : Type} (f : A -> bool) (l : list A) :
  (forall x, In x l -> f x = false) -> filter f l = [].
Proof.
  induction l as [|x l IH]; intros H; [reflexivity|].
  cbn [filter]. rewrite (H x (or_introl eq_refl)).
  apply IH. intros y Hy. apply H. now right.
Qed.

Section Facts.

Variable B : Type.
Variable random_random : nat -> Q.
Variable gold_sql : Z -> Z -> B -> result Z * B.
Variable rollback : B -> B.
Variable distinct_months : B -> list (Z * Z).

Local Abbreviation db := (Idempotent.db B).
Local Abbreviation world := (Idempotent.world B).
Local Abbreviation status_of := (Idempotent.status_of B).
Local Abbreviation sweep := (Idempotent.sweep B random_random gold_sql rollback).
Local Abbreviation main :=
  (Idempotent.main B random_random gold_sql rollback distinct_months).
Local Abbreviation process_month_gold :=
  (Idempotent.process_month_gold B random_random gold_sql rollback).
Local Abbreviation process_month_gold_body :=
  (Idempotent.process_month_gold_body B gold_sql rollback).

Lemma body_ok (y m : Z) (d : db) (n : Z) (b' : B) :
  gold_sql y m (biz d) = (Ok n, b') ->
  process_month_gold_body y m d
  = (Ok [("success", VBool true); ("rows", VInt n)],
     Db b' (db_up d) (processed_months d)
        (log d ++ [ProcessedMonth y m n]) (printed d) (clock d)).
Proof.
  intros H.
  unfold Idempotent.process_month_gold_body, try_except, bind, run_gold_sql,
    logger, exec, ret.
  rewrite H. reflexivity.
Qed.

Lemma body_fail (y m : Z) (d : db) (e : exn) (b' : B) :
  gold_sql y m (biz d) = (Raise e, b') ->
  process_month_gold_body y m d
  = (Raise e,
     Db (rollback b') (db_up d) (processed_months d)
        (log d ++ [ErrorProcessing y m e]) (printed d) (clock d)).
Proof.
  intros H.
  unfold Idempotent.process_month_gold_body, try_except, bind, run_gold_sql,
    conn_rollback, logger, exec, raise.
  rewrite H. reflexivity.
Qed.

Lemma process_ok (y m : Z) (w : world) (n : Z) (b' : B) :
  gold_sql y m (biz (Retry.store w)) = (Ok n, b') ->
  process_month_gold y m w
  = (Ok [("success", VBool true); ("rows", VInt n)],
     Retry.World
       (Db b' (db_up (Retry.store w)) (processed_months (Retry.store w))
           (log (Retry.store w) ++ [ProcessedMonth y m n])
           (printed (Retry.store w)) (clock (Retry.store w)))
       (Retry.draws w) (Retry.trace w ++ [Retry.Invoke])).
Proof.
  intros H.
  unfold Idempotent.process_month_gold, retry_with_backoff.
  change (Z.to_nat 3) with 3%nat. cbn [attempts].
  rewrite (body_ok y m (Retry.store w) n b' H). reflexivity.
Qed.


(** The statement fails at each of the three attempts. *)
Lemma process_exhausted (y m : Z) (w : world) (e1 e2 e3 : exn)
      (b1 b2 b3 : B) :
  gold_sql y m (biz (Retry.store w)) = (Raise e1, b1) ->
  gold_sql y m (rollback b1) = (Raise e2, b2) ->
  gold_sql y m (rollback b2) = (Raise e3, b3) ->
  let d0 := Retry.delay_of 1 0 (random_random (Retry.draws w)) in
  let d1 := Retry.delay_of 1 1 (random_random (Datatypes.S (Retry.draws w))) in
  process_month_gold y m w
  = (Raise e3,
     Retry.World
       (Db (rollback b3) (db_up (Retry.store w))
           (processed_months (Retry.store w))
           (log (Retry.store w)
              ++ [ErrorProcessing y m e1; RetryWarning 1 3 d0 e1;
                  ErrorProcessing y m e2; RetryWarning 2 3 d1 e2;
                  ErrorProcessing y m e3])
           (printed (Retry.store w)) (clock (Retry.store w)))
       (Datatypes.S (Datatypes.S (Retry.draws w)))
       (Retry.trace w
          ++ [Retry.Invoke; Retry.Sleep d0; Retry.Invoke; Retry.Sleep d1;
              Retry.Invoke])).
Proof.
  intros H1 H2 H3. cbv zeta.
  destruct w as [[b up t l p c] dr tr].
  cbn [Retry.store Retry.draws Retry.trace biz db_up processed_months log
       printed clock] in *.
  unfold Idempotent.process_month_gold, retry_with_backoff.
  change (Z.to_nat 3) with 3%nat. cbn [attempts].
  cbn [Retry.store Retry.draws Retry.trace].
  erewrite body_fail; [|cbn [biz]; exact H1].
  change (0 <? 3 - 1) with true. cbv iota.
  cbn [Retry.store Retry.draws Retry.trace logger exec snd biz db_up
       processed_months log printed clock].
  unfold logger, exec. cbn [snd biz db_up processed_months log printed clock].
  erewrite body_fail; [|cbn [biz]; exact H2].
  change (0 + 1 <? 3 - 1) with true. cbv iota.
  cbn [Retry.store Retry.draws Retry.trace snd biz db_up
       processed_months log printed clock].
  erewrite body_fail; [|cbn [biz]; exact H3].
  change (0 + 1 + 1 <? 3 - 1) with false. cbv iota.
  cbn [Retry.store Retry.draws Retry.trace snd biz db_up
       processed_months log printed clock].
  rewrite <- !app_assoc. reflexivity.
Qed.


Lemma Retry_invocations_one (t : list Retry.event) :
  Retry.invocations (t ++ [Retry.Invoke])
  = Datatypes.S (Retry.invocations t).
Proof.
  unfold Retry.invocations. rewrite filter_app, length_app. cbn. lia.
Qed.

(** A sweep over months whose statement goes through. *)
Lemma sweep_succeeds (ms : list (Z * Z)) :
  (forall y m b, exists n b', gold_sql y m b = (Ok n, b')) ->
  (forall y m b, distinct_months (snd (gold_sql y m b)) = distinct_months b) ->
  forall (total : Z) (w : world),
  exists total' w',
    sweep ms total w = (Ok total', w')
    /\ distinct_months (biz (Retry.store w'))
       = distinct_months (biz (Retry.store w))
    /\ db_up (Retry.store w') = db_up (Retry.store w)
    /\ Retry.invocations (Retry.trace w')
       = (Retry.invocations (Retry.trace w) + List.length ms)%nat
    /\ (forall k,
          (exists y m, In (y, m) ms /\ key_of y m = k) ->
          status_of k (Retry.store w') = Some "completed").
Proof.
  intros Hgold Hsilver.
  induction ms as [|[y m] rest IH]; intros total w.
  - exists total, w. cbn [Idempotent.sweep List.length]. unfold ret.
    repeat split; try lia.
    intros k (y & m & [] & _).
  - rewrite (sweep_step B random_random gold_sql rollback). cbv zeta.
    rewrite (set_month_processed_eq B y m "in_progress"). cbn [snd].
    destruct (Hgold y m (biz (Retry.store w))) as (n & b' & Hg).
    erewrite process_ok; [|cbn [Retry.store biz]; exact Hg].
    cbn [Retry.store Retry.draws Retry.trace biz db_up processed_months log
         printed clock].
    rewrite (set_month_processed_eq B y m "completed"). cbn [snd].
    cbn [Retry.store Retry.draws Retry.trace biz db_up processed_months log
         printed clock].
    match goal with
    | |- context [Idempotent.sweep _ _ _ _ rest ?t1 ?w1] =>
        destruct (IH t1 w1) as (total' & w' & Hsw & Hd & Hu & Hi & Hst);
        pose proof (untouched_sweep B random_random gold_sql rollback) as Hun;
        specialize (fun k H => Hun k rest H t1 w1);
        rewrite Hsw in *; clear Hsw
    end.
    cbn [Retry.store Retry.draws Retry.trace biz db_up processed_months log
         printed clock snd] in *.
    exists total', w'. split; [reflexivity|].
    split.
    { rewrite Hd. pose proof (Hsilver y m (biz (Retry.store w))) as Hs.
      rewrite Hg in Hs. exact Hs. }
    split; [exact Hu|].
    split.
    { rewrite Hi, Retry_invocations_one. cbn [List.length]. lia. }
    intros k Hk.
    destruct (existsb (fun ym => String.eqb (key_of (fst ym) (snd ym)) k) rest)
      eqn:Hex.
    + apply existsb_exists in Hex as ([y2 m2] & Hin & Heq).
      cbn [fst snd] in Heq. apply String.eqb_eq in Heq.
      apply Hst. now exists y2, m2.
    + assert (Hne : forall y2 m2, In (y2, m2) rest -> key_of y2 m2 <> k).
      { intros y2 m2 Hin Heq.
        assert (existsb (fun ym => String.eqb (key_of (fst ym) (snd ym)) k)
                        rest = true) as Ht.
        { apply existsb_exists. exists (y2, m2). split; [exact Hin|].
          cbn [fst snd]. now apply String.eqb_eq. }
        rewrite Ht in Hex. discriminate. }
      destruct Hk as (y2 & m2 & [Heq|Hin] & Hkey);
        [|exfalso; now apply (Hne y2 m2)].
      inversion Heq; subst y2 m2. subst k.
      rewrite (untouched_status B _ _ _ (Hun _ Hne)).
      unfold Idempotent.status_of. cbn [processed_months].
      destruct (find_upsert_same y m "completed" (clock (Retry.store w) + 1)
                  (upsert_month y m "in_progress" (clock (Retry.store w))
                     (processed_months (Retry.store w))))
        as (r & Hf & Hs).
      rewrite Hf, Hs. reflexivity.
Qed.


Lemma print_dry_run_eq (ms : list (Z * Z)) (d : db) :
  print_dry_run B ms d
  = (Ok tt,
     Db (biz d) (db_up d) (processed_months d) (log d)
        (printed d
           ++ "DRY RUN - Would process the following months:"
           :: map (fun ym => ("  " ++ key_of (fst ym) (snd ym))%string) ms)
        (clock d)).
Proof.
  unfold print_dry_run, bind at 1, print at 1, exec.
  cbn [biz db_up processed_months log printed clock].
  set (header := "DRY RUN - Would process the following months:").
  generalize (printed d) as out. generalize header as h. clear header.
  induction ms as [|ym ms IH]; intros h out.
  - cbn. reflexivity.
  - cbn [fold_right map]. unfold bind at 1, print at 1, exec.
    cbn [biz db_up processed_months log printed clock].
    rewrite IH. rewrite <- !app_assoc. reflexivity.
Qed.

(** The log records every run starts with, when the database answers. *)
Local Abbreviation opening a all_months :=
  [StartingRun;
   RunEvent (arg_year a) (arg_month a) (arg_reset a) (arg_dry_run a);
   Connected; FoundDistinct (List.length all_months)].

Local Abbreviation logged w l :=
  (Retry.World
     (Db (biz (Retry.store w)) (db_up (Retry.store w))
         (processed_months (Retry.store w)) (List.app (log (Retry.store w)) l)
         (printed (Retry.store w)) (clock (Retry.store w)))
     (Retry.draws w) (Retry.trace w)).

(** [main] without [--reset] on a database that answers. *)
Lemma main_eq (a : args) (w : world) :
  arg_reset a = false ->
  db_up (Retry.store w) = true ->
  let all_months := distinct_months (biz (Retry.store w)) in
  let ms :=
    unprocessed (order_by (map month_key (processed_months (Retry.store w))))
                (filter_args a all_months) in
  main a w
  = match ms with
    | [] => (Ok tt, logged w (opening a all_months ++ [NoNewMonths])%list)
    | _ :: _ =>
        let started :=
          (opening a all_months ++ [ProcessingUnprocessed (List.length ms)])%list in
        if arg_dry_run a then
          (Ok tt,
           Retry.World
             (Db (biz (Retry.store w)) (db_up (Retry.store w))
                 (processed_months (Retry.store w))
                 (log (Retry.store w) ++ started)%list
                 (printed (Retry.store w)
                    ++ "DRY RUN - Would process the following months:"
                    :: map (fun ym => ("  " ++ key_of (fst ym) (snd ym))%string)
                           ms)%list
                 (clock (Retry.store w)))
             (Retry.draws w) (Retry.trace w))
        else
          match sweep ms 0 (logged w started) with
          | (Ok total, w') => (Ok tt, logged w' [PipelineCompleted total])
          | (Raise e, w') => (Raise system_exit, logged w' [PipelineFailed e])
          end
    end.
Proof.
  intros Hr Hup. cbv zeta.
  destruct w as [[b up t l p c] dr tr].
  cbn [Retry.store Retry.draws Retry.trace biz db_up processed_months log
       printed clock] in *. subst up.
  unfold Idempotent.main, try_except, bind, on_db, connect,
    get_processed_months, get_distinct_months, logger, exec, ret, raise.
  rewrite Hr.
  cbn -[Idempotent.sweep Idempotent.unprocessed order_by
        Idempotent.filter_args Idempotent.print_dry_run].
  cbn [Retry.store Retry.draws Retry.trace biz db_up processed_months
       log printed clock fst snd].
  destruct (unprocessed _ _) as [|ym ms] eqn:Hu.
  - cbn [Retry.store Retry.draws Retry.trace biz db_up processed_months
         log printed clock fst snd].
    rewrite <- !app_assoc. reflexivity.
  - cbn [Retry.store Retry.draws Retry.trace biz db_up processed_months
         log printed clock fst snd].
    destruct (arg_dry_run a).
    + rewrite print_dry_run_eq.
      cbn [Retry.store Retry.draws Retry.trace biz db_up processed_months
           log printed clock fst snd].
      rewrite <- !app_assoc. reflexivity.
    + rewrite <- !app_assoc. cbn [app].
      match goal with
      | |- context [Idempotent.sweep B random_random gold_sql rollback ?l0 0 ?w0] =>
          destruct (Idempotent.sweep B random_random gold_sql rollback l0 0 w0)
            as [[total|e] [[b' up' t' l' p' c'] dr' tr']]
      end; reflexivity.
Qed.


(** A first run that meets no failure. *)
Lemma main_succeeds (a : args) (w : world) :
  arg_reset a = false ->
  arg_dry_run a = false ->
  db_up (Retry.store w) = true ->
  (forall y m b, exists n b', gold_sql y m b = (Ok n, b')) ->
  (forall y m b, distinct_months (snd (gold_sql y m b)) = distinct_months b) ->
  let ms :=
    unprocessed (order_by (map month_key (processed_months (Retry.store w))))
                (filter_args a (distinct_months (biz (Retry.store w)))) in
  exists w1,
    main a w = (Ok tt, w1)
    /\ distinct_months (biz (Retry.store w1))
       = distinct_months (biz (Retry.store w))
    /\ db_up (Retry.store w1) = true
    /\ Retry.invocations (Retry.trace w1)
       = (Retry.invocations (Retry.trace w) + List.length ms)%nat
    /\ (forall k,
          (exists y m, In (y, m) ms /\ key_of y m = k) ->
          status_of k (Retry.store w1) = Some "completed").
Proof.
  intros Hr Hdry Hup Hgold Hsilver. cbv zeta.
  pose proof (main_eq a w Hr Hup) as E. cbv zeta in E. rewrite E. clear E.
  destruct (unprocessed _ _) as [|ym ms].
  - eexists. split; [reflexivity|].
    cbn [Retry.store Retry.draws Retry.trace biz db_up processed_months log
         printed clock List.length].
    repeat split; try assumption; try lia.
    intros k (y & m & Hin & _). destruct Hin.
  - rewrite Hdry.
    match goal with
    | |- context [Idempotent.sweep _ _ _ _ ?l0 0 ?w0] =>
        destruct (sweep_succeeds l0 Hgold Hsilver 0 w0)
          as (total' & w' & Hsw & Hd & Hu & Hi & Hst);
        rewrite Hsw
    end.
    eexists. split; [reflexivity|].
    cbn [Retry.store Retry.draws Retry.trace biz db_up processed_months log
         printed clock] in *.
    rewrite Hd, Hu, Hi. repeat split; assumption.
Qed.

(** Once every selected month is in the ledger, a run finds no work. *)
Lemma main_no_work (a : args) (w : world) :
  arg_reset a = false ->
  db_up (Retry.store w) = true ->
  (forall y m,
      In (y, m) (filter_args a (distinct_months (biz (Retry.store w)))) ->
      exists st, status_of (key_of y m) (Retry.store w) = Some st) ->
  exists l,
    main a w
    = (Ok tt,
       Retry.World
         (Db (biz (Retry.store w)) (db_up (Retry.store w))
             (processed_months (Retry.store w)) (log (Retry.store w) ++ l)
             (printed (Retry.store w)) (clock (Retry.store w)))
         (Retry.draws w) (Retry.trace w)).
Proof.
  intros Hr Hup Hall.
  pose proof (main_eq a w Hr Hup) as E. cbv zeta in E. rewrite E. clear E.
  assert (Hnone :
            unprocessed
              (order_by (map month_key (processed_months (Retry.store w))))
              (filter_args a (distinct_months (biz (Retry.store w)))) = []).
  { apply filter_all_rejected. intros [y m] Hin. cbn [fst snd].
    destruct (Hall y m Hin) as [st Hst].
    unfold Idempotent.status_of in Hst.
    destruct (find (has_key (key_of y m)) (processed_months (Retry.store w)))
      as [r|] eqn:Hf; [|discriminate].
    assert (key_in (key_of y m)
              (order_by (map month_key (processed_months (Retry.store w))))
            = true) as ->; [|reflexivity].
    apply key_in_iff, order_by_in. eapply find_key_present. exact Hf. }
  rewrite Hnone. eexists. reflexivity.
Qed.

End Facts.


Lemma keys_upsert (y m : Z) (status_ : string) (now : time)
      (t : list month_row) :
  map month_key (upsert_month y m status_ now t)
  = if existsb (has_key (key_of y m)) t then map month_key t
    else (map month_key t ++ [key_of y m])%list.
Proof.
  unfold upsert_month. cbv zeta.
  destruct (existsb (has_key (key_of y m)) t).
  - rewrite map_map. apply map_ext. intros r.
    now destruct (has_key (key_of y m) r).
  - now rewrite map_app.
Qed.

Lemma absent_key (k : string) (t : list month_row) :
  existsb (has_key k) t = false -> ~ In k (map month_key t).
Proof.
  intros Hex Hin. apply in_map_iff in Hin as (r & Hk & Hin).
  assert (existsb (has_key k) t = true) as Ht.
  { apply existsb_exists. exists r. split; [exact Hin|].
    unfold has_key. now apply String.eqb_eq. }
  rewrite Ht in Hex. discriminate.
Qed.

(** X24.  A dry run changes nothing: with [--dry-run] and without
    [--reset], on a database that answers, [main] returns, leaves the
    business tables and the ledger of processed months as they were,
    runs no aggregate statement and does not sleep, and prints the header
    and one line for each month it would process, in order (nothing at
    all when there is no such month). *)
Theorem dry_run_changes_nothing
        (B : Type) (random_random : nat -> Q)
        (gold_sql : Z -> Z -> B -> result Z * B) (rollback : B -> B)
        (distinct_months : B -> list (Z * Z)) (a : args) (w : world B) :
  arg_reset a = false ->
  arg_dry_run a = true ->
  db_up (Retry.store w) = true ->
  let ms :=
    unprocessed (order_by (map month_key (processed_months (Retry.store w))))
                (filter_args a (distinct_months (biz (Retry.store w)))) in
  exists w',
    main B random_random gold_sql rollback distinct_months a w = (Ok tt, w')
    /\ biz (Retry.store w') = biz (Retry.store w)
    /\ processed_months (Retry.store w') = processed_months (Retry.store w)
    /\ Retry.trace w' = Retry.trace w
    /\ printed (Retry.store w')
       = (printed (Retry.store w)
            ++ match ms with
               | [] => []
               | _ :: _ =>
                   "DRY RUN - Would process the following months:"
                   :: map (fun ym => ("  " ++ key_of (fst ym) (snd ym))%string)
                          ms
               end)%list.
Proof.
  intros Hr Hdry Hup. cbv zeta.
  pose proof (main_eq B random_random gold_sql rollback distinct_months a w
                Hr Hup) as E.
  cbv zeta in E. rewrite E. clear E.
  destruct (unprocessed _ _) as [|ym ms].
  - eexists. split; [reflexivity|]. cbn. rewrite app_nil_r. auto.
  - rewrite Hdry. eexists. split; [reflexivity|]. cbn. auto.
Qed.

Lemma dry_run_changes_nothing_witness :
  exists w',
    Demo.sweep_main (Args None None false true) Demo.sweep_start = (Ok tt, w')
    /\ biz (Retry.store w') = tt
    /\ processed_months (Retry.store w') = []
    /\ Retry.trace w' = []
    /\ printed (Retry.store w')
       = ["DRY RUN - Would process the following months:";
          "  2010-12"; "  2011-01"].
Proof.
  apply (dry_run_changes_nothing unit Demo.half Demo.january_fails
           (fun b => b) Demo.two_months (Args None None false true)
           Demo.sweep_start);
    reflexivity.
Defined.

(** X25.  [--reset] wins over every other flag: with it, on a database
    that answers, [main] empties the ledger of processed months and
    returns, whatever [--year], [--month] and [--dry-run] say; it looks at
    no month, runs no aggregate statement and prints nothing. *)
Theorem reset_ignores_other_flags
        (B : Type) (random_random : nat -> Q)
        (gold_sql : Z -> Z -> B -> result Z * B) (rollback : B -> B)
        (distinct_months : B -> list (Z * Z)) (a : args) (w : world B) :
  arg_reset a = true ->
  db_up (Retry.store w) = true ->
  exists w',
    main B random_random gold_sql rollback distinct_months a w = (Ok tt, w')
    /\ processed_months (Retry.store w') = []
    /\ biz (Retry.store w') = biz (Retry.store w)
    /\ Retry.trace w' = Retry.trace w
    /\ printed (Retry.store w') = printed (Retry.store w)
    /\ log (Retry.store w')
       = (log (Retry.store w)
            ++ [StartingRun;
                RunEvent (arg_year a) (arg_month a) true (arg_dry_run a);
                Connected; ResetAll; AllReset])%list.
Proof.
  intros Hr Hup.
  destruct w as [[b up t l p c] dr tr].
  cbn [Retry.store Retry.draws Retry.trace biz db_up processed_months log
       printed clock] in *. subst up.
  unfold main, try_except, bind, on_db, connect, reset_processed_months,
    set_table, logger, exec, ret, raise.
  rewrite Hr. cbn. eexists. split; [reflexivity|]. cbn.
  rewrite <- !app_assoc. auto.
Qed.

Lemma reset_ignores_other_flags_witness :
  exists w',
    Demo.sweep_main (Args (Some 2011) (Some 1) true true) Demo.after_crash
    = (Ok tt, w')
    /\ processed_months (Retry.store w') = []
    /\ biz (Retry.store w') = biz (Retry.store Demo.after_crash)
    /\ Retry.trace w' = Retry.trace Demo.after_crash
    /\ printed (Retry.store w') = printed (Retry.store Demo.after_crash)
    /\ log (Retry.store w')
       = (log (Retry.store Demo.after_crash)
            ++ [StartingRun; RunEvent (Some 2011) (Some 1) true true;
                Connected; ResetAll; AllReset])%list.
Proof.
  apply (reset_ignores_other_flags unit Demo.half Demo.january_fails
           (fun b => b) Demo.two_months (Args (Some 2011) (Some 1) true true)
           Demo.after_crash);
    reflexivity.
Defined.

(** X26.  A run that meets no failure leaves nothing to do: when every
    aggregate statement goes through (and does not change which months
    the silver layer holds), [main] returns after running the statement
    once for each unprocessed month, every one of those months is then
    marked completed, and the same command run again returns without
    running any statement and without changing the business tables or
    the ledger. *)
Theorem rerun_after_success_is_noop
        (B : Type) (random_random : nat -> Q)
        (gold_sql : Z -> Z -> B -> result Z * B) (rollback : B -> B)
        (distinct_months : B -> list (Z * Z)) (a : args) (w : world B) :
  arg_reset a = false ->
  arg_dry_run a = false ->
  db_up (Retry.store w) = true ->
  (forall y m b, exists n b', gold_sql y m b = (Ok n, b')) ->
  (forall y m b, distinct_months (snd (gold_sql y m b)) = distinct_months b) ->
  let run := main B random_random gold_sql rollback distinct_months a in
  let ms :=
    unprocessed (order_by (map month_key (processed_months (Retry.store w))))
                (filter_args a (distinct_months (biz (Retry.store w)))) in
  let w1 := snd (run w) in
  let w2 := snd (run w1) in
  fst (run w) = Ok tt
  /\ Retry.invocations (Retry.trace w1)
     = (Retry.invocations (Retry.trace w) + List.length ms)%nat
  /\ (forall y m,
        In (y, m) ms ->
        status_of B (key_of y m) (Retry.store w1) = Some "completed")
  /\ fst (run w1) = Ok tt
  /\ biz (Retry.store w2) = biz (Retry.store w1)
  /\ processed_months (Retry.store w2) = processed_months (Retry.store w1)
  /\ Retry.trace w2 = Retry.trace w1.
Proof.
  intros Hr Hdry Hup Hgold Hsilver. cbv zeta.
  destruct (main_succeeds B random_random gold_sql rollback distinct_months
              a w Hr Hdry Hup Hgold Hsilver)
    as (w1 & E1 & Hd & Hu1 & Hi & Hst).
  cbv zeta in *.
  assert (Hall : forall y m,
             In (y, m) (filter_args a (distinct_months (biz (Retry.store w1)))) ->
             exists st, status_of B (key_of y m) (Retry.store w1) = Some st).
  { intros y m Hin. rewrite Hd in Hin.
    destruct (key_in (key_of y m)
                (order_by (map month_key (processed_months (Retry.store w)))))
      eqn:Hk.
    - apply key_in_iff, order_by_in, find_of_key in Hk as [r Hf].
      assert (Hs : status_of B (key_of y m) (Retry.store w) = Some (status r)).
      { unfold status_of. now rewrite Hf. }
      pose proof (untouched_main B random_random gold_sql rollback
                    distinct_months (key_of y m) a w (status r) Hr Hs) as Hun.
      rewrite E1 in Hun. cbn [snd] in Hun.
      exists (status r). now rewrite (untouched_status B _ _ _ Hun).
    - exists "completed". apply Hst. exists y, m. split; [|reflexivity].
      unfold unprocessed. apply filter_In. split; [exact Hin|].
      cbn [fst snd]. now rewrite Hk. }
  destruct (main_no_work B random_random gold_sql rollback distinct_months
              a w1 Hr Hu1 Hall) as [l E2].
  rewrite E1. cbn [fst snd]. rewrite E2. cbn [fst snd].
  cbn [Retry.store Retry.draws Retry.trace biz db_up processed_months log
       printed clock].
  repeat split; try assumption.
  intros y m Hin. apply Hst. now exists y, m.
Qed.

Lemma rerun_after_success_is_noop_witness :
  let run :=
    main unit Demo.half Demo.every_month_ok (fun b => b) Demo.two_months
         default_args in
  let ms :=
    unprocessed
      (order_by (map month_key (processed_months (Retry.store Demo.sweep_start))))
      (filter_args default_args
                   (Demo.two_months (biz (Retry.store Demo.sweep_start)))) in
  let w1 := snd (run Demo.sweep_start) in
  let w2 := snd (run w1) in
  fst (run Demo.sweep_start) = Ok tt
  /\ Retry.invocations (Retry.trace w1)
     = (Retry.invocations (Retry.trace Demo.sweep_start) + List.length ms)%nat
  /\ (forall y m,
        In (y, m) ms ->
        status_of unit (key_of y m) (Retry.store w1) = Some "completed")
  /\ fst (run w1) = Ok tt
  /\ biz (Retry.store w2) = biz (Retry.store w1)
  /\ processed_months (Retry.store w2) = processed_months (Retry.store w1)
  /\ Retry.trace w2 = Retry.trace w1.
Proof.
  apply (rerun_after_success_is_noop unit Demo.half Demo.every_month_ok
           (fun b => b) Demo.two_months default_args Demo.sweep_start);
    [reflexivity|reflexivity|reflexivity| |reflexivity].
  intros y m b. exists 3, b. reflexivity.
Defined.

(** X27.  A month whose statement keeps failing costs three attempts:
    [process_month_gold] runs the statement three times, rolls the
    transaction back after each failure, sleeps twice in between (for
    1 and 2 seconds plus the jitter), never touches the ledger, and then
    raises the exception of the third attempt. *)
Theorem failing_month_gets_three_attempts
        (B : Type) (random_random : nat -> Q)
        (gold_sql : Z -> Z -> B -> result Z * B) (rollback : B -> B)
        (y m : Z) (w : world B) (e1 e2 e3 : exn) (b1 b2 b3 : B) :
  gold_sql y m (biz (Retry.store w)) = (Raise e1, b1) ->
  gold_sql y m (rollback b1) = (Raise e2, b2) ->
  gold_sql y m (rollback b2) = (Raise e3, b3) ->
  let r := process_month_gold B random_random gold_sql rollback y m w in
  fst r = Raise e3
  /\ biz (Retry.store (snd r)) = rollback b3
  /\ processed_months (Retry.store (snd r))
     = processed_months (Retry.store w)
  /\ Retry.trace (snd r)
     = (Retry.trace w
          ++ [Retry.Invoke;
              Retry.Sleep (Retry.delay_of 1 0
                             (random_random (Retry.draws w)));
              Retry.Invoke;
              Retry.Sleep (Retry.delay_of 1 1
                             (random_random (Datatypes.S (Retry.draws w))));
              Retry.Invoke])%list.
Proof.
  intros H1 H2 H3. cbv zeta.
  pose proof (process_exhausted B random_random gold_sql rollback y m w
                e1 e2 e3 b1 b2 b3 H1 H2 H3) as E.
  cbv zeta in E. rewrite E. cbn. auto.
Qed.

Lemma failing_month_gets_three_attempts_witness :
  let r :=
    process_month_gold unit Demo.half Demo.never_ok (fun b => b) 2011 1
                       Demo.sweep_start in
  fst r = Raise (Exn "OperationalError" "deadlock detected")
  /\ biz (Retry.store (snd r)) = tt
  /\ processed_months (Retry.store (snd r)) = []
  /\ Retry.trace (snd r)
     = [Retry.Invoke; Retry.Sleep (Retry.delay_of 1 0 (1 # 2));
        Retry.Invoke; Retry.Sleep (Retry.delay_of 1 1 (1 # 2));
        Retry.Invoke].
Proof.
  apply (failing_month_gets_three_attempts unit Demo.half Demo.never_ok
           (fun b => b) 2011 1 Demo.sweep_start
           (Exn "OperationalError" "deadlock detected")
           (Exn "OperationalError" "deadlock detected")
           (Exn "OperationalError" "deadlock detected") tt tt tt);
    reflexivity.
Defined.

(** X29.  A marked month reads back, and only that month changes:
    after [set_month_processed] the month has the given status, the row
    of every other month is as it was, and a ledger in which every month
    key occurred once still has every key once; a month that was there
    keeps its place and no row is added for it. *)
Theorem marked_month_reads_back
        (B : Type) (y m : Z) (status_ : string) (d : db B) :
  NoDup (map month_key (processed_months d)) ->
  let d' := snd (set_month_processed B y m status_ d) in
  status_of B (key_of y m) d' = Some status_
  /\ (forall k, k <> key_of y m ->
                find (has_key k) (processed_months d')
                = find (has_key k) (processed_months d))
  /\ NoDup (map month_key (processed_months d'))
  /\ (In (key_of y m) (map month_key (processed_months d)) ->
      map month_key (processed_months d')
      = map month_key (processed_months d)).
Proof.
  intros Hnd. cbv zeta. rewrite set_month_processed_eq. cbn [snd].
  unfold status_of. cbn [processed_months].
  split.
  { destruct (find_upsert_same y m status_ (clock d) (processed_months d))
      as (r & Hf & Hs).
    now rewrite Hf, Hs. }
  split.
  { intros k Hk. apply find_upsert_other. congruence. }
  rewrite keys_upsert.
  destruct (existsb (has_key (key_of y m)) (processed_months d)) eqn:Hex.
  - split; [exact Hnd|reflexivity].
  - split.
    + apply NoDup_app; [exact Hnd|repeat constructor; intros []|].
      intros k Hin [Heq|[]]. subst k. exact (absent_key _ _ Hex Hin).
    + intros Hin. exfalso. exact (absent_key _ _ Hex Hin).
Qed.

Lemma marked_month_reads_back_witness :
  status_of unit "2011-01"
    (snd (set_month_processed unit 2011 1 "completed"
            (Retry.store Demo.after_crash)))
  = Some "completed"
  /\ map month_key
       (processed_months
          (snd (set_month_processed unit 2011 1 "completed"
                  (Retry.store Demo.after_crash))))
     = map month_key (processed_months (Retry.store Demo.after_crash)).
Proof.
  assert (Hnd : NoDup (map month_key
                         (processed_months (Retry.store Demo.after_crash)))).
  { vm_compute. repeat constructor; cbn; intuition discriminate. }
  destruct (marked_month_reads_back unit 2011 1 "completed"
              (Retry.store Demo.after_crash) Hnd) as (H1 & _ & _ & H4).
  split; [exact H1|]. apply H4. vm_compute. right. left. reflexivity.
Defined.



(** X28.  A month that cannot be aggregated ends the run with exit
    status 1.  Once the arguments are parsed, without [--reset] and
    [--dry-run] and on a database that answers: when the statement of
    the first unprocessed month raises at each of its three attempts,
    [main] does not pass the exception on but logs the failure as its
    last record and raises [SystemExit(1)]; the month is left marked
    in_progress, the row of no other month is touched, no later month is
    attempted, and the last transaction was rolled back. *)
Theorem failing_month_exits_with_status_one
        (B : Type) (random_random : nat -> Q)
        (gold_sql : Z -> Z -> B -> result Z * B) (rollback : B -> B)
        (distinct_months : B -> list (Z * Z)) (a : args) (w : world B)
        (y m : Z) (later : list (Z * Z)) (e1 e2 e3 : exn) (b1 b2 b3 : B) :
  arg_reset a = false ->
  arg_dry_run a = false ->
  db_up (Retry.store w) = true ->
  unprocessed (order_by (map month_key (processed_months (Retry.store w))))
              (filter_args a (distinct_months (biz (Retry.store w))))
  = (y, m) :: later ->
  gold_sql y m (biz (Retry.store w)) = (Raise e1, b1) ->
  gold_sql y m (rollback b1) = (Raise e2, b2) ->
  gold_sql y m (rollback b2) = (Raise e3, b3) ->
  let r := main B random_random gold_sql rollback distinct_months a w in
  fst r = Raise system_exit
  /\ biz (Retry.store (snd r)) = rollback b3
  /\ status_of B (key_of y m) (Retry.store (snd r)) = Some "in_progress"
  /\ (forall k, k <> key_of y m ->
                find (has_key k) (processed_months (Retry.store (snd r)))
                = find (has_key k) (processed_months (Retry.store w)))
  /\ Retry.trace (snd r)
     = (Retry.trace w
          ++ [Retry.Invoke;
              Retry.Sleep (Retry.delay_of 1 0
                             (random_random (Retry.draws w)));
              Retry.Invoke;
              Retry.Sleep (Retry.delay_of 1 1
                             (random_random (Datatypes.S (Retry.draws w))));
              Retry.Invoke])%list
  /\ exists l, log (Retry.store (snd r)) = (l ++ [PipelineFailed e3])%list.
Proof.
  intros Hr Hdry Hup Hms H1 H2 H3. cbv zeta.
  pose proof (main_eq B random_random gold_sql rollback distinct_months a w
                Hr Hup) as E.
  cbv zeta in E. rewrite E. clear E. rewrite Hms, Hdry.
  rewrite (sweep_step B random_random gold_sql rollback). cbv zeta.
  rewrite (set_month_processed_eq B y m "in_progress"). cbn [snd].
  cbn [Retry.store Retry.draws Retry.trace biz db_up processed_months log
       printed clock].
  match goal with
  | |- context [process_month_gold B random_random gold_sql rollback y m ?w1] =>
      pose proof (process_exhausted B random_random gold_sql rollback y m w1
                    e1 e2 e3 b1 b2 b3 H1 H2 H3) as E
  end.
  cbv zeta in E. rewrite E. clear E.
  cbn [fst snd Retry.store Retry.draws Retry.trace biz db_up
       processed_months log printed clock].
  split; [reflexivity|]. split; [reflexivity|]. split.
  { unfold status_of. cbn [processed_months].
    destruct (find_upsert_same y m "in_progress" (clock (Retry.store w))
                (processed_months (Retry.store w))) as (r & Hf & Hs).
    now rewrite Hf, Hs. }
  split.
  { intros k Hk. apply find_upsert_other. congruence. }
  split; [reflexivity|].
  eexists. rewrite !app_assoc. reflexivity.
Qed.

Lemma failing_month_exits_with_status_one_witness :
  let a := Args (Some 2011) (Some 1) false false in
  let e := Exn "OperationalError" "deadlock detected" in
  let r := main unit Demo.half Demo.january_fails (fun b => b)
                Demo.two_months a Demo.sweep_start in
  fst r = Raise system_exit
  /\ biz (Retry.store (snd r)) = (fun b : unit => b) tt
  /\ status_of unit (key_of 2011 1) (Retry.store (snd r)) = Some "in_progress"
  /\ (forall k, k <> key_of 2011 1 ->
                find (has_key k) (processed_months (Retry.store (snd r)))
                = find (has_key k)
                       (processed_months (Retry.store Demo.sweep_start)))
  /\ Retry.trace (snd r)
     = (Retry.trace Demo.sweep_start
          ++ [Retry.Invoke;
              Retry.Sleep (Retry.delay_of 1 0
                             (Demo.half (Retry.draws Demo.sweep_start)));
              Retry.Invoke;
              Retry.Sleep (Retry.delay_of 1 1
                             (Demo.half
                                (Datatypes.S (Retry.draws Demo.sweep_start))));
              Retry.Invoke])%list
  /\ exists l, log (Retry.store (snd r)) = (l ++ [PipelineFailed e])%list.
Proof.
  apply (failing_month_exits_with_status_one unit Demo.half
           Demo.january_fails (fun b => b) Demo.two_months
           (Args (Some 2011) (Some 1) false false) Demo.sweep_start
           2011 1 []
           (Exn "OperationalError" "deadlock detected")
           (Exn "OperationalError" "deadlock detected")
           (Exn "OperationalError" "deadlock detected") tt tt tt);
    reflexivity.
Defined.

End IdempotentMore.
